(** * Indent Format Transformer: the text-conversion core of [streamlit_app.py]

    A shallow embedding of the conversion pipeline (normalisation, code-fence
    vault, marker unification, indent resolution, the renderers and the
    [convert] orchestrator) together with the properties stated for it.

    Python values are modelled as follows.
    - [str]: a list of Unicode code points ([N]); [len] is [length].
    - [int]: [Z]; [//] is [Z.div] (both round towards minus infinity) and
      raises [ZeroDivisionError] on a zero divisor.  An [int] that a
      built-in method converts to a C [int] raises [OverflowError] when it
      does not fit.  Memory is taken as unbounded.
    - [re]: a pattern is a backtracking matcher that lists its matches at a
      position in the order in which Python's engine tries them, so that the
      match Python reports is the head of the list.
    - [Dict[str, str]] iterated in insertion order: an association list. *)

From Stdlib Require Import List NArith ZArith Bool Lia PeanoNat.
From Stdlib Require Ascii String DecimalNat.
Import ListNotations String.StringSyntax.

Delimit Scope string_scope with string.

(** ** Characters and strings *)

Definition char := N.
Definition str := list char.

Definition ord (a : Ascii.ascii) : char := Ascii.N_of_ascii a.

(** An ASCII literal as a Python string. *)
Definition lit (s : String.string) : str :=
  map ord (String.list_ascii_of_string s).

Arguments lit s%_string.

Definition NL : char := 10%N.
Definition CR : char := 13%N.
Definition TAB : char := 9%N.
Definition SP : char := 32%N.
Definition BACKTICK : char := 96%N.
Definition QUOTE : char := 34%N.
Definition BACKSLASH : char := 92%N.

Definition eqc (a b : char) : bool := N.eqb a b.

Definition mem (c : char) (cs : str) : bool := existsb (eqc c) cs.

Definition in_range (lo hi c : char) : bool := (N.leb lo c && N.leb c hi)%bool.

(** ** Exceptions *)

Inductive exn := ZeroDivisionError | OverflowError.

Inductive outcome (A : Type) : Type :=
| Ok (a : A)
| Raise (e : exn).

Arguments Ok {A} a.
Arguments Raise {A} e.

Definition bind {A B} (x : outcome A) (f : A -> outcome B) : outcome B :=
  match x with
  | Ok a => f a
  | Raise e => Raise e
  end.

Notation "x <- e ;; k" := (bind e (fun x => k))
  (at level 61, e at next level, right associativity).

(** [a // b] *)
Definition floordiv (a b : Z) : outcome Z :=
  if Z.eqb b 0 then Raise ZeroDivisionError else Ok (Z.div a b).

(** ** Python's built-in string operations *)

Module Py.

(** [str.isspace] on one character, which is also [\s] of a [str] pattern:
    both are CPython's [Py_UNICODE_ISSPACE]. *)
Definition isspace (c : char) : bool :=
  (in_range 9 13 c || in_range 28 32 c || eqc c 133 || eqc c 160
   || eqc c 5760 || in_range 8192 8202 c || eqc c 8232 || eqc c 8233
   || eqc c 8239 || eqc c 8287 || eqc c 12288)%N%bool.

Fixpoint drop_while (p : char -> bool) (s : str) : str :=
  match s with
  | [] => []
  | c :: t => if p c then drop_while p t else s
  end.

Fixpoint take_while (p : char -> bool) (s : str) : str :=
  match s with
  | [] => []
  | c :: t => if p c then c :: take_while p t else []
  end.

(** [s.lstrip()], [s.rstrip()], [s.strip()] *)
Definition lstrip (s : str) : str := drop_while isspace s.
Definition rstrip (s : str) : str := rev (drop_while isspace (rev s)).
Definition strip (s : str) : str := lstrip (rstrip s).

(** The truth value of a string: it is not empty. *)
Definition truthy (s : str) : bool :=
  match s with [] => false | _ :: _ => true end.

(** [c * n] for a one-character string [c]; a negative count gives [""]. *)
Definition times (c : char) (n : Z) : str := repeat c (Z.to_nat n).

(** The expansion of the tabs of [s] from column [col]: a tab advances to
    the next multiple of [tabsize] and is dropped when [tabsize <= 0]; a
    line feed or carriage return resets the column. *)
Fixpoint expandtabs_from (tabsize col : Z) (s : str) : str :=
  match s with
  | [] => []
  | c :: t =>
      if eqc c TAB then
        if Z.ltb 0 tabsize then
          let incr := (tabsize - col mod tabsize)%Z in
          times SP incr ++ expandtabs_from tabsize (col + incr) t
        else expandtabs_from tabsize col t
      else
        c :: expandtabs_from tabsize
               (if (eqc c NL || eqc c CR)%bool then 0%Z else (col + 1)%Z) t
  end.

(** The string that [s.expandtabs(tabsize)] returns, when it returns. *)
Definition expanded (tabsize : Z) (s : str) : str :=
  expandtabs_from tabsize 0 s.

(** An [int] that fits a C [int]. *)
Definition fits_int (n : Z) : bool :=
  (Z.leb (-2147483648) n && Z.leb n 2147483647)%bool.

(** [s.expandtabs(tabsize)]: the argument is converted to a C [int] before
    anything else, for the empty string too. *)
Definition expandtabs (tabsize : Z) (s : str) : outcome str :=
  if fits_int tabsize then Ok (expanded tabsize s) else Raise OverflowError.

(** [s.split(c)] for a one-character separator. *)
Fixpoint split (c : char) (s : str) : list str :=
  match s with
  | [] => [[]]
  | x :: t =>
      if eqc x c then [] :: split c t
      else match split c t with
           | l :: ls => (x :: l) :: ls
           | [] => [[x]]
           end
  end.

(** [sep.join(parts)] *)
Fixpoint join (sep : str) (parts : list str) : str :=
  match parts with
  | [] => []
  | [p] => p
  | p :: ps => p ++ sep ++ join sep ps
  end.

(** [Some rest] when [s = pre ++ rest]. *)
Fixpoint strip_prefix (pre s : str) : option str :=
  match pre, s with
  | [], _ => Some s
  | p :: pre', c :: s' => if eqc p c then strip_prefix pre' s' else None
  | _ :: _, [] => None
  end.

(** The scan of [s.replace(old, new)] for a non-empty [old]: the leftmost
    occurrence is replaced and the scan resumes behind it.  Every step
    consumes a character, so [fuel] above [length s] is never used up. *)
Fixpoint replace_scan (fuel : nat) (old new s : str) : str :=
  match fuel with
  | O => s
  | S fuel' =>
      match strip_prefix old s with
      | Some rest => new ++ replace_scan fuel' old new rest
      | None =>
          match s with
          | [] => []
          | c :: t => c :: replace_scan fuel' old new t
          end
      end
  end.

(** [s.replace(old, new)]; an empty [old] matches between all characters. *)
Definition replace (old new s : str) : str :=
  match old with
  | [] => new ++ flat_map (fun c => c :: new) s
  | _ :: _ => replace_scan (S (length s)) old new s
  end.

Fixpoint uint_digits (d : Decimal.uint) : str :=
  match d with
  | Decimal.Nil => []
  | Decimal.D0 d => 48%N :: uint_digits d
  | Decimal.D1 d => 49%N :: uint_digits d
  | Decimal.D2 d => 50%N :: uint_digits d
  | Decimal.D3 d => 51%N :: uint_digits d
  | Decimal.D4 d => 52%N :: uint_digits d
  | Decimal.D5 d => 53%N :: uint_digits d
  | Decimal.D6 d => 54%N :: uint_digits d
  | Decimal.D7 d => 55%N :: uint_digits d
  | Decimal.D8 d => 56%N :: uint_digits d
  | Decimal.D9 d => 57%N :: uint_digits d
  end.

(** [str(n)] for a natural number and for an [int]. *)
Definition str_of_nat (n : nat) : str := uint_digits (Nat.to_uint n).

Definition str_of_int (z : Z) : str :=
  match z with
  | Z0 => [48%N]
  | Zpos p => uint_digits (Pos.to_uint p)
  | Zneg p => 45%N :: uint_digits (Pos.to_uint p)
  end.

(** [len(s)] as an [int]. *)
Definition len (s : str) : Z := Z.of_nat (length s).

End Py.

(** ** Python's [re]: backtracking matchers *)

Module Re.

(** A match object: [group(0)], the capturing groups [group(1)], ... and the
    text behind the match. *)
Record Match := mkMatch {
  group0 : str;
  groups : list str;
  after : str
}.

Definition group (m : Match) (i : nat) : str :=
  nth i (group0 m :: groups m) [].

(** A pattern, tried where [s] starts and [prev] is the character before
    that place ([None] at the start of the text): all its matches there, in
    the order the backtracking engine reaches them. *)
Definition rx := option char -> str -> list Match.

Definition last_of (prev : option char) (s : str) : option char :=
  fold_left (fun _ c => Some c) s prev.

(** The empty pattern. *)
Definition eps : rx := fun _ s => [mkMatch [] [] s].

(** One character of a class: [[...]], [\s], [\d], [.] or a literal. *)
Definition chr (p : char -> bool) : rx := fun _ s =>
  match s with
  | c :: t => if p c then [mkMatch [c] [] t] else []
  | [] => []
  end.

(** [r1 r2] *)
Definition cat (r1 r2 : rx) : rx := fun prev s =>
  flat_map
    (fun m1 =>
       map (fun m2 => mkMatch (group0 m1 ++ group0 m2)
                              (groups m1 ++ groups m2) (after m2))
           (r2 (last_of prev (group0 m1)) (after m1)))
    (r1 prev s).

(** [r1|r2] *)
Definition alt (r1 r2 : rx) : rx := fun prev s => r1 prev s ++ r2 prev s.

(** [(r)] *)
Definition capture (r : rx) : rx := fun prev s =>
  map (fun m => mkMatch (group0 m) (group0 m :: groups m) (after m))
      (r prev s).

(** [r?] *)
Definition opt (r : rx) : rx := alt r eps.

Definition extend (c : char) (m : Match) : Match :=
  mkMatch (c :: group0 m) (groups m) (after m).

(** [c*] for a character class, greedy: longest run first. *)
Fixpoint star (p : char -> bool) (s : str) : list Match :=
  match s with
  | c :: t =>
      if p c then map (extend c) (star p t) ++ [mkMatch [] [] s]
      else [mkMatch [] [] s]
  | [] => [mkMatch [] [] []]
  end.

(** [c*?] for a character class, lazy: shortest run first. *)
Fixpoint star_lazy (p : char -> bool) (s : str) : list Match :=
  mkMatch [] [] s ::
  match s with
  | c :: t => if p c then map (extend c) (star_lazy p t) else []
  | [] => []
  end.

Definition many (p : char -> bool) : rx := fun _ s => star p s.
Definition many_lazy (p : char -> bool) : rx := fun _ s => star_lazy p s.

(** [c+] *)
Definition plus (p : char -> bool) : rx := cat (chr p) (many p).

(** [c{n,}] *)
Fixpoint at_least (n : nat) (p : char -> bool) : rx :=
  match n with
  | O => many p
  | S n' => cat (chr p) (at_least n' p)
  end.

(** A literal string. *)
Fixpoint text (w : str) : rx :=
  match w with
  | [] => eps
  | c :: w' => cat (chr (eqc c)) (text w')
  end.

(** [^] without and with [re.MULTILINE]. *)
Definition bol : rx := fun prev s =>
  match prev with
  | None => [mkMatch [] [] s]
  | Some _ => []
  end.

Definition bol_multiline : rx := fun prev s =>
  match prev with
  | None => [mkMatch [] [] s]
  | Some c => if eqc c NL then [mkMatch [] [] s] else []
  end.

(** [$] without [re.MULTILINE]: at the end, or before a final line feed. *)
Definition eol : rx := fun _ s =>
  match s with
  | [] => [mkMatch [] [] s]
  | [c] => if eqc c NL then [mkMatch [] [] s] else []
  | _ => []
  end.

(** [pattern.match(s)]: the first match at the start of [s]. *)
Definition re_match (r : rx) (s : str) : option Match := hd_error (r None s).

(** What a left-to-right scan for the pattern finds: a match, or a character
    that no match covers. *)
Inductive piece :=
| Copied (c : char)
| Matched (m : Match).

(** The scan behind [pattern.sub] (and [finditer]): where the pattern
    matches, the match is recorded and the scan resumes behind it; elsewhere
    one character is copied.  Every step consumes a character, so [fuel]
    above [length s] is never used up.  The patterns of this program match
    no empty string (see [nonempty] below), so the engine's rule for the
    search after an empty match is not modelled: the scan then records the
    match and copies one character. *)
Fixpoint scan (fuel : nat) (r : rx) (prev : option char) (s : str)
  : list piece :=
  match fuel with
  | O => map Copied s
  | S fuel' =>
      let copy :=
        match s with
        | [] => []
        | c :: t => Copied c :: scan fuel' r (Some c) t
        end in
      match r prev s with
      | m :: _ =>
          match group0 m with
          | [] => Matched m :: copy
          | _ :: _ =>
              Matched m :: scan fuel' r (last_of prev (group0 m)) (after m)
          end
      | [] => copy
      end
  end.

Definition pieces (r : rx) (s : str) : list piece :=
  scan (S (length s)) r None s.

(** [pattern.sub(repl, s)] for a function [repl], and [re.sub] with a
    template that has no backslash (it is then taken literally). *)
Definition sub (r : rx) (repl : Match -> str) (s : str) : str :=
  flat_map (fun p => match p with Copied c => [c] | Matched m => repl m end)
           (pieces r s).

(** [pattern.sub(repl, s)] for a function [repl] that updates a variable of
    its environment at each call: the calls are made in the order of the
    matches. *)
Fixpoint emit {St : Type} (repl : St -> Match -> str * St) (st : St)
         (ps : list piece) : str * St :=
  match ps with
  | [] => ([], st)
  | Copied c :: ps' =>
      let (out, st') := emit repl st ps' in (c :: out, st')
  | Matched m :: ps' =>
      let (k, st1) := repl st m in
      let (out, st') := emit repl st1 ps' in (k ++ out, st')
  end.

Definition sub_with {St : Type} (r : rx) (repl : St -> Match -> str * St)
           (st : St) (s : str) : str * St :=
  emit repl st (pieces r s).

(** A pattern that matches no empty string. *)
Definition nonempty (r : rx) : Prop :=
  forall prev s m, In m (r prev s) -> group0 m <> [].

End Re.

(** ** The program *)

(** [Dict[str, str]], in insertion order. *)
Definition dict := list (str * str).

Fixpoint str_eqb (a b : str) : bool :=
  match a, b with
  | [], [] => true
  | x :: a', y :: b' => eqc x y && str_eqb a' b'
  | _, _ => false
  end.

(** [d[k] = v] *)
Fixpoint dict_set (d : dict) (k v : str) : dict :=
  match d with
  | [] => [(k, v)]
  | (k', v') :: d' =>
      if str_eqb k' k then (k', v) :: d' else (k', v') :: dict_set d' k v
  end.

(** The two symbols the sidebar offers for [gdocs_bullet_symbol]; neither has
    a backslash, so [re.sub] takes the replacement built from it literally. *)
Inductive BulletSymbol := BulletDot | BulletHyphen.

Definition bullet_str (b : BulletSymbol) : str :=
  match b with
  | BulletDot => [8226%N]
  | BulletHyphen => [45%N]
  end.

Definition ZERO_WIDTH : str := [8203; 8204; 8205; 65279]%N.

(** The characters that the class [[{BULLET_CHARS}]] denotes: in the class the
    two backslashes of [BULLET_CHARS] escape the hyphen and the asterisk. *)
Definition BULLET_CHARS : str :=
  [45; 42; 8226; 8227; 8259; 8729; 9702; 12539; 183; 8268; 8269; 8722;
   8211; 8212; 8213; 8259; 8268; 8269]%N.

Definition ascii_letter (c : char) : bool :=
  (in_range 97 122 c || in_range 65 90 c)%N%bool.

Definition roman_letter (c : char) : bool := mem c (lit "ivxIVX").

(** [[\)\.]] *)
Definition closer (c : char) : bool := (eqc c 41 || eqc c 46)%N%bool.

Definition space_or_tab (c : char) : bool := (eqc c SP || eqc c TAB)%bool.

(** [.] without [re.DOTALL] *)
Definition dot (c : char) : bool := negb (eqc c NL).

(** [[\s\S]] *)
Definition any (c : char) : bool := (Py.isspace c || negb (Py.isspace c))%bool.

Definition BULLET_RE : Re.rx :=
  Re.cat Re.bol (Re.cat (Re.chr (fun c => mem c BULLET_CHARS)) (Re.plus Py.isspace)).

Definition CODE_FENCE_RE : Re.rx :=
  Re.cat (Re.text (lit "```")) (Re.cat (Re.many_lazy any) (Re.text (lit "```"))).

Definition LEADING_WS_RE : Re.rx :=
  Re.cat Re.bol
    (Re.cat (Re.capture (Re.many space_or_tab))
       (Re.cat (Re.capture (Re.many dot)) Re.eol)).

Definition ZERO_WIDTH_RE : Re.rx := Re.chr (fun c => mem c ZERO_WIDTH).

Definition SMART_QUOTES : dict :=
  [([8220], [34]); ([8221], [34]); ([8222], [34]); ([8242], [39]);
   ([8217], [39]); ([8216], [39]); ([8219], [39]); ([8249], [60]);
   ([8250], [62])]%N.

(** [r"^[\>]+\s?"] with [re.MULTILINE], of the Slack pre-clean. *)
Definition QUOTE_MARKS_RE : Re.rx :=
  Re.cat Re.bol_multiline
    (Re.cat (Re.plus (eqc 62%N)) (Re.opt (Re.chr Py.isspace))).

(** [r"^\-\s+"], of [lines_to_gdocs]. *)
Definition HYPHEN_RE : Re.rx :=
  Re.cat Re.bol (Re.cat (Re.chr (eqc 45%N)) (Re.plus Py.isspace)).

(** [r"\n{3,}"], of the blank-line collapse. *)
Definition BLANK_RUN_RE : Re.rx := Re.at_least 3 (eqc NL).

Definition normalize_text (text : str) (convert_smart_quotes : bool) : str :=
  let text := Py.replace [CR] [NL] (Py.replace [CR; NL] [NL] text) in
  let text := Py.replace [160%N] [SP] text in
  let text := Py.replace [12288%N] [SP; SP] text in
  let text := Re.sub ZERO_WIDTH_RE (fun _ => []) text in
  if convert_smart_quotes then
    fold_left (fun text kv => Py.replace (fst kv) (snd kv) text) SMART_QUOTES text
  else text.

(** [f"__CODEBLOCK_{n}__"] *)
Definition placeholder (n : nat) : str :=
  lit "__CODEBLOCK_" ++ Py.str_of_nat n ++ lit "__".

(** The closure [_repl] of [extract_code_fences], with the dictionary it
    updates made explicit. *)
Definition _repl (blocks : dict) (m : Re.Match) : str * dict :=
  let key := placeholder (length blocks) in
  (key, dict_set blocks key (Re.group m 0)).

Definition extract_code_fences (text : str) : str * dict :=
  Re.sub_with CODE_FENCE_RE _repl [] text.

Definition restore_code_fences (text : str) (blocks : dict) : str :=
  fold_left (fun text kv => Py.replace (fst kv) (snd kv) text) blocks text.

(** A record of the JSON outline: [{"level": level, "text": txt}]. *)
Record item := mkItem { level : Z; text : str }.

Module Json.

Definition hex_digit (n : N) : char :=
  if N.ltb n 10 then (48 + n)%N else (87 + n)%N.

(** The escapes of [json.dumps(..., ensure_ascii=False)]. *)
Definition escape (c : char) : str :=
  if eqc c QUOTE then [BACKSLASH; QUOTE]
  else if eqc c BACKSLASH then [BACKSLASH; BACKSLASH]
  else if eqc c NL then BACKSLASH :: lit "n"
  else if eqc c CR then BACKSLASH :: lit "r"
  else if eqc c TAB then BACKSLASH :: lit "t"
  else if eqc c 8%N then BACKSLASH :: lit "b"
  else if eqc c 12%N then BACKSLASH :: lit "f"
  else if N.ltb c 32 then
    BACKSLASH :: lit "u00" ++ [hex_digit (c / 16); hex_digit (c mod 16)]
  else [c].

Definition string (s : str) : str := QUOTE :: flat_map escape s ++ [QUOTE].

Definition object (it : item) : str :=
  lit "{" ++ NL :: lit "    " ++ QUOTE :: lit "level" ++ QUOTE :: lit ": "
  ++ Py.str_of_int (level it) ++ lit "," ++ NL :: lit "    "
  ++ QUOTE :: lit "text" ++ QUOTE :: lit ": " ++ string (text it)
  ++ NL :: lit "  " ++ lit "}".

(** [json.dumps(items, ensure_ascii=False, indent=2)] for a list of
    [{"level": int, "text": str}] dictionaries. *)
Definition dumps (items : list item) : str :=
  match items with
  | [] => lit "[]"
  | _ :: _ =>
      lit "[" ++ NL :: lit "  "
      ++ Py.join (lit "," ++ NL :: lit "  ") (map object items)
      ++ NL :: lit "]"
  end.

End Json.

(** The statements of a [for raw in lines] loop that appends to a list: each
    round yields what it appends, and an exception ends the loop. *)
Fixpoint for_each {A : Type} (body : str -> outcome (list A)) (lines : list str)
  : outcome (list A) :=
  match lines with
  | [] => Ok []
  | raw :: lines' =>
      x <- body raw ;;
      xs <- for_each body lines' ;;
      Ok (x ++ xs)
  end.

Section Program.

(** [\d] of a [str] pattern is CPython's [Py_UNICODE_ISDECIMAL], a table of
    the interpreter's Unicode database; it is a parameter here. *)
Variable isdecimal : char -> bool.

Definition NUM_MARKER_RE : Re.rx :=
  Re.cat Re.bol
    (Re.cat
       (Re.capture
          (Re.alt (Re.plus isdecimal)
             (Re.alt (Re.chr ascii_letter) (Re.plus roman_letter))))
       (Re.cat (Re.chr closer) (Re.plus Py.isspace))).

Definition unify_markers (line : str) : str :=
  let line :=
    match Re.re_match BULLET_RE line with
    | Some _ => Re.sub BULLET_RE (fun _ => lit "- ") line
    | None => line
    end in
  let line :=
    match Re.re_match NUM_MARKER_RE line with
    | Some _ => Re.sub NUM_MARKER_RE (fun m => Re.group m 1 ++ lit ". ") line
    | None => line
    end in
  line.

(** The four statements that [lines_to_markdown], [lines_to_gdocs] and
    [to_json_outline] share: tab expansion, the split into leading
    whitespace and rest, and the level. *)
Definition split_indent (raw : str) (indent_size : Z) : outcome (Z * str) :=
  expanded <- Py.expandtabs indent_size raw ;;
  let m := Re.re_match LEADING_WS_RE expanded in
  let (leading, rest) :=
    match m with
    | Some m => (Re.group m 1, Re.group m 2)
    | None => ([], expanded)
    end in
  level <- floordiv (Py.len leading) indent_size ;;
  Ok (level, rest).

Definition lines_to_markdown (lines : list str) (indent_size : Z)
           (trim_trailing_ws : bool) : outcome (list str) :=
  for_each
    (fun raw =>
       if negb (Py.truthy (Py.strip raw)) then Ok [[]]
       else
         lr <- split_indent raw indent_size ;;
         let (level, rest) := lr in
         let rest := unify_markers rest in
         let line := Py.times SP (indent_size * level) ++ rest in
         let line := if trim_trailing_ws then Py.rstrip line else line in
         Ok [line])
    lines.

Definition lines_to_gdocs (lines : list str) (indent_size : Z)
           (bullet_symbol : BulletSymbol) (trim_trailing_ws : bool)
  : outcome (list str) :=
  for_each
    (fun raw =>
       if negb (Py.truthy (Py.strip raw)) then Ok [[]]
       else
         lr <- split_indent raw indent_size ;;
         let (level, rest) := lr in
         let rest := unify_markers rest in
         let rest :=
           Re.sub HYPHEN_RE (fun _ => bullet_str bullet_symbol ++ [SP]) rest in
         let line := Py.times TAB level ++ rest in
         let line := if trim_trailing_ws then Py.rstrip line else line in
         Ok [line])
    lines.

Definition lines_to_plain (lines : list str) (indent_size : Z)
           (trim_trailing_ws : bool) : outcome (list str) :=
  for_each
    (fun raw =>
       expanded <- Py.expandtabs indent_size raw ;;
       let expanded :=
         if trim_trailing_ws then Py.rstrip expanded else expanded in
       Ok [expanded])
    lines.

(** The list [items] that [to_json_outline] builds. *)
Definition outline_items (lines : list str) (indent_size : Z)
  : outcome (list item) :=
  for_each
    (fun raw =>
       if negb (Py.truthy (Py.strip raw)) then Ok []
       else
         lr <- split_indent raw indent_size ;;
         let (level, rest) := lr in
         let txt := unify_markers rest in
         Ok [mkItem level txt])
    lines.

Definition to_json_outline (lines : list str) (indent_size : Z) : outcome str :=
  items <- outline_items lines indent_size ;;
  Ok (Json.dumps items).

Definition convert (text : str) (source target : String.string)
           (indent_size : Z)
           (collapse_blank_lines trim_trailing_ws keep_code_fences
              slack_wrap_codeblock : bool)
           (gdocs_bullet_symbol : BulletSymbol) (convert_smart_quotes : bool)
  : outcome str :=
  let text := normalize_text text convert_smart_quotes in
  let text :=
    if String.eqb source "Slack" then
      Re.sub QUOTE_MARKS_RE (fun _ => lit "> ") text
    else if String.eqb source "Google Docs" then
      Py.replace [8226%N; TAB] (lit "- ") text
    else text in
  let (text, blocks) :=
    if keep_code_fences then extract_code_fences text else (text, []) in
  let lines := Py.split NL text in
  result <-
    (if String.eqb target "Markdown / Obsidian" then
       out_lines <- lines_to_markdown lines indent_size trim_trailing_ws ;;
       Ok (Py.join [NL] out_lines)
     else if String.eqb target "Slack-friendly" then
       out_lines <- lines_to_markdown lines indent_size trim_trailing_ws ;;
       let result := Py.join [NL] out_lines in
       Ok (if slack_wrap_codeblock
           then lit "```" ++ NL :: result ++ NL :: lit "```"
           else result)
     else if String.eqb target "Google Docs-friendly" then
       out_lines <- lines_to_gdocs lines indent_size gdocs_bullet_symbol
                      trim_trailing_ws ;;
       Ok (Py.join [NL] out_lines)
     else if String.eqb target "Plain text" then
       out_lines <- lines_to_plain lines indent_size trim_trailing_ws ;;
       Ok (Py.join [NL] out_lines)
     else if String.eqb target "JSON outline (beta)" then
       to_json_outline lines indent_size
     else Ok (Py.join [NL] lines)) ;;
  let result :=
    if collapse_blank_lines
    then Re.sub BLANK_RUN_RE (fun _ => [NL; NL]) result
    else result in
  let result :=
    if keep_code_fences then restore_code_fences result blocks else result in
  Ok result.

End Program.

(** A table for [\d]: the decimal digits (category Nd) of Unicode 15.0, each
    block of ten given by its zero. *)
Definition decimal_zeros : list char :=
  [0x30; 0x660; 0x6f0; 0x7c0; 0x966; 0x9e6; 0xa66; 0xae6; 0xb66; 0xbe6;
   0xc66; 0xce6; 0xd66; 0xde6; 0xe50; 0xed0; 0xf20; 0x1040; 0x1090; 0x17e0;
   0x1810; 0x1946; 0x19d0; 0x1a80; 0x1a90; 0x1b50; 0x1bb0; 0x1c40; 0x1c50;
   0xa620; 0xa8d0; 0xa900; 0xa9d0; 0xa9f0; 0xaa50; 0xabf0; 0xff10; 0x104a0;
   0x10d30; 0x11066; 0x110f0; 0x11136; 0x111d0; 0x112f0; 0x11450; 0x114d0;
   0x11650; 0x116c0; 0x11730; 0x118e0; 0x11950; 0x11c50; 0x11d50; 0x11da0;
   0x11f50; 0x16a60; 0x16ac0; 0x16b50; 0x1d7ce; 0x1d7d8; 0x1d7e2; 0x1d7ec;
   0x1d7f6; 0x1e140; 0x1e2f0; 0x1e4f0; 0x1e950; 0x1fbf0]%N.

Definition unicode_isdecimal (c : char) : bool :=
  existsb (fun z => in_range z (z + 9)%N c) decimal_zeros.

(** What the properties below need of the table for [\d]: on ASCII it holds
    the digits [0-9] only, and it holds no whitespace. *)
Definition decimal_table (isdecimal : char -> bool) : Prop :=
  (forall c, (c < 128)%N -> isdecimal c = in_range 48%N 57%N c)
  /\ (forall c, Py.isspace c = true -> isdecimal c = false).

(** * Properties *)

(** ** Characters *)

Lemma eqc_eq (a b : char) : eqc a b = true <-> a = b.
Proof. apply N.eqb_eq. Qed.

Lemma eqc_refl (a : char) : eqc a a = true.
Proof. apply N.eqb_refl. Qed.

Lemma eqc_neq (a b : char) : eqc a b = false <-> a <> b.
Proof. apply N.eqb_neq. Qed.

Lemma in_range_spec (lo hi c : char) :
  in_range lo hi c = true <-> (lo <= c <= hi)%N.
Proof.
  unfold in_range. rewrite andb_true_iff, !N.leb_le. tauto.
Qed.

Lemma any_true (c : char) : any c = true.
Proof. unfold any. apply orb_negb_r. Qed.

Lemma str_eqb_eq (a b : str) : str_eqb a b = true <-> a = b.
Proof.
  revert b. induction a as [|x a IH]; intros [|y b]; simpl;
    try (split; [discriminate | discriminate]); [tauto|].
  rewrite andb_true_iff, eqc_eq, IH. split.
  - intros [-> ->]. reflexivity.
  - intros H. injection H as -> ->. auto.
Qed.

(** ** Lists of matches *)

Lemma hd_error_app {A} (l1 l2 : list A) :
  hd_error (l1 ++ l2) =
  match hd_error l1 with Some x => Some x | None => hd_error l2 end.
Proof. destruct l1; reflexivity. Qed.

Lemma hd_error_map {A B} (f : A -> B) (l : list A) :
  hd_error (map f l) = option_map f (hd_error l).
Proof. destruct l; reflexivity. Qed.

Lemma flat_map_single {A B} (f : A -> list B) (x : A) :
  flat_map f [x] = f x.
Proof. simpl. apply app_nil_r. Qed.

Lemma flat_map_map {A B C} (f : B -> list C) (g : A -> B) (l : list A) :
  flat_map f (map g l) = flat_map (fun x => f (g x)) l.
Proof.
  induction l as [|x l IH]; simpl; [reflexivity|]. now rewrite IH.
Qed.

Module ReFacts.
Import Re.

Lemma last_of_cons prev c s : last_of prev (c :: s) = last_of (Some c) s.
Proof. reflexivity. Qed.

Lemma last_of_nonempty prev c s : exists x, last_of prev (c :: s) = Some x.
Proof.
  rewrite last_of_cons. revert c.
  induction s as [|y s IH]; intros c; simpl; eauto.
Qed.

(** The first match of a greedy run is the longest one. *)
Lemma star_first p s :
  exists tl,
    star p s = mkMatch (Py.take_while p s) [] (Py.drop_while p s) :: tl.
Proof.
  induction s as [|c t [tl IH]]; simpl; [eauto|].
  destruct (p c); [|eauto].
  rewrite IH. simpl. eauto.
Qed.

(** A greedy run followed by a pattern that cannot start with a character
    of the run: only the longest run has a continuation. *)
Lemma star_then (p : char -> bool) (K : rx) :
  (forall c prev t, p c = true -> K prev (c :: t) = []) ->
  forall s (F : Match -> Match -> Match) prev,
    flat_map (fun m1 => map (F m1) (K (last_of prev (group0 m1)) (after m1)))
             (star p s)
    = map (F (mkMatch (Py.take_while p s) [] (Py.drop_while p s)))
          (K (last_of prev (Py.take_while p s)) (Py.drop_while p s)).
Proof.
  intros HK. induction s as [|c t IH]; intros F prev; simpl.
  - apply app_nil_r.
  - destruct (p c) eqn:Hc; simpl.
    + rewrite flat_map_app, flat_map_map. simpl.
      rewrite (HK c prev t Hc). simpl. rewrite !app_nil_r.
      apply (IH (fun m1 => F (extend c m1)) (Some c)).
    + apply app_nil_r.
Qed.

Lemma plus_unfold p prev s :
  plus p prev s =
  match s with
  | c :: t => if p c then map (extend c) (star p t) else []
  | [] => []
  end.
Proof.
  unfold plus, cat, chr, many. destruct s as [|c t]; [reflexivity|].
  destruct (p c); [|reflexivity]. simpl. apply app_nil_r.
Qed.

Lemma cat_chr p (r : rx) prev s :
  cat (chr p) r prev s =
  match s with
  | c :: t =>
      if p c then
        map (fun m => mkMatch (c :: group0 m) (groups m) (after m))
            (r (Some c) t)
      else []
  | [] => []
  end.
Proof.
  unfold cat, chr. destruct s as [|c t]; [reflexivity|].
  destruct (p c); [|reflexivity]. simpl. apply app_nil_r.
Qed.

Lemma cat_bol_start (r : rx) s :
  cat bol r None s =
  map (fun m => mkMatch (group0 m) (groups m) (after m)) (r None s).
Proof. unfold cat, bol. simpl. apply app_nil_r. Qed.

Lemma cat_bol_inside (r : rx) c s : cat bol r (Some c) s = [].
Proof. reflexivity. Qed.

(** [c+] followed by a pattern that cannot start with a character of the
    run. *)
Lemma plus_then (p : char -> bool) (K : rx) :
  (forall c prev t, p c = true -> K prev (c :: t) = []) ->
  forall s prev,
    cat (plus p) K prev s =
    match Py.take_while p s with
    | [] => []
    | run =>
        map (fun m => mkMatch (run ++ group0 m) (groups m) (after m))
            (K (last_of prev run) (Py.drop_while p s))
    end.
Proof.
  intros HK s prev. unfold cat at 1. rewrite plus_unfold.
  destruct s as [|c t]; [reflexivity|]. simpl.
  destruct (p c) eqn:Hc; [|reflexivity].
  rewrite flat_map_map.
  exact (star_then p K HK t
           (fun m1 m2 => mkMatch (group0 (extend c m1) ++ group0 m2)
                                 (groups (extend c m1) ++ groups m2) (after m2))
           (Some c)).
Qed.

(** Patterns that match no empty string. *)
Lemma nonempty_chr p : nonempty (chr p).
Proof.
  intros prev [|c t] m; simpl; [tauto|].
  destruct (p c); simpl; [|tauto]. intros [<-|[]]. discriminate.
Qed.

Lemma nonempty_cat_l r1 r2 : nonempty r1 -> nonempty (cat r1 r2).
Proof.
  intros H prev s m Hm. unfold cat in Hm.
  apply in_flat_map in Hm as (m1 & H1 & Hm).
  apply in_map_iff in Hm as (m2 & <- & _). simpl.
  specialize (H _ _ _ H1). destruct (group0 m1); [congruence|discriminate].
Qed.

Lemma nonempty_cat_r r1 r2 : nonempty r2 -> nonempty (cat r1 r2).
Proof.
  intros H prev s m Hm. unfold cat in Hm.
  apply in_flat_map in Hm as (m1 & H1 & Hm).
  apply in_map_iff in Hm as (m2 & <- & H2). simpl.
  specialize (H _ _ _ H2). intros E. apply app_eq_nil in E. tauto.
Qed.

(** Patterns whose matches split the text they are tried on. *)
Definition sound (r : rx) : Prop :=
  forall prev s m, In m (r prev s) -> s = group0 m ++ after m.

Lemma sound_eps : sound eps.
Proof. intros prev s m [<-|[]]. reflexivity. Qed.

Lemma sound_chr p : sound (chr p).
Proof.
  intros prev [|c t] m; simpl; [tauto|].
  destruct (p c); simpl; [|tauto]. intros [<-|[]]. reflexivity.
Qed.

Lemma sound_cat r1 r2 : sound r1 -> sound r2 -> sound (cat r1 r2).
Proof.
  intros H1 H2 prev s m Hm. unfold cat in Hm.
  apply in_flat_map in Hm as (m1 & Hm1 & Hm).
  apply in_map_iff in Hm as (m2 & <- & Hm2). simpl.
  rewrite (H1 _ _ _ Hm1) at 1. rewrite (H2 _ _ _ Hm2) at 1.
  now rewrite app_assoc.
Qed.

Lemma sound_alt r1 r2 : sound r1 -> sound r2 -> sound (alt r1 r2).
Proof.
  intros H1 H2 prev s m Hm. unfold alt in Hm.
  apply in_app_or in Hm as [Hm|Hm]; eauto.
Qed.

Lemma sound_capture r : sound r -> sound (capture r).
Proof.
  intros H prev s m Hm. unfold capture in Hm.
  apply in_map_iff in Hm as (m1 & <- & Hm). simpl. eauto.
Qed.

Lemma sound_star p s m : In m (star p s) -> s = group0 m ++ after m.
Proof.
  revert m. induction s as [|c t IH]; intros m; simpl.
  - intros [<-|[]]. reflexivity.
  - destruct (p c).
    + intros Hm. apply in_app_or in Hm as [Hm|[<-|[]]]; [|reflexivity].
      apply in_map_iff in Hm as (m1 & <- & Hm). simpl. f_equal. auto.
    + intros [<-|[]]. reflexivity.
Qed.

Lemma sound_star_lazy p s m : In m (star_lazy p s) -> s = group0 m ++ after m.
Proof.
  revert m. induction s as [|c t IH]; intros m; simpl.
  - intros [<-|[]]. reflexivity.
  - intros [<-|Hm]; [reflexivity|]. destruct (p c); [|destruct Hm].
    apply in_map_iff in Hm as (m1 & <- & Hm). simpl. f_equal. auto.
Qed.

Lemma sound_many p : sound (many p).
Proof. intros prev s m. apply sound_star. Qed.

Lemma sound_many_lazy p : sound (many_lazy p).
Proof. intros prev s m. apply sound_star_lazy. Qed.

Lemma sound_plus p : sound (plus p).
Proof. apply sound_cat; [apply sound_chr | apply sound_many]. Qed.

Lemma sound_at_least n p : sound (at_least n p).
Proof.
  induction n; simpl; [apply sound_many|].
  apply sound_cat; [apply sound_chr | assumption].
Qed.

Lemma sound_text w : sound (text w).
Proof.
  induction w; simpl; [apply sound_eps|].
  apply sound_cat; [apply sound_chr | assumption].
Qed.

Lemma sound_bol : sound bol.
Proof. intros [c|] s m; simpl; [tauto|]. intros [<-|[]]. reflexivity. Qed.

Lemma sound_bol_multiline : sound bol_multiline.
Proof.
  intros [c|] s m; simpl.
  - destruct (eqc c NL); simpl; [|tauto]. intros [<-|[]]. reflexivity.
  - intros [<-|[]]. reflexivity.
Qed.

Lemma sound_eol : sound eol.
Proof.
  intros prev [|c [|d t]] m; simpl; try tauto.
  - intros [<-|[]]. reflexivity.
  - destruct (eqc c NL); simpl; [|tauto]. intros [<-|[]]. reflexivity.
Qed.

Lemma nonempty_plus p : nonempty (plus p).
Proof. apply nonempty_cat_l, nonempty_chr. Qed.

Lemma nonempty_text c w : nonempty (text (c :: w)).
Proof. apply nonempty_cat_l, nonempty_chr. Qed.

Lemma nonempty_at_least n p : nonempty (at_least (S n) p).
Proof. apply nonempty_cat_l, nonempty_chr. Qed.

Lemma match_shorter r prev s m :
  sound r -> nonempty r -> In m (r prev s) -> length (after m) < length s.
Proof.
  intros Hs Hn Hm. specialize (Hn _ _ _ Hm).
  pose proof (f_equal (@length char) (Hs _ _ _ Hm)) as E.
  rewrite length_app in E.
  destruct (group0 m); [congruence|simpl in E; lia].
Qed.

(** With fuel above the length of the text, the scan does not depend on
    the fuel. *)
Lemma scan_fuel r : sound r -> nonempty r ->
  forall n m prev s,
    length s < n -> length s < m -> scan n r prev s = scan m r prev s.
Proof.
  intros Hs Hne n. induction n as [|n IH]; intros m prev s Hn Hm; [lia|].
  destruct m as [|m]; [lia|]. simpl.
  assert (Hcopy :
    match s with [] => [] | c :: t => Copied c :: scan n r (Some c) t end =
    match s with [] => [] | c :: t => Copied c :: scan m r (Some c) t end).
  { destruct s as [|c t]; [reflexivity|]. simpl in Hn, Hm.
    f_equal. apply IH; lia. }
  destruct (r prev s) as [|x xs] eqn:E; [exact Hcopy|].
  destruct (group0 x) eqn:Eg; [now rewrite Hcopy|].
  f_equal. assert (Hx : In x (r prev s)) by (rewrite E; now left).
  apply (match_shorter _ _ _ _ Hs Hne) in Hx. apply IH; lia.
Qed.

Lemma scan_S n r prev s :
  scan (S n) r prev s =
  match r prev s with
  | m :: _ =>
      match group0 m with
      | [] =>
          Matched m ::
            match s with
            | [] => []
            | c :: t => Copied c :: scan n r (Some c) t
            end
      | _ :: _ => Matched m :: scan n r (last_of prev (group0 m)) (after m)
      end
  | [] =>
      match s with
      | [] => []
      | c :: t => Copied c :: scan n r (Some c) t
      end
  end.
Proof. reflexivity. Qed.

(** The scan, one step at a time. *)
Lemma pieces_step r : sound r -> nonempty r ->
  forall prev s,
    scan (S (length s)) r prev s =
    match r prev s with
    | m :: _ =>
        Matched m ::
          scan (S (length (after m))) r (last_of prev (group0 m)) (after m)
    | [] =>
        match s with
        | [] => []
        | c :: t => Copied c :: scan (S (length t)) r (Some c) t
        end
    end.
Proof.
  intros Hs Hne prev s. rewrite scan_S.
  destruct (r prev s) as [|x xs] eqn:E; [destruct s; reflexivity|].
  assert (Hx : In x (r prev s)) by (rewrite E; now left).
  pose proof (match_shorter _ _ _ _ Hs Hne Hx) as Hlt.
  pose proof (Hne _ _ _ Hx) as Hg. destruct (group0 x) eqn:Eg; [congruence|].
  f_equal. apply scan_fuel; auto; lia.
Qed.

(** A pattern that starts with [^] matches at the start only. *)
Lemma scan_anchored r :
  (forall c s, r (Some c) s = []) ->
  forall n c s, scan n r (Some c) s = map Copied s.
Proof.
  intros Hr n. induction n as [|n IH]; intros c s; [reflexivity|].
  simpl. rewrite Hr. destruct s as [|d t]; [reflexivity|].
  simpl. now rewrite IH.
Qed.

Lemma flat_map_copied (repl : Match -> str) s :
  flat_map (fun p => match p with Copied c => [c] | Matched m => repl m end)
           (map Copied s) = s.
Proof. induction s as [|c s IH]; simpl; [reflexivity|]. now rewrite IH. Qed.

Lemma sub_anchored r repl s :
  nonempty r -> (forall c s, r (Some c) s = []) ->
  sub r repl s =
  match re_match r s with
  | Some m => repl m ++ after m
  | None => s
  end.
Proof.
  intros Hne Hr. unfold sub, pieces, re_match. rewrite scan_S.
  destruct (r None s) as [|x xs] eqn:E; cbn [hd_error].
  - destruct s as [|c t]; [reflexivity|].
    rewrite scan_anchored by assumption.
    apply (flat_map_copied repl (c :: t)).
  - assert (Hx : In x (r None s)) by (rewrite E; now left).
    specialize (Hne _ _ _ Hx). destruct (group0 x) as [|c g] eqn:Eg;
      [congruence|].
    destruct (last_of_nonempty None c g) as [d ->].
    rewrite scan_anchored by assumption.
    cbn [flat_map]. now rewrite flat_map_copied.
Qed.

End ReFacts.

(** ** The marker patterns *)

Module Markers.
Import Re ReFacts.

(** What [BULLET_RE.match] finds, read off the text: a bullet character and
    the whitespace behind it. *)
Definition bullet_marker (line : str) : option str :=
  match line with
  | c :: w :: t =>
      if (mem c BULLET_CHARS && Py.isspace w)%bool
      then Some (Py.drop_while Py.isspace t)
      else None
  | _ => None
  end.

(** The closer and the whitespace behind a token. *)
Definition marker_tail (s : str) : option str :=
  match s with
  | c :: w :: t =>
      if (closer c && Py.isspace w)%bool
      then Some (Py.drop_while Py.isspace t)
      else None
  | _ => None
  end.

(** A non-empty run of a class, followed by closer and whitespace. *)
Definition run_marker (p : char -> bool) (s : str) : option (str * str) :=
  match Py.take_while p s with
  | [] => None
  | run =>
      match marker_tail (Py.drop_while p s) with
      | Some rest => Some (run, rest)
      | None => None
      end
  end.

Definition letter_marker (s : str) : option (str * str) :=
  match s with
  | c :: t =>
      if ascii_letter c then
        match marker_tail t with
        | Some rest => Some ([c], rest)
        | None => None
        end
      else None
  | [] => None
  end.

Definition or_else {A} (a b : option A) : option A :=
  match a with Some _ => a | None => b end.

(** What [NUM_MARKER_RE.match] finds, read off the text: the token
    ([group(1)]) and the text behind the match. *)
Definition num_marker (isdecimal : char -> bool) (s : str)
  : option (str * str) :=
  or_else (run_marker isdecimal s)
          (or_else (letter_marker s) (run_marker roman_letter s)).

Lemma tail_first prev s :
  hd_error (cat (chr closer) (plus Py.isspace) prev s) =
  match s with
  | c :: w :: t =>
      if (closer c && Py.isspace w)%bool
      then Some (mkMatch (c :: w :: Py.take_while Py.isspace t) []
                         (Py.drop_while Py.isspace t))
      else None
  | _ => None
  end.
Proof.
  rewrite cat_chr. destruct s as [|c [|w t]]; [reflexivity| |].
  - destruct (closer c); reflexivity.
  - destruct (closer c); [|reflexivity]. simpl andb.
    rewrite hd_error_map, plus_unfold.
    destruct (Py.isspace w); [|reflexivity].
    destruct (star_first Py.isspace t) as [tl ->]. reflexivity.
Qed.

Lemma tail_first_none prev s :
  marker_tail s = None -> cat (chr closer) (plus Py.isspace) prev s = [].
Proof.
  intros H. pose proof (tail_first prev s) as E.
  unfold marker_tail in H.
  destruct (cat (chr closer) (plus Py.isspace) prev s); [reflexivity|].
  destruct s as [|c [|w t]]; try discriminate.
  destruct (closer c && Py.isspace w)%bool; discriminate.
Qed.

Lemma tail_starts prev c t :
  closer c = false -> cat (chr closer) (plus Py.isspace) prev (c :: t) = [].
Proof. intros H. rewrite cat_chr, H. reflexivity. Qed.

Lemma bullet_match line :
  re_match BULLET_RE line =
  match line with
  | c :: w :: t =>
      if (mem c BULLET_CHARS && Py.isspace w)%bool
      then Some (mkMatch (c :: w :: Py.take_while Py.isspace t) []
                         (Py.drop_while Py.isspace t))
      else None
  | _ => None
  end.
Proof.
  unfold re_match, BULLET_RE. rewrite cat_bol_start, hd_error_map, cat_chr.
  destruct line as [|c [|w t]]; [reflexivity| |].
  - destruct (mem c BULLET_CHARS); reflexivity.
  - destruct (mem c BULLET_CHARS); [|reflexivity]. simpl andb.
    rewrite hd_error_map, plus_unfold.
    destruct (Py.isspace w); [|reflexivity].
    destruct (star_first Py.isspace t) as [tl ->]. reflexivity.
Qed.

Lemma nonempty_bullet : nonempty BULLET_RE.
Proof. apply nonempty_cat_r, nonempty_cat_l, nonempty_chr. Qed.

Lemma nonempty_hyphen : nonempty HYPHEN_RE.
Proof. apply nonempty_cat_r, nonempty_cat_l, nonempty_chr. Qed.

Lemma nonempty_num d : nonempty (NUM_MARKER_RE d).
Proof. apply nonempty_cat_r, nonempty_cat_r, nonempty_cat_l, nonempty_chr. Qed.

(** The first statement of [unify_markers]. *)
Lemma bullet_step line :
  match re_match BULLET_RE line with
  | Some _ => sub BULLET_RE (fun _ => lit "- ") line
  | None => line
  end =
  match bullet_marker line with
  | Some rest => lit "- " ++ rest
  | None => line
  end.
Proof.
  rewrite sub_anchored by (apply nonempty_bullet || reflexivity).
  rewrite bullet_match. unfold bullet_marker.
  destruct line as [|c [|w t]]; try reflexivity.
  destruct (mem c BULLET_CHARS && Py.isspace w)%bool; reflexivity.
Qed.

Lemma plus_then_gen (p : char -> bool) (K : rx) :
  (forall c prev t, p c = true -> K prev (c :: t) = []) ->
  forall (F : Match -> Match -> Match) prev0 s,
    flat_map (fun m1 => map (F m1) (K (last_of None (group0 m1)) (after m1)))
             (plus p prev0 s)
    = match Py.take_while p s with
      | [] => []
      | run =>
          map (F (mkMatch run [] (Py.drop_while p s)))
              (K (last_of None run) (Py.drop_while p s))
      end.
Proof.
  intros HK F prev0 s. rewrite plus_unfold.
  destruct s as [|c t]; [reflexivity|]. simpl.
  destruct (p c) eqn:Hc; [|reflexivity].
  rewrite flat_map_map.
  exact (star_then p K HK t (fun m1 => F (extend c m1)) (Some c)).
Qed.

Lemma closer_cases c : closer c = true -> c = 41%N \/ c = 46%N.
Proof.
  unfold closer. rewrite orb_true_iff, !eqc_eq. tauto.
Qed.

Lemma decimal_not_closer d c :
  decimal_table d -> d c = true -> closer c = false.
Proof.
  intros [Hascii _] Hd. destruct (closer c) eqn:Hc; [|reflexivity].
  apply closer_cases in Hc as [-> | ->];
    rewrite Hascii in Hd by reflexivity; discriminate.
Qed.

Lemma roman_not_closer c : roman_letter c = true -> closer c = false.
Proof.
  intros Hr. destruct (closer c) eqn:Hc; [|reflexivity].
  apply closer_cases in Hc as [-> | ->]; discriminate.
Qed.

(** Closer and whitespace, the part of [NUM_MARKER_RE] behind the group. *)
Definition tail : rx := cat (chr closer) (plus Py.isspace).

(** A capturing group followed by the tail. *)
Definition with_token (x m2 : Match) : Match :=
  mkMatch (group0 x ++ group0 m2) ((group0 x :: groups x) ++ groups m2)
          (after m2).

Lemma run_first p s :
  (forall c, p c = true -> closer c = false) ->
  match
    hd_error
      (flat_map (fun x => map (with_token x)
                            (tail (last_of None (group0 x)) (after x)))
                (plus p None s)),
    run_marker p s
  with
  | Some m, Some (tok, rest) => group m 1 = tok /\ after m = rest
  | None, None => True
  | _, _ => False
  end.
Proof.
  intros Hp.
  rewrite (plus_then_gen p tail
             (fun c prev t H => tail_starts prev c t (Hp c H)) with_token).
  unfold run_marker.
  destruct (Py.take_while p s) as [|c run]; [exact I|].
  rewrite hd_error_map. unfold tail. rewrite tail_first.
  unfold marker_tail.
  destruct (Py.drop_while p s) as [|x [|w t]]; try exact I.
  destruct (closer x && Py.isspace w)%bool; simpl; auto.
Qed.


Lemma letter_first s :
  match
    hd_error
      (flat_map (fun x => map (with_token x)
                            (tail (last_of None (group0 x)) (after x)))
                (chr ascii_letter None s)),
    letter_marker s
  with
  | Some m, Some (tok, rest) => group m 1 = tok /\ after m = rest
  | None, None => True
  | _, _ => False
  end.
Proof.
  unfold chr, letter_marker. destruct s as [|c t]; [exact I|].
  destruct (ascii_letter c); [|exact I].
  cbn [flat_map group0 after]. rewrite app_nil_r, hd_error_map.
  unfold tail. rewrite tail_first. unfold marker_tail.
  destruct t as [|x [|w t]]; try exact I.
  destruct (closer x && Py.isspace w)%bool; simpl; auto.
Qed.

Lemma num_first d s : decimal_table d ->
match re_match (NUM_MARKER_RE d) s, num_marker d s with
| Some m, Some (tok, rest) => group m 1 = tok /\ after m = rest
| None, None => True
| _, _ => False
end.
Proof.
intros Hd.
unfold re_match, NUM_MARKER_RE.
rewrite cat_bol_start, hd_error_map.
unfold cat at 1. unfold capture, alt. rewrite flat_map_map.
cbn [group0 groups after].
change (fun x : Match =>
          map (fun m2 : Match =>
                 mkMatch (group0 x ++ group0 m2)
                         ((group0 x :: groups x) ++ groups m2) (after m2))
              (cat (chr closer) (plus Py.isspace)
                   (last_of None (group0 x)) (after x)))
  with (fun x => map (with_token x) (tail (last_of None (group0 x)) (after x))).
rewrite !flat_map_app, !hd_error_app.
unfold num_marker.
pose proof (run_first d s (fun c => decimal_not_closer d c Hd)) as HA.
pose proof (run_first roman_letter s roman_not_closer) as HC.
pose proof (letter_first s) as HB.
set (A := hd_error (flat_map _ (plus d None s))) in *.
set (C := hd_error (flat_map _ (plus roman_letter None s))) in *.
set (B := hd_error (flat_map _ (chr ascii_letter None s))) in *.
clearbody A B C.
destruct A as [a|], (run_marker d s) as [[ta ra]|]; try contradiction;
  [exact HA|].
destruct B as [b|], (letter_marker s) as [[tb rb]|]; try contradiction;
  [exact HB|].
destruct C as [c|], (run_marker roman_letter s) as [[tc rc]|];
  try contradiction; [exact HC | exact I].
Qed.

(** The two statements of [unify_markers], read off the text. *)
Definition bullet_rule (line : str) : str :=
  match bullet_marker line with
  | Some rest => lit "- " ++ rest
  | None => line
  end.

Definition number_rule (isdecimal : char -> bool) (line : str) : str :=
  match num_marker isdecimal line with
  | Some (tok, rest) => tok ++ lit ". " ++ rest
  | None => line
  end.

(** The second statement of [unify_markers]. *)
Lemma num_step d line :
  decimal_table d ->
  match re_match (NUM_MARKER_RE d) line with
  | Some _ => sub (NUM_MARKER_RE d) (fun m => group m 1 ++ lit ". ") line
  | None => line
  end = number_rule d line.
Proof.
  intros Hd.
  rewrite sub_anchored by (apply nonempty_num || reflexivity).
  pose proof (num_first d line Hd) as H. unfold number_rule.
  destruct (re_match (NUM_MARKER_RE d) line) as [m|],
           (num_marker d line) as [[tok rest]|]; try contradiction.
  - destruct H as [<- <-]. now rewrite <- app_assoc.
  - reflexivity.
Qed.

Lemma unify_markers_spec d line :
  decimal_table d ->
  unify_markers d line = number_rule d (bullet_rule line).
Proof.
  intros Hd. unfold unify_markers. rewrite bullet_step.
  apply (num_step d (bullet_rule line) Hd).
Qed.

End Markers.

(** ** Runs of a character class *)

Module Runs.

Lemma take_drop p s : Py.take_while p s ++ Py.drop_while p s = s.
Proof.
  induction s as [|c t IH]; simpl; [reflexivity|].
  destruct (p c); simpl; [now rewrite IH | reflexivity].
Qed.

Lemma take_while_all p s : forallb p (Py.take_while p s) = true.
Proof.
  induction s as [|c t IH]; simpl; [reflexivity|].
  destruct (p c) eqn:E; simpl; [now rewrite E | reflexivity].
Qed.

Lemma drop_while_head p s x t : Py.drop_while p s = x :: t -> p x = false.
Proof.
  induction s as [|c s IH]; simpl; [discriminate|].
  destruct (p c) eqn:E; [exact IH|]. intros H. injection H as <- _. exact E.
Qed.

Lemma drop_while_stop p s :
  match s with [] => True | x :: _ => p x = false end ->
  Py.drop_while p s = s.
Proof. destruct s as [|x t]; simpl; [reflexivity|]. now intros ->. Qed.

Lemma drop_while_idem p s :
  Py.drop_while p (Py.drop_while p s) = Py.drop_while p s.
Proof.
  apply drop_while_stop. destruct (Py.drop_while p s) eqn:E; [exact I|].
  exact (drop_while_head p s _ _ E).
Qed.

Lemma run_app p a x t :
  forallb p a = true -> p x = false ->
  Py.take_while p (a ++ x :: t) = a /\ Py.drop_while p (a ++ x :: t) = x :: t.
Proof.
  intros Ha Hx. induction a as [|c a IH]; simpl.
  - now rewrite Hx.
  - simpl in Ha. apply andb_true_iff in Ha as [-> Ha].
    destruct (IH Ha) as [-> ->]. auto.
Qed.

Lemma run_broken p a b x r :
  Py.drop_while p a = x :: r ->
  Py.take_while p (a ++ b) = Py.take_while p a
  /\ Py.drop_while p (a ++ b) = x :: r ++ b.
Proof.
  induction a as [|c a IH]; simpl; [discriminate|].
  destruct (p c).
  - intros H. destruct (IH H) as [-> ->]. auto.
  - intros H. injection H as <- <-. auto.
Qed.

Lemma drop_run p a b :
  forallb p a = true -> Py.drop_while p b = b -> Py.drop_while p (a ++ b) = b.
Proof.
  intros Ha Hb. induction a as [|c a IH]; simpl; [exact Hb|].
  simpl in Ha. apply andb_true_iff in Ha as [-> Ha]. auto.
Qed.

Lemma drop_while_all p a :
  Py.drop_while p a = [] -> forallb p a = true.
Proof.
  induction a as [|c a IH]; simpl; [reflexivity|].
  destruct (p c); [exact IH | discriminate].
Qed.

End Runs.

(** ** The table for [\d] *)

Definition whitespace : list char :=
  [9; 10; 11; 12; 13; 28; 29; 30; 31; 32; 133; 160; 5760; 8192; 8193; 8194;
   8195; 8196; 8197; 8198; 8199; 8200; 8201; 8202; 8232; 8233; 8239; 8287;
   12288]%N.

Lemma isspace_whitespace c : Py.isspace c = true -> In c whitespace.
Proof.
  unfold Py.isspace.
  rewrite !orb_true_iff, !in_range_spec, !eqc_eq. unfold whitespace, In.
  lia.
Qed.

Lemma existsb_none {A} (f : A -> bool) l :
  (forall x, In x l -> f x = false) -> existsb f l = false.
Proof.
  induction l as [|x l IH]; intros H; simpl; [reflexivity|].
  rewrite (H x (or_introl eq_refl)). apply IH.
  intros y Hy. apply H. now right.
Qed.

Lemma existsb_step {A} (f : A -> bool) x l :
  existsb f (x :: l) = (f x || existsb f l)%bool.
Proof. reflexivity. Qed.

Lemma unicode_decimal_table : decimal_table unicode_isdecimal.
Proof.
  split.
  - intros c Hc. unfold unicode_isdecimal.
    change decimal_zeros with (48%N :: tl decimal_zeros).
    rewrite existsb_step, existsb_none; [now rewrite orb_false_r|].
    assert (F : forallb (fun z => N.leb 128 z)
                  (tl decimal_zeros) = true) by reflexivity.
    rewrite forallb_forall in F. intros z Hz.
    apply F in Hz. apply N.leb_le in Hz.
    unfold in_range. apply andb_false_iff. left. apply N.leb_gt. lia.
  - intros c Hc. apply isspace_whitespace in Hc.
    assert (F : forallb (fun c => negb (unicode_isdecimal c)) whitespace
                = true) by reflexivity.
    rewrite forallb_forall in F. apply F in Hc.
    now apply negb_true_iff in Hc.
Qed.

(** ** Tokens of numbered markers *)

Module Tokens.
Import Re ReFacts Markers Runs.

(** A token of [NUM_MARKER_RE]: digits, one letter, or letters of
    [ivxIVX]. *)
Definition is_token (isdecimal : char -> bool) (tok : str) : bool :=
  match tok with
  | [] => false
  | c :: t =>
      (forallb isdecimal tok
       || (ascii_letter c && match t with [] => true | _ :: _ => false end)
       || forallb roman_letter tok)%bool
  end.

Lemma roman_is_letter c : roman_letter c = true -> ascii_letter c = true.
Proof.
  unfold roman_letter, mem. cbn [lit existsb]. 
  change (existsb (eqc c) (lit "ivxIVX")) with
    (eqc c 105 || (eqc c 118 || (eqc c 120 || (eqc c 73 || (eqc c 86
       || (eqc c 88 || false))))))%N%bool.
  rewrite !orb_true_iff, !eqc_eq.
  intros [->|[->|[->|[->|[->|[->|H]]]]]]; try reflexivity; discriminate.
Qed.

Lemma letter_ascii c : ascii_letter c = true -> (c < 128)%N.
Proof.
  unfold ascii_letter. rewrite orb_true_iff, !in_range_spec. lia.
Qed.

Lemma letter_not_decimal d c :
  decimal_table d -> ascii_letter c = true -> d c = false.
Proof.
  intros [Hascii _] Hc. rewrite (Hascii c (letter_ascii c Hc)).
  unfold ascii_letter in Hc. rewrite orb_true_iff, !in_range_spec in Hc.
  unfold in_range. apply andb_false_iff.
  right. apply N.leb_gt. lia.
Qed.

Lemma letter_not_closer c : ascii_letter c = true -> closer c = false.
Proof.
  intros Hc. destruct (closer c) eqn:E; [|reflexivity].
  apply closer_cases in E as [-> | ->]; discriminate.
Qed.

Lemma letter_not_space c : ascii_letter c = true -> Py.isspace c = false.
Proof.
  intros Hc. destruct (Py.isspace c) eqn:E; [|reflexivity].
  apply isspace_whitespace in E. unfold whitespace in E. cbn [In] in E.
  unfold ascii_letter in Hc. rewrite orb_true_iff, !in_range_spec in Hc.
  lia.
Qed.

Lemma closer_not_space c : closer c = true -> Py.isspace c = false.
Proof. intros H. apply closer_cases in H as [-> | ->]; reflexivity. Qed.

Lemma closer_not_decimal d c :
  decimal_table d -> closer c = true -> d c = false.
Proof.
  intros [Hascii _] H.
  apply closer_cases in H as [-> | ->]; now rewrite Hascii.
Qed.

Lemma closer_not_roman c : closer c = true -> roman_letter c = false.
Proof. intros H. apply closer_cases in H as [-> | ->]; reflexivity. Qed.

Lemma decimal_not_space d c :
  decimal_table d -> d c = true -> Py.isspace c = false.
Proof.
  intros [_ Hsp] Hc. destruct (Py.isspace c) eqn:E; [|reflexivity].
  rewrite (Hsp c E) in Hc. discriminate.
Qed.

Lemma marker_tail_some c w t :
  closer c = true -> Py.isspace w = true ->
  marker_tail (c :: w :: t) = Some (Py.drop_while Py.isspace t).
Proof. intros Hc Hw. unfold marker_tail. now rewrite Hc, Hw. Qed.

Lemma marker_tail_starts c t : closer c = false -> marker_tail (c :: t) = None.
Proof. intros Hc. unfold marker_tail. rewrite Hc. now destruct t. Qed.

Lemma marker_tail_inv s rest :
  marker_tail s = Some rest ->
  exists c w t, s = c :: w :: t /\ closer c = true /\ Py.isspace w = true
                /\ rest = Py.drop_while Py.isspace t.
Proof.
  unfold marker_tail. destruct s as [|c [|w t]]; try discriminate.
  destruct (closer c) eqn:Hc, (Py.isspace w) eqn:Hw; try discriminate.
  intros H. injection H as <-. now exists c, w, t.
Qed.

Lemma run_marker_some p tok c w t :
  tok <> [] -> forallb p tok = true -> p c = false ->
  closer c = true -> Py.isspace w = true ->
  run_marker p (tok ++ c :: w :: t) = Some (tok, Py.drop_while Py.isspace t).
Proof.
  intros Hne Hall Hpc Hc Hw. unfold run_marker.
  destruct (run_app p tok c (w :: t) Hall Hpc) as [-> ->].
  rewrite (marker_tail_some c w t Hc Hw).
  destruct tok; [contradiction | reflexivity].
Qed.

Lemma run_marker_starts p c t : p c = false -> run_marker p (c :: t) = None.
Proof. intros H. unfold run_marker. simpl. now rewrite H. Qed.

Lemma run_marker_inv p s tok rest :
  run_marker p s = Some (tok, rest) ->
  tok <> [] /\ forallb p tok = true
  /\ exists c w t, s = tok ++ c :: w :: t /\ closer c = true
                   /\ Py.isspace w = true
                   /\ rest = Py.drop_while Py.isspace t.
Proof.
  unfold run_marker. pose proof (take_drop p s) as Hs.
  pose proof (take_while_all p s) as Hall.
  destruct (Py.take_while p s) as [|a run]; [discriminate|].
  destruct (marker_tail (Py.drop_while p s)) as [r|] eqn:Ht; [|discriminate].
  intros H. injection H as <- <-.
  apply marker_tail_inv in Ht as (c & w & t & E & Hc & Hw & Hr).
  repeat split; [discriminate | exact Hall |].
  exists c, w, t. rewrite <- E. auto.
Qed.

(** The numbered-marker pattern finds a token that is followed by a closer
    and whitespace, whatever comes behind. *)
Lemma num_marker_token d tok c w t :
  decimal_table d -> is_token d tok = true ->
  closer c = true -> Py.isspace w = true ->
  num_marker d (tok ++ c :: w :: t) = Some (tok, Py.drop_while Py.isspace t).
Proof.
  intros Hd Htok Hc Hw. unfold num_marker.
  destruct tok as [|a tok]; [discriminate|].
  unfold is_token in Htok.
  destruct (forallb d (a :: tok)) eqn:Hdig.
  { rewrite run_marker_some; auto using closer_not_decimal. discriminate. }
  assert (Ha : ascii_letter a = true).
  { simpl in Htok. apply orb_true_iff in Htok as [H | H].
    - now apply andb_true_iff in H.
    - simpl in H. apply andb_true_iff in H as [H _].
      now apply roman_is_letter. }
  cbn [app]. rewrite run_marker_starts by now apply letter_not_decimal.
  cbn [or_else]. unfold letter_marker. rewrite Ha.
  destruct tok as [|b tok].
  { cbn [app]. now rewrite marker_tail_some. }
  cbn [orb] in Htok. rewrite andb_false_r in Htok. cbn [orb] in Htok.
  assert (Hb : roman_letter b = true).
  { simpl in Htok. apply andb_true_iff in Htok as [_ H].
    now apply andb_true_iff in H. }
  cbn [app]. rewrite marker_tail_starts
    by now apply letter_not_closer, roman_is_letter.
  cbn [or_else].
  apply (run_marker_some roman_letter (a :: b :: tok) c w t);
    auto using closer_not_roman. discriminate.
Qed.

Lemma num_marker_inv d s tok rest :
  num_marker d s = Some (tok, rest) ->
  is_token d tok = true
  /\ exists c w t, s = tok ++ c :: w :: t /\ closer c = true
                   /\ Py.isspace w = true
                   /\ rest = Py.drop_while Py.isspace t.
Proof.
  unfold num_marker.
  destruct (run_marker d s) as [[t1 r1]|] eqn:H1; cbn [or_else].
  { intros H. injection H as -> ->.
    apply run_marker_inv in H1 as (Hne & Hall & Hs). split; [|exact Hs].
    destruct tok; [contradiction|]. unfold is_token. now rewrite Hall. }
  destruct (letter_marker s) as [[t2 r2]|] eqn:H2; cbn [or_else].
  { intros H. injection H as -> ->. unfold letter_marker in H2.
    destruct s as [|a s]; [discriminate|].
    destruct (ascii_letter a) eqn:Ha; [|discriminate].
    destruct (marker_tail s) as [r|] eqn:Ht; [|discriminate].
    injection H2 as <- <-. split.
    - unfold is_token. rewrite Ha. cbn [andb]. now rewrite orb_true_r.
    - apply marker_tail_inv in Ht as (c & w & t & -> & Hc & Hw & Hr).
      now exists c, w, t. }
  intros H3. apply run_marker_inv in H3 as (Hne & Hall & Hs).
  split; [|exact Hs].
  destruct tok; [contradiction|]. unfold is_token. rewrite Hall.
  apply orb_true_r.
Qed.

Lemma token_no_space d tok :
  decimal_table d -> is_token d tok = true ->
  forallb (fun c => negb (Py.isspace c)) tok = true.
Proof.
  intros Hd Htok. destruct tok as [|a tok]; [reflexivity|].
  unfold is_token in Htok. rewrite !orb_true_iff in Htok.
  apply forallb_forall. intros x Hx. apply negb_true_iff.
  destruct Htok as [[H | H] | H].
  - rewrite forallb_forall in H. eauto using decimal_not_space.
  - apply andb_true_iff in H as [Ha Ht]. destruct tok; [|discriminate].
    destruct Hx as [<- | []]. now apply letter_not_space.
  - rewrite forallb_forall in H. auto using letter_not_space, roman_is_letter.
Qed.

Lemma bullet_marker_second x y t :
  Py.isspace y = false -> bullet_marker (x :: y :: t) = None.
Proof. intros H. unfold bullet_marker. now rewrite H, andb_false_r. Qed.

Lemma bullet_marker_token d tok c t :
  decimal_table d -> is_token d tok = true -> closer c = true ->
  bullet_marker (tok ++ c :: t) = None.
Proof.
  intros Hd Htok Hc. pose proof (token_no_space d tok Hd Htok) as Hns.
  destruct tok as [|a [|b tok]]; [discriminate | |].
  - apply bullet_marker_second. now apply closer_not_space.
  - apply bullet_marker_second. simpl in Hns.
    apply andb_true_iff in Hns as [_ Hns].
    apply andb_true_iff in Hns as [Hb _]. now apply negb_true_iff.
Qed.

Lemma num_marker_hyphen d t :
  decimal_table d -> num_marker d (45%N :: t) = None.
Proof.
  intros [Hascii _]. unfold num_marker.
  rewrite run_marker_starts by now rewrite Hascii.
  rewrite (run_marker_starts roman_letter) by reflexivity.
  reflexivity.
Qed.

Lemma space_not_closer c : Py.isspace c = true -> closer c = false.
Proof.
  intros H. destruct (closer c) eqn:E; [|reflexivity].
  rewrite (closer_not_space c E) in H. discriminate.
Qed.

Lemma space_not_roman c : Py.isspace c = true -> roman_letter c = false.
Proof.
  intros H. destruct (roman_letter c) eqn:E; [|reflexivity].
  rewrite (letter_not_space c (roman_is_letter c E)) in H. discriminate.
Qed.

Lemma run_marker_second p c w t :
  p w = false -> closer w = false -> run_marker p (c :: w :: t) = None.
Proof.
  intros Hp Hw. unfold run_marker. cbn [Py.take_while Py.drop_while].
  destruct (p c); [|reflexivity]. rewrite Hp.
  now rewrite (marker_tail_starts w t Hw).
Qed.

(** The numbered-marker pattern finds nothing where the second character
    is whitespace, which is where the bullet pattern matches. *)
Lemma num_marker_second d c w t :
  decimal_table d -> Py.isspace w = true -> num_marker d (c :: w :: t) = None.
Proof.
  intros Hd Hw. unfold num_marker.
  rewrite !run_marker_second
    by (auto using space_not_closer, space_not_roman; now apply Hd).
  unfold letter_marker.
  rewrite (marker_tail_starts w t (space_not_closer w Hw)).
  now destruct (ascii_letter c).
Qed.

Lemma bullet_marker_inv line rest :
  bullet_marker line = Some rest ->
  exists c w t, line = c :: w :: t /\ mem c BULLET_CHARS = true
                /\ Py.isspace w = true
                /\ rest = Py.drop_while Py.isspace t.
Proof.
  unfold bullet_marker. destruct line as [|c [|w t]]; try discriminate.
  destruct (mem c BULLET_CHARS) eqn:Hc, (Py.isspace w) eqn:Hw;
    try discriminate.
  intros H. injection H as <-. now exists c, w, t.
Qed.

Lemma bullet_match_none line :
  re_match BULLET_RE line = None <-> bullet_marker line = None.
Proof.
  rewrite bullet_match. unfold bullet_marker.
  destruct line as [|c [|w t]]; try tauto.
  destruct (mem c BULLET_CHARS && Py.isspace w)%bool; split;
    (discriminate || reflexivity).
Qed.

Lemma num_match_none d line :
  decimal_table d ->
  re_match (NUM_MARKER_RE d) line = None <-> num_marker d line = None.
Proof.
  intros Hd. pose proof (num_first d line Hd) as H.
  destruct (re_match (NUM_MARKER_RE d) line), (num_marker d line) as [[? ?]|];
    try contradiction; split; (discriminate || reflexivity).
Qed.

End Tokens.

(** * Marker unification *)

Import Re ReFacts Markers Runs Tokens.

(** C5.  A line that begins with a numbered-list token (decimal digits, one
    ASCII letter, or letters of [ivxIVX]), then [.] or [)], then at least
    one whitespace character, is rewritten by [unify_markers] to the token
    as it stands, a period and one space, followed by the remainder of the
    line unchanged.  The remainder is what follows the whitespace run, so it
    starts with no whitespace. *)
Theorem unify_markers_numbered d (tok : str) (c : char) (ws rest : str) :
  decimal_table d ->
  is_token d tok = true ->
  closer c = true ->
  ws <> [] -> forallb Py.isspace ws = true ->
  Py.lstrip rest = rest ->
  unify_markers d (tok ++ c :: ws ++ rest) = tok ++ lit ". " ++ rest.
Proof.
  intros Hd Htok Hc Hne Hws Hrest.
  destruct ws as [|w ws]; [contradiction|].
  simpl in Hws. apply andb_true_iff in Hws as [Hw Hws].
  rewrite unify_markers_spec by exact Hd.
  unfold bullet_rule.
  rewrite (bullet_marker_token d tok c ((w :: ws) ++ rest) Hd Htok Hc).
  unfold number_rule. cbn [app].
  rewrite (num_marker_token d tok c w (ws ++ rest) Hd Htok Hc Hw).
  now rewrite (drop_run Py.isspace ws rest Hws Hrest).
Qed.

Lemma unify_markers_numbered_witness :
  unify_markers unicode_isdecimal (lit "12)   first  item")
  = lit "12. first  item".
Proof.
  apply (unify_markers_numbered unicode_isdecimal (lit "12") 41%N
           (lit "   ") (lit "first  item") unicode_decimal_table);
    (reflexivity || discriminate).
Defined.

(** C6.  [unify_markers] is idempotent: a second application changes
    nothing. *)
Theorem unify_markers_idempotent d (line : str) :
  decimal_table d ->
  unify_markers d (unify_markers d line) = unify_markers d line.
Proof.
  intros Hd. rewrite (unify_markers_spec d line Hd).
  unfold bullet_rule.
  destruct (bullet_marker line) as [rest|] eqn:Hb.
  - apply bullet_marker_inv in Hb as (c & w & t & -> & Hc & Hw & ->).
    change (lit "- " ++ Py.drop_while Py.isspace t)
      with (45%N :: 32%N :: Py.drop_while Py.isspace t).
    assert (E : number_rule d (45%N :: 32%N :: Py.drop_while Py.isspace t)
                = 45%N :: 32%N :: Py.drop_while Py.isspace t).
    { unfold number_rule. now rewrite num_marker_hyphen. }
    rewrite E, (unify_markers_spec d _ Hd).
    assert (B : bullet_rule (45%N :: 32%N :: Py.drop_while Py.isspace t)
                = 45%N :: 32%N :: Py.drop_while Py.isspace t).
    { unfold bullet_rule, bullet_marker.
      change (mem 45%N BULLET_CHARS && Py.isspace 32%N)%bool with true.
      cbv iota. now rewrite drop_while_idem. }
    rewrite B. exact E.
  - unfold number_rule.
    destruct (num_marker d line) as [[tok rest]|] eqn:Hn.
    + apply num_marker_inv in Hn
        as (Htok & c & w & t & -> & Hc & Hw & ->).
      change (tok ++ lit ". " ++ Py.drop_while Py.isspace t)
        with (tok ++ 46%N :: 32%N :: Py.drop_while Py.isspace t).
      rewrite (unify_markers_spec d _ Hd).
      unfold bullet_rule.
      rewrite (bullet_marker_token d tok 46%N _ Hd Htok eq_refl).
      unfold number_rule.
      rewrite (num_marker_token d tok 46%N 32%N _ Hd Htok eq_refl eq_refl).
      now rewrite drop_while_idem.
    + rewrite (unify_markers_spec d _ Hd).
      unfold bullet_rule. rewrite Hb. unfold number_rule. now rewrite Hn.
Qed.

Lemma unify_markers_idempotent_witness :
  unify_markers unicode_isdecimal
    (unify_markers unicode_isdecimal (lit "iv)  chapter"))
  = unify_markers unicode_isdecimal (lit "iv)  chapter").
Proof.
  exact (unify_markers_idempotent unicode_isdecimal (lit "iv)  chapter")
           unicode_decimal_table).
Defined.

(** C7.  In one call of [unify_markers] at most one of the two rules
    rewrites the line.  Where the bullet pattern matches, the numbered
    pattern matches neither the line nor the rewritten line, which starts
    with a hyphen and a space, and the result is the bullet rewrite alone;
    where it does not, the result is that of the numbered rule alone. *)
Theorem unify_markers_one_rule d (line : str) :
  decimal_table d ->
  (re_match BULLET_RE line <> None ->
   re_match (NUM_MARKER_RE d) line = None
   /\ exists rest,
        sub BULLET_RE (fun _ => lit "- ") line = lit "- " ++ rest
        /\ re_match (NUM_MARKER_RE d) (lit "- " ++ rest) = None
        /\ unify_markers d line = lit "- " ++ rest)
  /\ (re_match BULLET_RE line = None ->
      unify_markers d line =
      match re_match (NUM_MARKER_RE d) line with
      | Some _ => sub (NUM_MARKER_RE d) (fun m => group m 1 ++ lit ". ") line
      | None => line
      end).
Proof.
  intros Hd. split.
  - intros Hm. pose proof (bullet_step line) as Hs.
    pose proof (unify_markers_spec d line Hd) as Hu.
    unfold bullet_rule in Hu.
    rewrite bullet_match_none in Hm.
    destruct (re_match BULLET_RE line) as [m|] eqn:Hr;
      [|apply bullet_match_none in Hr; contradiction].
    destruct (bullet_marker line) as [rest|] eqn:Hb; [|contradiction].
    apply bullet_marker_inv in Hb as (c & w & t & -> & Hc & Hw & ->).
    assert (Hh : num_marker d (lit "- " ++ Py.drop_while Py.isspace t)
                 = None) by apply (num_marker_hyphen d _ Hd).
    split.
    + apply (num_match_none d _ Hd). now apply num_marker_second.
    + exists (Py.drop_while Py.isspace t). split; [exact Hs|]. split.
      * now apply (num_match_none d _ Hd).
      * rewrite Hu. unfold number_rule. now rewrite Hh.
  - intros Hm. unfold unify_markers. now rewrite Hm.
Qed.

Lemma unify_markers_one_rule_witness :
  re_match (NUM_MARKER_RE unicode_isdecimal) (lit "*   1) x") = None
  /\ exists rest,
       sub BULLET_RE (fun _ => lit "- ") (lit "*   1) x") = lit "- " ++ rest
       /\ re_match (NUM_MARKER_RE unicode_isdecimal) (lit "- " ++ rest) = None
       /\ unify_markers unicode_isdecimal (lit "*   1) x") = lit "- " ++ rest.
Proof.
  apply (proj1 (unify_markers_one_rule unicode_isdecimal (lit "*   1) x")
                  unicode_decimal_table)).
  vm_compute. discriminate.
Defined.

(** C10.  A token of two or more ASCII letters before a closer and
    whitespace is a marker exactly when all its letters are among
    [ivxIVX]: the line is then rewritten to the token, a period and a
    space, and is left unchanged otherwise.  A token of one ASCII letter is
    always a marker. *)
Theorem unify_markers_letter_tokens d (tok : str) (c w : char) (t : str) :
  decimal_table d ->
  tok <> [] -> forallb ascii_letter tok = true ->
  closer c = true -> Py.isspace w = true ->
  unify_markers d (tok ++ c :: w :: t) =
  if (Nat.eqb (length tok) 1 || forallb roman_letter tok)%bool
  then tok ++ lit ". " ++ Py.lstrip t
  else tok ++ c :: w :: t.
Proof.
  intros Hd Hne Hall Hc Hw. rewrite (unify_markers_spec d _ Hd).
  destruct (Nat.eqb (length tok) 1 || forallb roman_letter tok)%bool eqn:Hk.
  - assert (Htok : is_token d tok = true).
    { destruct tok as [|a tok]; [contradiction|]. unfold is_token.
      simpl in Hall. apply andb_true_iff in Hall as [Ha _]. rewrite Ha.
      apply orb_true_iff in Hk as [Hk | Hk].
      - destruct tok; [|discriminate]. cbn [andb]. now rewrite orb_true_r.
      - rewrite Hk. apply orb_true_r. }
    unfold bullet_rule.
    rewrite (bullet_marker_token d tok c (w :: t) Hd Htok Hc).
    unfold number_rule.
    now rewrite (num_marker_token d tok c w t Hd Htok Hc Hw).
  - apply orb_false_iff in Hk as [Hlen Hrom].
    destruct tok as [|a [|b tok]]; [contradiction | discriminate |].
    cbn [forallb] in Hall.
    apply andb_true_iff in Hall as [Ha Hall'].
    pose proof Hall' as Hall''.
    apply andb_true_iff in Hall'' as [Hb _].
    unfold bullet_rule. cbn [app].
    rewrite (bullet_marker_second a b _ (letter_not_space b Hb)).
    unfold number_rule, num_marker.
    rewrite (run_marker_starts d a _ (letter_not_decimal d a Hd Ha)).
    cbn [or_else]. unfold letter_marker. rewrite Ha.
    rewrite (marker_tail_starts b _ (letter_not_closer b Hb)).
    cbn [or_else].
    assert (Hr : run_marker roman_letter (a :: b :: tok ++ c :: w :: t)
                 = None).
    { destruct (Py.drop_while roman_letter (a :: b :: tok)) as [|x r] eqn:Hx.
      - apply drop_while_all in Hx. rewrite Hx in Hrom. discriminate.
      - pose proof (take_drop roman_letter (a :: b :: tok)) as Hs.
        rewrite Hx in Hs.
        assert (Hl : ascii_letter x = true).
        { assert (F : forallb ascii_letter (a :: b :: tok) = true).
          { cbn [forallb]. now rewrite Ha. }
          rewrite <- Hs, forallb_app in F.
          apply andb_true_iff in F as [_ F]. simpl in F.
          now apply andb_true_iff in F. }
        destruct (run_broken roman_letter (a :: b :: tok) (c :: w :: t) x r Hx)
          as [Ht Hdr].
        unfold run_marker.
        change (a :: b :: tok ++ c :: w :: t)
          with ((a :: b :: tok) ++ c :: w :: t).
        rewrite Ht, Hdr.
        rewrite (marker_tail_starts x _ (letter_not_closer x Hl)).
        now destruct (Py.take_while roman_letter (a :: b :: tok)). }
    now rewrite Hr.
Qed.

Lemma unify_markers_letter_tokens_witness :
  unify_markers unicode_isdecimal (lit "xiv) rest") = lit "xiv. rest"
  /\ unify_markers unicode_isdecimal (lit "xl) rest") = lit "xl) rest"
  /\ unify_markers unicode_isdecimal (lit "ab) rest") = lit "ab) rest"
  /\ unify_markers unicode_isdecimal (lit "q) rest") = lit "q. rest".
Proof.
  split; [|split; [|split]].
  - apply (unify_markers_letter_tokens unicode_isdecimal (lit "xiv") 41%N
             32%N (lit "rest") unicode_decimal_table);
      (reflexivity || discriminate).
  - apply (unify_markers_letter_tokens unicode_isdecimal (lit "xl") 41%N
             32%N (lit "rest") unicode_decimal_table);
      (reflexivity || discriminate).
  - apply (unify_markers_letter_tokens unicode_isdecimal (lit "ab") 41%N
             32%N (lit "rest") unicode_decimal_table);
      (reflexivity || discriminate).
  - apply (unify_markers_letter_tokens unicode_isdecimal (lit "q") 41%N
             32%N (lit "rest") unicode_decimal_table);
      (reflexivity || discriminate).
Defined.

(** * The empty document *)

(** What [convert] returns for the empty text. *)
Definition empty_result (target : String.string) (slack_wrap_codeblock : bool)
  : str :=
  if String.eqb target "Slack-friendly" then
    if slack_wrap_codeblock then lit "```" ++ [NL; NL] ++ lit "```" else []
  else if String.eqb target "JSON outline (beta)" then lit "[]"
  else [].

(** C3, as the code has it.  For the empty text [convert] raises in one
    case only: the plain-text target with an indent size that does not fit
    a C [int], where [expandtabs] raises [OverflowError].  In every other
    case, a zero indent size included, it returns the empty string for the
    text targets and for an unknown target, and [[]] for the JSON outline,
    with one exception: the Slack-friendly target with
    [slack_wrap_codeblock] returns the two fence lines around an empty
    line. *)
Theorem convert_empty d (source target : String.string) (indent_size : Z)
        (collapse_blank_lines trim_trailing_ws keep_code_fences
           slack_wrap_codeblock : bool)
        (gdocs_bullet_symbol : BulletSymbol) (convert_smart_quotes : bool) :
  convert d [] source target indent_size collapse_blank_lines
          trim_trailing_ws keep_code_fences slack_wrap_codeblock
          gdocs_bullet_symbol convert_smart_quotes
  = if (String.eqb target "Plain text" && negb (Py.fits_int indent_size))%bool
    then Raise OverflowError
    else Ok (empty_result target slack_wrap_codeblock).
Proof.
  unfold convert, empty_result.
  replace (normalize_text [] convert_smart_quotes) with (@nil char)
    by (destruct convert_smart_quotes; reflexivity).
  replace (if String.eqb source "Slack"
           then Re.sub QUOTE_MARKS_RE (fun _ => lit "> ") []
           else if String.eqb source "Google Docs"
                then Py.replace [8226%N; TAB] (lit "- ") []
                else []) with (@nil char)
    by (destruct (String.eqb source "Slack"),
                 (String.eqb source "Google Docs"); reflexivity).
  replace (if keep_code_fences then extract_code_fences [] else ([], []))
    with (@nil char, @nil (str * str))
    by (destruct keep_code_fences; reflexivity).
  change (Py.split NL []) with [@nil char].
  destruct (String.eqb target "Markdown / Obsidian") eqn:E1.
  { apply String.eqb_eq in E1. subst target.
    destruct collapse_blank_lines, trim_trailing_ws, keep_code_fences;
      reflexivity. }
  destruct (String.eqb target "Slack-friendly") eqn:E2.
  { apply String.eqb_eq in E2. subst target.
    destruct collapse_blank_lines, trim_trailing_ws, keep_code_fences,
      slack_wrap_codeblock; reflexivity. }
  destruct (String.eqb target "Google Docs-friendly") eqn:E3.
  { apply String.eqb_eq in E3. subst target.
    destruct collapse_blank_lines, trim_trailing_ws, keep_code_fences;
      reflexivity. }
  destruct (String.eqb target "Plain text") eqn:E4.
  { apply String.eqb_eq in E4. subst target.
    unfold lines_to_plain, Py.expandtabs.
    destruct (Py.fits_int indent_size);
      destruct collapse_blank_lines, trim_trailing_ws, keep_code_fences;
      reflexivity. }
  destruct (String.eqb target "JSON outline (beta)") eqn:E5.
  { destruct collapse_blank_lines, keep_code_fences; reflexivity. }
  destruct collapse_blank_lines, keep_code_fences; reflexivity.
Qed.

(** C3 as stated fails.  Every option on, the Slack-friendly target gives
    a result that is not empty; and for the plain-text target an indent
    size of [2 ^ 31] makes [convert] raise. *)
Lemma convert_empty_slack_wrapped :
  convert unicode_isdecimal [] "Auto"%string "Slack-friendly"%string 2
          true true true true BulletDot true
  = Ok (lit "```" ++ [NL; NL] ++ lit "```")
  /\ convert unicode_isdecimal [] "Auto"%string "Plain text"%string
             2147483648 true true true true BulletDot true
     = Raise OverflowError.
Proof. split; reflexivity. Qed.

(** * Indentation *)

Module Indent.
Import Re ReFacts Runs.

Lemma mem_app c a b : mem c (a ++ b) = (mem c a || mem c b)%bool.
Proof. unfold mem. apply existsb_app. Qed.

Lemma mem_cons c x s : mem c (x :: s) = (eqc c x || mem c s)%bool.
Proof. reflexivity. Qed.

Lemma eqc_sym a b : eqc a b = eqc b a.
Proof. apply N.eqb_sym. Qed.

Lemma mem_dot s : mem NL s = false <-> forallb dot s = true.
Proof.
  unfold mem. induction s as [|c s IH]; cbn [existsb forallb]; [tauto|].
  unfold dot at 1. rewrite orb_false_iff, andb_true_iff, negb_true_iff, IH.
  now rewrite (eqc_sym NL c).
Qed.

Lemma mem_times c x n : eqc c x = false -> mem c (Py.times x n) = false.
Proof.
  intros H. unfold Py.times.
  induction (Z.to_nat n) as [|k IH]; cbn [repeat]; [reflexivity|].
  now rewrite mem_cons, H, IH.
Qed.

Lemma dot_times n : forallb dot (Py.times SP n) = true.
Proof.
  unfold Py.times. induction (Z.to_nat n) as [|k IH]; simpl; auto.
Qed.

(** With a positive tab size [expandtabs] leaves no tab. *)
Lemma expandtabs_no_tab tabsize s :
  (0 < tabsize)%Z -> forall col,
  mem TAB (Py.expandtabs_from tabsize col s) = false.
Proof.
  intros Hpos. apply Z.ltb_lt in Hpos.
  induction s as [|c s IH]; intros col; cbn [Py.expandtabs_from];
    [reflexivity|].
  destruct (eqc c TAB) eqn:Hc.
  - rewrite Hpos, mem_app, IH, mem_times; reflexivity.
  - now rewrite mem_cons, (eqc_sym TAB c), Hc, IH.
Qed.

(** [expandtabs] brings in no line feed. *)
Lemma expandtabs_dot tabsize s :
  forallb dot s = true -> forall col,
  forallb dot (Py.expandtabs_from tabsize col s) = true.
Proof.
  induction s as [|c s IH]; intros H col; cbn [Py.expandtabs_from];
    [reflexivity|].
  cbn [forallb] in H. apply andb_true_iff in H as [Hc Hs].
  destruct (eqc c TAB).
  - destruct (Z.ltb 0 tabsize); [|now apply IH].
    rewrite forallb_app, dot_times. now apply IH.
  - cbn [forallb]. rewrite Hc. now apply IH.
Qed.

Lemma run_all p s :
  forallb p s = true -> Py.take_while p s = s /\ Py.drop_while p s = [].
Proof.
  induction s as [|c s IH]; simpl; [auto|].
  intros H. apply andb_true_iff in H as [-> H].
  destruct (IH H) as [-> ->]. auto.
Qed.

Lemma drop_while_forall (p q : char -> bool) s :
  forallb q s = true -> forallb q (Py.drop_while p s) = true.
Proof.
  induction s as [|c s IH]; simpl; [auto|].
  intros H. destruct (p c); [|exact H].
  apply andb_true_iff in H as [_ H]. auto.
Qed.

(** [LEADING_WS_RE] on a line: group 1 is the run of spaces and tabs at the
    start, group 2 the rest. *)
Lemma leading_ws_match s :
  forallb dot s = true ->
  re_match LEADING_WS_RE s =
  Some (mkMatch s [Py.take_while space_or_tab s; Py.drop_while space_or_tab s]
                []).
Proof.
  intros Hs. unfold re_match, LEADING_WS_RE.
  rewrite cat_bol_start, hd_error_map.
  unfold cat at 1. unfold capture, many.
  destruct (star_first space_or_tab s) as [tl ->].
  cbn [map flat_map group0 groups after]. rewrite hd_error_app, hd_error_map.
  unfold cat.
  destruct (star_first dot (Py.drop_while space_or_tab s)) as [tl2 ->].
  destruct (run_all dot (Py.drop_while space_or_tab s)
              (drop_while_forall space_or_tab dot s Hs)) as [-> ->].
  cbn. rewrite !app_nil_r. now rewrite take_drop.
Qed.

Lemma spaces_only s :
  mem TAB s = false ->
  Py.take_while space_or_tab s = Py.take_while (fun c => eqc c SP) s.
Proof.
  induction s as [|c s IH]; [reflexivity|].
  rewrite mem_cons, orb_false_iff. intros [Hc Hs].
  cbn [Py.take_while]. unfold space_or_tab at 1.
  rewrite (eqc_sym c TAB), Hc, orb_false_r.
  destruct (eqc c SP); [now rewrite IH | reflexivity].
Qed.

(** [expandtabs] returns for a tab size that fits a C [int], and raises
    for any other. *)
Lemma expandtabs_fits tabsize s :
  Py.fits_int tabsize = true ->
  Py.expandtabs tabsize s = Ok (Py.expanded tabsize s).
Proof. intros H. unfold Py.expandtabs. now rewrite H. Qed.

Lemma expandtabs_overflow tabsize s :
  Py.fits_int tabsize = false -> Py.expandtabs tabsize s = Raise OverflowError.
Proof. intros H. unfold Py.expandtabs. now rewrite H. Qed.

(** The four statements on a line. *)
Lemma split_indent_line raw indent_size :
  Py.fits_int indent_size = true ->
  indent_size <> 0%Z -> mem NL raw = false ->
  split_indent raw indent_size =
  Ok ((Py.len (Py.take_while space_or_tab (Py.expanded indent_size raw))
       / indent_size)%Z,
      Py.drop_while space_or_tab (Py.expanded indent_size raw)).
Proof.
  intros Hfit Hnz Hraw. unfold split_indent.
  rewrite (expandtabs_fits _ _ Hfit). cbn [bind].
  rewrite leading_ws_match
    by (apply expandtabs_dot; now apply mem_dot).
  cbn [group nth group0 groups]. unfold floordiv.
  apply Z.eqb_neq in Hnz. now rewrite Hnz.
Qed.

End Indent.

(** The number of leading whitespace columns of a line once its tabs are
    expanded: the spaces before the first other character. *)
Definition leading_columns (indent_size : Z) (raw : str) : Z :=
  Py.len (Py.take_while (fun c => eqc c SP) (Py.expanded indent_size raw)).

(** C4.  For a positive indent size that fits a C [int] (the range of
    [expandtabs]) and a line (a text without line feed), the expanded line
    holds no tab, and the level that the renderers compute is the number of
    its leading spaces divided by the indent size, rounded down.  The
    Markdown renderer indents the line by [indent_size * level] spaces, the
    Google Docs renderer by [level] tabs, and the outline records the
    level.  Of two lines, the one with fewer leading columns has the lower
    or the same level. *)
Theorem level_from_expanded_columns d (indent_size : Z) :
  (0 < indent_size)%Z -> Py.fits_int indent_size = true ->
  (forall raw,
     mem NL raw = false ->
     let expanded := Py.expanded indent_size raw in
     let level := (leading_columns indent_size raw / indent_size)%Z in
     let rest := Py.drop_while space_or_tab expanded in
     mem TAB expanded = false
     /\ split_indent raw indent_size = Ok (level, rest)
     /\ (Py.truthy (Py.strip raw) = true ->
         lines_to_markdown d [raw] indent_size false
         = Ok [Py.times SP (indent_size * level) ++ unify_markers d rest]
         /\ (forall bullet,
               lines_to_gdocs d [raw] indent_size bullet false
               = Ok [Py.times TAB level
                     ++ sub HYPHEN_RE (fun _ => bullet_str bullet ++ [SP])
                          (unify_markers d rest)])
         /\ outline_items d [raw] indent_size
            = Ok [mkItem level (unify_markers d rest)]))
  /\ (forall raw1 raw2 level1 rest1 level2 rest2,
        mem NL raw1 = false -> mem NL raw2 = false ->
        split_indent raw1 indent_size = Ok (level1, rest1) ->
        split_indent raw2 indent_size = Ok (level2, rest2) ->
        (leading_columns indent_size raw1
         < leading_columns indent_size raw2)%Z ->
        (level1 <= level2)%Z).
Proof.
  intros Hpos Hfit.
  assert (Hnz : indent_size <> 0%Z) by lia.
  assert (Hsplit : forall raw, mem NL raw = false ->
            split_indent raw indent_size =
            Ok ((leading_columns indent_size raw / indent_size)%Z,
                Py.drop_while space_or_tab (Py.expanded indent_size raw))).
  { intros raw Hraw. rewrite (Indent.split_indent_line raw _ Hfit Hnz Hraw).
    unfold leading_columns.
    now rewrite (Indent.spaces_only (Py.expanded indent_size raw)
                   (Indent.expandtabs_no_tab indent_size raw Hpos 0%Z)). }
  split.
  - intros raw Hraw expanded level rest.
    split; [exact (Indent.expandtabs_no_tab indent_size raw Hpos 0%Z)|].
    split; [exact (Hsplit raw Hraw)|].
    intros Hcontent.
    unfold lines_to_markdown, lines_to_gdocs, outline_items.
    cbn [for_each]. rewrite Hcontent, (Hsplit raw Hraw). cbn.
    rewrite !app_nil_r. auto.
  - intros raw1 raw2 level1 rest1 level2 rest2 H1 H2 E1 E2 Hlt.
    rewrite (Hsplit raw1 H1) in E1. rewrite (Hsplit raw2 H2) in E2.
    injection E1 as <- _. injection E2 as <- _.
    apply Z.div_le_mono; lia.
Qed.

Lemma level_from_expanded_columns_witness :
  split_indent (TAB :: lit "  - item") 4 = Ok (1%Z, lit "- item")
  /\ lines_to_markdown unicode_isdecimal [TAB :: lit "  - item"] 4 false
     = Ok [lit "    - item"]
  /\ outline_items unicode_isdecimal [TAB :: lit "  - item"] 4
     = Ok [mkItem 1 (lit "- item")].
Proof.
  destruct (proj1 (level_from_expanded_columns unicode_isdecimal 4 eq_refl
                     eq_refl)
              (TAB :: lit "  - item") eq_refl) as (_ & Hs & Hr).
  destruct (Hr eq_refl) as (Hm & _ & Ho).
  split; [exact Hs | split; [exact Hm | exact Ho]].
Defined.

(** * Substitution, piece by piece *)

Module Scan.
Import Re ReFacts.

(** The text that [sub] builds from the pieces. *)
Definition render (repl : Match -> str) (ps : list piece) : str :=
  flat_map (fun p => match p with Copied c => [c] | Matched m => repl m end)
           ps.

Lemma sub_render r repl s : sub r repl s = render repl (pieces r s).
Proof. reflexivity. Qed.

Lemma no_match_at_end r prev : sound r -> nonempty r -> r prev [] = [].
Proof.
  intros Hs Hne. destruct (r prev []) as [|m tl] eqn:E; [reflexivity|].
  assert (Hm : In m (r prev [])) by (rewrite E; now left).
  pose proof (Hs _ _ _ Hm) as H. pose proof (Hne _ _ _ Hm) as Hg.
  symmetry in H. apply app_eq_nil in H. tauto.
Qed.

(** Induction along the scan: a character is copied where the pattern
    finds nothing, and the scan resumes behind a match. *)
Lemma scan_induction r (P : option char -> str -> list piece -> Prop) :
  sound r -> nonempty r ->
  (forall prev, P prev [] []) ->
  (forall prev c t,
     r prev (c :: t) = [] ->
     P (Some c) t (scan (S (length t)) r (Some c) t) ->
     P prev (c :: t) (Copied c :: scan (S (length t)) r (Some c) t)) ->
  (forall prev s m tl,
     r prev s = m :: tl ->
     P (last_of prev (group0 m)) (after m)
       (scan (S (length (after m))) r (last_of prev (group0 m)) (after m)) ->
     P prev s
       (Matched m ::
          scan (S (length (after m))) r (last_of prev (group0 m)) (after m)))
  -> forall prev s, P prev s (scan (S (length s)) r prev s).
Proof.
  intros Hs Hne Hnil Hcopy Hmatch prev s.
  remember (length s) as n eqn:Hn. revert prev s Hn.
  induction n as [n IH] using lt_wf_ind. intros prev s ->.
  rewrite (pieces_step r Hs Hne).
  destruct (r prev s) as [|m tl] eqn:E.
  - destruct s as [|c t]; [apply Hnil|].
    apply Hcopy; [exact E|]. apply (IH (length t)); simpl; auto.
  - apply (Hmatch _ _ _ tl E).
    assert (Hm : In m (r prev s)) by (rewrite E; now left).
    apply (IH (length (after m))); [|reflexivity].
    exact (match_shorter _ _ _ _ Hs Hne Hm).
Qed.

End Scan.

(** * Blank-line collapsing *)

Module Blank.
Import Re ReFacts Runs Scan.

Definition is_nl : char -> bool := eqc NL.

(** The number of line feeds a text starts with. *)
Definition nl_run (s : str) : nat := length (Py.take_while is_nl s).

(** No line feed of [s] is the third or a later one of a run, where [k]
    line feeds come just before [s]. *)
Fixpoint runs_ok (k : nat) (s : str) : bool :=
  match s with
  | [] => true
  | c :: t =>
      if is_nl c then (Nat.ltb (S k) 3 && runs_ok (S k) t)%bool
      else runs_ok 0 t
  end.

Lemma blank_run_unfold prev s :
  BLANK_RUN_RE prev s =
  match s with
  | a :: b :: c :: t =>
      if (is_nl a && is_nl b && is_nl c)%bool then
        map (fun m => mkMatch (a :: b :: c :: group0 m) (groups m) (after m))
            (star is_nl t)
      else []
  | _ => []
  end.
Proof.
  unfold BLANK_RUN_RE. cbn [at_least]. fold is_nl. rewrite cat_chr.
  destruct s as [|a [|b [|c t]]]; [reflexivity | | |].
  - destruct (is_nl a); [rewrite cat_chr|]; reflexivity.
  - destruct (is_nl a); [|reflexivity]. rewrite cat_chr.
    destruct (is_nl b); [rewrite cat_chr|]; reflexivity.
  - destruct (is_nl a); [|reflexivity]. rewrite cat_chr.
    destruct (is_nl b); [|reflexivity]. rewrite cat_chr.
    destruct (is_nl c); [|reflexivity]. cbn [andb map].
    unfold many. rewrite !map_map. reflexivity.
Qed.

Lemma blank_run_none prev s : nl_run s < 3 -> BLANK_RUN_RE prev s = [].
Proof.
  rewrite blank_run_unfold. unfold nl_run.
  destruct s as [|a [|b [|c t]]]; try reflexivity.
  cbn [Py.take_while].
  destruct (is_nl a); [|reflexivity].
  destruct (is_nl b); [|reflexivity].
  destruct (is_nl c); [|reflexivity]. simpl. lia.
Qed.

Lemma blank_run_some prev s :
  3 <= nl_run s ->
  exists tl,
    BLANK_RUN_RE prev s =
    mkMatch (Py.take_while is_nl s) [] (Py.drop_while is_nl s) :: tl.
Proof.
  rewrite blank_run_unfold. unfold nl_run.
  destruct s as [|a [|b [|c t]]]; cbn [Py.take_while Py.drop_while].
  - simpl. lia.
  - destruct (is_nl a); simpl; lia.
  - destruct (is_nl a); [|simpl; lia]. destruct (is_nl b); simpl; lia.
  - destruct (is_nl a); [|simpl; lia]. destruct (is_nl b); [|simpl; lia].
    destruct (is_nl c); [|simpl; lia]. intros _.
    destruct (star_first is_nl t) as [tl ->]. cbn. eauto.
Qed.

Lemma blank_run_cases prev s :
  (nl_run s < 3 /\ BLANK_RUN_RE prev s = [])
  \/ (3 <= nl_run s /\ exists tl,
        BLANK_RUN_RE prev s =
        mkMatch (Py.take_while is_nl s) [] (Py.drop_while is_nl s) :: tl).
Proof.
  destruct (Nat.lt_ge_cases (nl_run s) 3) as [H | H].
  - left. split; [exact H | now apply blank_run_none].
  - right. split; [exact H | now apply blank_run_some].
Qed.

Lemma sound_blank : sound BLANK_RUN_RE.
Proof. apply sound_at_least. Qed.

Lemma nonempty_blank : nonempty BLANK_RUN_RE.
Proof. apply nonempty_at_least. Qed.

Lemma nl_run_dropped s : nl_run (Py.drop_while is_nl s) = 0.
Proof.
  unfold nl_run. destruct (Py.drop_while is_nl s) as [|x t] eqn:E;
    [reflexivity|].
  cbn [Py.take_while]. now rewrite (drop_while_head _ _ _ _ E).
Qed.

(** The collapse leaves no run of three line feeds. *)
Lemma collapse_runs prev s k :
  k + nl_run s < 3 \/ k = 0 ->
  runs_ok k (render (fun _ => [NL; NL])
               (scan (S (length s)) BLANK_RUN_RE prev s)) = true.
Proof.
  revert k.
  apply (scan_induction BLANK_RUN_RE
           (fun prev s ps => forall k, k + nl_run s < 3 \/ k = 0 ->
              runs_ok k (render (fun _ => [NL; NL]) ps) = true)
           sound_blank nonempty_blank); clear prev s.
  - reflexivity.
  - intros prev c t Hnone IH k Hk.
    destruct (blank_run_cases prev (c :: t)) as [[Hlt _] | [_ [tl E]]];
      [|congruence].
    cbn [render flat_map app runs_ok]. fold (render (fun _ => [NL; NL])).
    unfold nl_run in Hlt, Hk. cbn [Py.take_while] in Hlt, Hk.
    destruct (is_nl c).
    + cbn [length] in Hlt, Hk. fold (nl_run t) in Hlt, Hk.
      apply andb_true_iff. split; [apply Nat.ltb_lt; lia|].
      apply IH. lia.
    + apply IH. now right.
  - intros prev s m tl E IH k Hk.
    destruct (blank_run_cases prev s) as [[_ En] | [Hge [tl' E']]];
      [congruence|].
    rewrite E' in E. injection E as <- _.
    destruct Hk as [Hk | ->]; [lia|].
    cbn [render flat_map app]. fold (render (fun _ => [NL; NL])).
    change (runs_ok 0 (NL :: NL :: ?x)) with (runs_ok 2 x).
    apply IH. cbn [after]. rewrite nl_run_dropped. lia.
Qed.

(** A text without a run of three line feeds. *)
Definition no_blank_run (s : str) : Prop :=
  forall a b, s <> a ++ [NL; NL; NL] ++ b.

Lemma runs_ok_no_run k s : runs_ok k s = true -> no_blank_run s.
Proof.
  intros H a b ->. revert k H.
  induction a as [|c a IH]; intros k H.
  - cbn [app runs_ok] in H. change (is_nl NL) with true in H. cbv iota in H.
    rewrite !andb_true_iff, !Nat.ltb_lt in H. lia.
  - cbn [app runs_ok] in H. destruct (is_nl c).
    + apply andb_true_iff in H as [_ H]. eauto.
    + eauto.
Qed.

Lemma collapse_no_blank_run s :
  no_blank_run (sub BLANK_RUN_RE (fun _ => [NL; NL]) s).
Proof.
  apply (runs_ok_no_run 0). apply collapse_runs. now right.
Qed.

(** Where no run of three line feeds starts, nothing is collapsed. *)
Lemma runs_ok_run k s :
  runs_ok k s = true -> nl_run s = 0 \/ k + nl_run s < 3.
Proof.
  revert k. induction s as [|c t IH]; intros k; [now left|].
  unfold nl_run. cbn [runs_ok Py.take_while]. destruct (is_nl c).
  - intros H. apply andb_true_iff in H as [Hk H]. apply Nat.ltb_lt in Hk.
    apply IH in H. unfold nl_run in H. cbn [length]. lia.
  - now left.
Qed.

Lemma collapse_identity s :
  runs_ok 0 s = true -> sub BLANK_RUN_RE (fun _ => [NL; NL]) s = s.
Proof.
  rewrite sub_render. unfold pieces. generalize (@None char). revert s.
  enough (H : forall prev s k, runs_ok k s = true ->
            render (fun _ => [NL; NL])
              (scan (S (length s)) BLANK_RUN_RE prev s) = s)
    by (intros s prev Hs; exact (H prev s 0 Hs)).
  intros prev s.
  apply (scan_induction BLANK_RUN_RE
           (fun prev s ps => forall k, runs_ok k s = true ->
              render (fun _ => [NL; NL]) ps = s)
           sound_blank nonempty_blank); clear prev s.
  - reflexivity.
  - intros prev c t _ IH k Hk.
    cbn [render flat_map app]. fold (render (fun _ => [NL; NL])).
    f_equal. cbn [runs_ok] in Hk. destruct (is_nl c).
    + apply andb_true_iff in Hk as [_ Hk]. eauto.
    + eauto.
  - intros prev s m tl E _ k Hk.
    destruct (blank_run_cases prev s) as [[_ En] | [Hge _]]; [congruence|].
    apply runs_ok_run in Hk. lia.
Qed.

End Blank.

(** * The pipeline of [convert] *)

Module Pipeline.

(** The text after normalisation and the pre-clean for the source. *)
Definition prepared (text : str) (source : String.string)
           (convert_smart_quotes : bool) : str :=
  let text := normalize_text text convert_smart_quotes in
  if String.eqb source "Slack" then
    Re.sub QUOTE_MARKS_RE (fun _ => lit "> ") text
  else if String.eqb source "Google Docs" then
    Py.replace [8226%N; TAB] (lit "- ") text
  else text.

(** The rendering for the target. *)
Definition rendered d (lines : list str) (target : String.string)
           (indent_size : Z) (trim_trailing_ws slack_wrap_codeblock : bool)
           (gdocs_bullet_symbol : BulletSymbol) : outcome str :=
  if String.eqb target "Markdown / Obsidian" then
    out_lines <- lines_to_markdown d lines indent_size trim_trailing_ws ;;
    Ok (Py.join [NL] out_lines)
  else if String.eqb target "Slack-friendly" then
    out_lines <- lines_to_markdown d lines indent_size trim_trailing_ws ;;
    let result := Py.join [NL] out_lines in
    Ok (if slack_wrap_codeblock
        then lit "```" ++ NL :: result ++ NL :: lit "```"
        else result)
  else if String.eqb target "Google Docs-friendly" then
    out_lines <- lines_to_gdocs d lines indent_size gdocs_bullet_symbol
                   trim_trailing_ws ;;
    Ok (Py.join [NL] out_lines)
  else if String.eqb target "Plain text" then
    out_lines <- lines_to_plain lines indent_size trim_trailing_ws ;;
    Ok (Py.join [NL] out_lines)
  else if String.eqb target "JSON outline (beta)" then
    to_json_outline d lines indent_size
  else Ok (Py.join [NL] lines).

Definition collapsed (collapse_blank_lines : bool) (result : str) : str :=
  if collapse_blank_lines
  then Re.sub BLANK_RUN_RE (fun _ => [NL; NL]) result
  else result.

Lemma convert_steps d text source target indent_size collapse_blank_lines
      trim_trailing_ws keep_code_fences slack_wrap_codeblock
      gdocs_bullet_symbol convert_smart_quotes :
  convert d text source target indent_size collapse_blank_lines
          trim_trailing_ws keep_code_fences slack_wrap_codeblock
          gdocs_bullet_symbol convert_smart_quotes
  = let pre := prepared text source convert_smart_quotes in
    let tb := if keep_code_fences then extract_code_fences pre
              else (pre, []) in
    result <- rendered d (Py.split NL (fst tb)) target indent_size
                trim_trailing_ws slack_wrap_codeblock gdocs_bullet_symbol ;;
    Ok (if keep_code_fences
        then restore_code_fences (collapsed collapse_blank_lines result)
               (snd tb)
        else collapsed collapse_blank_lines result).
Proof.
  unfold convert, prepared, rendered, collapsed. cbv zeta.
  destruct keep_code_fences; [|reflexivity].
  now destruct (extract_code_fences _).
Qed.

Lemma for_each_raises {A : Type} (body : str -> outcome (list A))
      (P : exn -> Prop) lines e :
  (forall raw e, body raw = Raise e -> P e) ->
  for_each body lines = Raise e -> P e.
Proof.
  intros H. induction lines as [|raw lines IH]; cbn [for_each];
    [discriminate|].
  destruct (body raw) as [x|e1] eqn:E; cbn [bind].
  - destruct (for_each body lines) as [xs|e2]; cbn [bind];
      [discriminate|].
    intros [= <-]. now apply IH.
  - intros [= <-]. exact (H raw e1 E).
Qed.

(** The lines that [lines_to_plain] returns when it returns. *)
Definition plain_lines (lines : list str) (indent_size : Z)
           (trim_trailing_ws : bool) : list str :=
  map (fun raw =>
         let expanded := Py.expanded indent_size raw in
         if trim_trailing_ws then Py.rstrip expanded else expanded)
      lines.

Lemma lines_to_plain_fits lines indent_size trim :
  Py.fits_int indent_size = true ->
  lines_to_plain lines indent_size trim
  = Ok (plain_lines lines indent_size trim).
Proof.
  intros Hfit. unfold lines_to_plain, plain_lines.
  induction lines as [|raw lines IH]; [reflexivity|].
  cbn [for_each map]. rewrite (Indent.expandtabs_fits _ _ Hfit).
  cbn [bind]. now rewrite IH.
Qed.

Lemma lines_to_plain_overflow lines indent_size trim :
  Py.fits_int indent_size = false -> lines <> [] ->
  lines_to_plain lines indent_size trim = Raise OverflowError.
Proof.
  intros Hfit Hne. destruct lines as [|raw lines]; [contradiction|].
  unfold lines_to_plain. cbn [for_each].
  now rewrite (Indent.expandtabs_overflow _ _ Hfit).
Qed.

(** The exceptions of the program and the indent sizes that raise them:
    a division by the indent size, and [expandtabs] with an indent size
    that does not fit a C [int]. *)
Definition raised_by (indent_size : Z) (e : exn) : Prop :=
  match e with
  | ZeroDivisionError => indent_size = 0%Z /\ Py.fits_int indent_size = true
  | OverflowError => Py.fits_int indent_size = false
  end.

Lemma split_indent_raises raw indent_size e :
  split_indent raw indent_size = Raise e -> raised_by indent_size e.
Proof.
  unfold split_indent, Py.expandtabs.
  destruct (Py.fits_int indent_size) eqn:Hfit; cbn [bind];
    [|intros [= <-]; exact Hfit].
  unfold floordiv.
  destruct (Re.re_match LEADING_WS_RE _);
    (destruct (Z.eqb indent_size 0) eqn:Hz; cbn [bind]; [|discriminate]);
    intros [= <-]; apply Z.eqb_eq in Hz; split; auto.
Qed.

(** What [rendered] raises. *)
Lemma rendered_raises d lines target indent_size trim wrap bullet e :
  rendered d lines target indent_size trim wrap bullet = Raise e ->
  raised_by indent_size e.
Proof.
  assert (Hbody : forall (A : Type) (k : Z * str -> outcome (list A))
                         (blank : list A) raw e,
             (forall lr, exists x, k lr = Ok x) ->
             (if negb (Py.truthy (Py.strip raw)) then Ok blank
              else lr <- split_indent raw indent_size ;; k lr) = Raise e ->
             raised_by indent_size e).
  { intros A k blank raw e' Hk.
    destruct (negb (Py.truthy (Py.strip raw))); [discriminate|].
    destruct (split_indent raw indent_size) as [lr|e1] eqn:E; cbn [bind].
    - destruct (Hk lr) as [x ->]. discriminate.
    - intros [= <-]. exact (split_indent_raises _ _ _ E). }
  assert (Hm : forall e, lines_to_markdown d lines indent_size trim = Raise e
                         -> raised_by indent_size e).
  { intros e'. apply for_each_raises. intros raw e1.
    apply (Hbody str
             (fun lr =>
                let (level, rest) := lr in
                let rest := unify_markers d rest in
                let line := Py.times SP (indent_size * level) ++ rest in
                let line := if trim then Py.rstrip line else line in
                Ok [line])).
    intros [l r]. eauto. }
  assert (Hg : forall e,
             lines_to_gdocs d lines indent_size bullet trim = Raise e ->
             raised_by indent_size e).
  { intros e'. apply for_each_raises. intros raw e1.
    apply (Hbody str
             (fun lr =>
                let (level, rest) := lr in
                let rest := unify_markers d rest in
                let rest :=
                  Re.sub HYPHEN_RE (fun _ => bullet_str bullet ++ [SP]) rest in
                let line := Py.times TAB level ++ rest in
                let line := if trim then Py.rstrip line else line in
                Ok [line])).
    intros [l r]. eauto. }
  assert (Ho : forall e, outline_items d lines indent_size = Raise e ->
                         raised_by indent_size e).
  { intros e'. apply for_each_raises. intros raw e1.
    apply (Hbody item
             (fun lr =>
                let (level, rest) := lr in
                let txt := unify_markers d rest in
                Ok [mkItem level txt])).
    intros [l r]. eauto. }
  assert (Hp : forall e, lines_to_plain lines indent_size trim = Raise e ->
                         raised_by indent_size e).
  { intros e'. apply for_each_raises. intros raw e1.
    unfold Py.expandtabs.
    destruct (Py.fits_int indent_size) eqn:Hfit; cbn [bind];
      [discriminate|].
    intros [= <-]. exact Hfit. }
  unfold rendered, to_json_outline.
  destruct (String.eqb target "Markdown / Obsidian").
  { destruct (lines_to_markdown d lines indent_size trim) eqn:E;
      cbn [bind]; [discriminate|]. intros [= <-]. now apply Hm. }
  destruct (String.eqb target "Slack-friendly").
  { destruct (lines_to_markdown d lines indent_size trim) eqn:E;
      cbn [bind]; [discriminate|]. intros [= <-]. now apply Hm. }
  destruct (String.eqb target "Google Docs-friendly").
  { destruct (lines_to_gdocs d lines indent_size bullet trim) eqn:E;
      cbn [bind]; [discriminate|]. intros [= <-]. now apply Hg. }
  destruct (String.eqb target "Plain text").
  { destruct (lines_to_plain lines indent_size trim) eqn:E;
      cbn [bind]; [discriminate|]. intros [= <-]. now apply Hp. }
  destruct (String.eqb target "JSON outline (beta)").
  { destruct (outline_items d lines indent_size) eqn:E;
      cbn [bind]; [discriminate|]. intros [= <-]. now apply Ho. }
  discriminate.
Qed.

(** With a non-zero indent size that fits a C [int] every target is
    rendered. *)
Lemma rendered_total d lines target indent_size trim wrap bullet :
  Py.fits_int indent_size = true -> indent_size <> 0%Z ->
  exists result,
    rendered d lines target indent_size trim wrap bullet = Ok result.
Proof.
  intros Hfit Hnz.
  destruct (rendered d lines target indent_size trim wrap bullet)
    as [result|e] eqn:E; [eauto|].
  apply rendered_raises in E. destruct e; cbn in E.
  - now destruct E.
  - congruence.
Qed.

End Pipeline.

(** * Blank runs in the output *)

Import Blank Pipeline.

(** C2, as the code has it.  With [collapse_blank_lines], when [convert]
    returns, the rendering of the lines for the target is collapsed, and
    the collapsed text holds no run of three line feeds.  Without
    [keep_code_fences] that text is the output.  With it, the fenced blocks
    are put back after the collapse: the output is
    [restore_code_fences] of that text and the extracted blocks, and
    nothing is collapsed in what is put back.  [convert] raises
    [ZeroDivisionError] for a zero indent size only, and [OverflowError]
    only for an indent size that does not fit a C [int]. *)
Theorem convert_collapses_blank_runs d (text : str)
        (source target : String.string) (indent_size : Z)
        (trim_trailing_ws keep_code_fences slack_wrap_codeblock : bool)
        (gdocs_bullet_symbol : BulletSymbol) (convert_smart_quotes : bool) :
  let pre := prepared text source convert_smart_quotes in
  let tb := if keep_code_fences then extract_code_fences pre else (pre, []) in
  match
    convert d text source target indent_size true trim_trailing_ws
            keep_code_fences slack_wrap_codeblock gdocs_bullet_symbol
            convert_smart_quotes
  with
  | Ok out =>
      exists rendering,
        rendered d (Py.split NL (fst tb)) target indent_size
                 trim_trailing_ws slack_wrap_codeblock gdocs_bullet_symbol
        = Ok rendering
        /\ let result :=
             Re.sub BLANK_RUN_RE (fun _ => [NL; NL]) rendering in
           no_blank_run result
           /\ out = if keep_code_fences
                    then restore_code_fences result (snd tb)
                    else result
  | Raise e => raised_by indent_size e
  end.
Proof.
  intros pre tb. rewrite convert_steps. cbv zeta. fold pre. fold tb.
  destruct (rendered d (Py.split NL (fst tb)) target indent_size
              trim_trailing_ws slack_wrap_codeblock gdocs_bullet_symbol)
    as [rendering|e] eqn:E; cbn [bind].
  - exists rendering. split; [reflexivity|]. unfold collapsed.
    split; [apply collapse_no_blank_run | reflexivity].
  - exact (rendered_raises _ _ _ _ _ _ _ _ E).
Qed.

(** C2 as stated fails: a fenced block with two blank lines is kept as it
    is, so the output holds three line feeds in a row. *)
Lemma convert_keeps_blank_run_in_fence :
  convert unicode_isdecimal (lit "```" ++ [NL; NL; NL] ++ lit "```")
          "Auto"%string "Plain text"%string 2 true true true false
          BulletDot true
  = Ok (lit "```" ++ [NL; NL; NL] ++ lit "```").
Proof. reflexivity. Qed.

(** * Fenced code blocks *)

Module Fences.
Import Re ReFacts Scan.

Definition fence : str := lit "```".

(** The leftmost occurrence of [w] in [s]: the text before it and the text
    behind it. *)
Fixpoint find (w s : str) : option (str * str) :=
  match Py.strip_prefix w s with
  | Some r => Some ([], r)
  | None =>
      match s with
      | [] => None
      | c :: t =>
          match find w t with
          | Some (b, a) => Some (c :: b, a)
          | None => None
          end
      end
  end.

(** [text.count("```")]: occurrences from left to right, none overlapping
    the one before; [skip] characters of the last one are still to pass. *)
Fixpoint count_from (skip : nat) (s : str) : nat :=
  match s with
  | [] => 0
  | c :: t =>
      match skip with
      | S k => count_from k t
      | O =>
          match Py.strip_prefix fence s with
          | Some _ => S (count_from 2 t)
          | None => count_from 0 t
          end
      end
  end.

Definition count_fences (s : str) : nat := count_from 0 s.

(** No match of [CODE_FENCE_RE] starts anywhere in [s]: where a fence
    starts, none follows. *)
Fixpoint unclosed (s : str) : Prop :=
  match s with
  | [] => True
  | c :: t =>
      (forall r, Py.strip_prefix fence s = Some r -> find fence r = None)
      /\ unclosed t
  end.

Lemma strip_prefix_some w s r : Py.strip_prefix w s = Some r -> s = w ++ r.
Proof.
  revert s. induction w as [|c w IH]; intros s; simpl.
  - intros H. now injection H as ->.
  - destruct s as [|x s]; [discriminate|].
    destruct (eqc c x) eqn:E; [|discriminate].
    apply eqc_eq in E as ->. intros H. now rewrite (IH _ H).
Qed.

Lemma strip_prefix_app w r : Py.strip_prefix w (w ++ r) = Some r.
Proof.
  induction w as [|c w IH]; simpl; [reflexivity|]. now rewrite eqc_refl.
Qed.

(** The first characters of a text decide whether it starts with [w]. *)
Lemma strip_prefix_long w x y :
  length w <= length x ->
  Py.strip_prefix w (x ++ y) =
  option_map (fun r => r ++ y) (Py.strip_prefix w x).
Proof.
  revert x. induction w as [|c w IH]; intros x Hl; [reflexivity|].
  destruct x as [|a x]; [simpl in Hl; lia|]. simpl.
  destruct (eqc c a); [|reflexivity]. apply IH. simpl in Hl. lia.
Qed.

Lemma text_match w prev s :
  text w prev s =
  match Py.strip_prefix w s with
  | Some r => [mkMatch w [] r]
  | None => []
  end.
Proof.
  revert prev s. induction w as [|c w IH]; intros prev s; [reflexivity|].
  cbn [text]. rewrite cat_chr. destruct s as [|x t]; [reflexivity|].
  cbn [Py.strip_prefix]. destruct (eqc c x) eqn:E; [|reflexivity].
  apply eqc_eq in E as <-. rewrite IH.
  destruct (Py.strip_prefix w t); reflexivity.
Qed.

Lemma find_some w s b a : find w s = Some (b, a) -> s = b ++ w ++ a.
Proof.
  revert b. induction s as [|c t IH]; intros b; cbn [find].
  - destruct (Py.strip_prefix w []) eqn:E; [|discriminate].
    intros H. injection H as <- <-. exact (strip_prefix_some _ _ _ E).
  - destruct (Py.strip_prefix w (c :: t)) eqn:E.
    + intros H. injection H as <- <-. exact (strip_prefix_some _ _ _ E).
    + destruct (find w t) as [[b' a']|]; [|discriminate].
      intros H. injection H as <- <-. cbn [app]. f_equal. now apply IH.
Qed.

Lemma find_tail w c t : find w (c :: t) = None -> find w t = None.
Proof.
  cbn [find]. destruct (Py.strip_prefix w (c :: t)); [discriminate|].
  now destruct (find w t) as [[? ?]|].
Qed.

(** The lazy run before a literal stops at the first occurrence of the
    literal. *)
Lemma lazy_text_first w (F : Match -> Match -> Match)
      (pv : Match -> option char) s :
  hd_error
    (flat_map (fun m1 => map (F m1) (text w (pv m1) (after m1)))
              (star_lazy any s))
  = match find w s with
    | Some (b, a) => Some (F (mkMatch b [] (w ++ a)) (mkMatch w [] a))
    | None => None
    end.
Proof.
  revert F pv. induction s as [|c t IH]; intros F pv.
  - cbn [star_lazy flat_map find after]. rewrite app_nil_r, text_match.
    destruct (Py.strip_prefix w []) as [r|] eqn:E; [|reflexivity].
    now rewrite <- (strip_prefix_some _ _ _ E).
  - cbn [star_lazy flat_map find after]. rewrite any_true, text_match.
    destruct (Py.strip_prefix w (c :: t)) as [r|] eqn:E.
    + cbn [map app hd_error].
      now rewrite <- (strip_prefix_some _ _ _ E).
    + cbn [map app]. rewrite flat_map_map.
      pose proof (IH (fun m1 => F (extend c m1))
                    (fun m1 => pv (extend c m1))) as H.
      cbv beta in H.
      destruct (find w t) as [[b a]|]; exact H.
Qed.

(** The first match of [CODE_FENCE_RE] where a text starts. *)
Lemma code_fence_first prev s :
  hd_error (CODE_FENCE_RE prev s) =
  match Py.strip_prefix fence s with
  | Some r =>
      match find fence r with
      | Some (b, a) => Some (mkMatch (fence ++ b ++ fence) [] a)
      | None => None
      end
  | None => None
  end.
Proof.
  unfold CODE_FENCE_RE. fold fence. unfold cat at 1. rewrite text_match.
  destruct (Py.strip_prefix fence s) as [r|]; [|reflexivity].
  cbn [flat_map group0 groups after]. rewrite app_nil_r, hd_error_map.
  unfold cat, many_lazy. rewrite lazy_text_first.
  now destruct (find fence r) as [[b a]|].
Qed.

Lemma sound_code_fence : sound CODE_FENCE_RE.
Proof.
  apply sound_cat; [apply sound_text|].
  apply sound_cat; [apply sound_many_lazy | apply sound_text].
Qed.

Lemma nonempty_code_fence : nonempty CODE_FENCE_RE.
Proof. apply nonempty_cat_l. apply nonempty_text. Qed.

Lemma code_fence_none prev s :
  hd_error (CODE_FENCE_RE prev s) = None -> CODE_FENCE_RE prev s = [].
Proof. now destruct (CODE_FENCE_RE prev s). Qed.

Lemma code_fence_some prev s m :
  hd_error (CODE_FENCE_RE prev s) = Some m ->
  exists tl, CODE_FENCE_RE prev s = m :: tl.
Proof.
  destruct (CODE_FENCE_RE prev s) as [|x tl]; [discriminate|].
  intros H. injection H as ->. eauto.
Qed.

(** Where no match starts, the scan copies the text. *)
Lemma scan_unclosed s :
  unclosed s -> forall prev,
  scan (S (length s)) CODE_FENCE_RE prev s = map Copied s.
Proof.
  induction s as [|c t IH]; intros Hu prev.
  - rewrite (pieces_step _ sound_code_fence nonempty_code_fence).
    now rewrite (no_match_at_end _ prev sound_code_fence nonempty_code_fence).
  - destruct Hu as [Hhere Hlater].
    rewrite (pieces_step _ sound_code_fence nonempty_code_fence).
    rewrite (code_fence_none prev (c :: t)).
    + cbn [map]. now rewrite IH.
    + rewrite code_fence_first.
      destruct (Py.strip_prefix fence (c :: t)) as [r|]; [|reflexivity].
      now rewrite (Hhere r eq_refl).
Qed.

(** Up to the first fence the scan copies; there it finds the block that
    ends with the next fence. *)
Lemma scan_block s b r1 i r2 :
  find fence s = Some (b, r1) -> find fence r1 = Some (i, r2) ->
  forall prev, exists prev',
    scan (S (length s)) CODE_FENCE_RE prev s =
    map Copied b
    ++ Matched (mkMatch (fence ++ i ++ fence) [] r2)
       :: scan (S (length r2)) CODE_FENCE_RE prev' r2.
Proof.
  intros Hs Hr. revert b Hs.
  induction s as [|c t IH]; intros b Hs prev.
  - cbn [find] in Hs.
    destruct (Py.strip_prefix fence []) eqn:E; discriminate.
  - rewrite (pieces_step _ sound_code_fence nonempty_code_fence).
    cbn [find] in Hs.
    destruct (Py.strip_prefix fence (c :: t)) as [r|] eqn:E.
    + injection Hs as <- <-.
      destruct (code_fence_some prev (c :: t)
                  (mkMatch (fence ++ i ++ fence) [] r2)) as [tl ->].
      { now rewrite code_fence_first, E, Hr. }
      cbn [map app after group0]. eauto.
    + rewrite (code_fence_none prev (c :: t))
        by now rewrite code_fence_first, E.
      destruct (find fence t) as [[b' a']|] eqn:Ft; [|discriminate].
      injection Hs as <- <-.
      destruct (IH b' eq_refl (Some c)) as [prev' ->].
      cbn [map app]. eauto.
Qed.

(** [CODE_FENCE_RE] has no assertion: the character before the place where
    it is tried does not matter. *)
Lemma code_fence_prev p1 p2 s : CODE_FENCE_RE p1 s = CODE_FENCE_RE p2 s.
Proof.
  unfold CODE_FENCE_RE, cat, many_lazy.
  rewrite (text_match _ p1), (text_match _ p2).
  apply flat_map_ext. intros m1. apply f_equal.
  apply flat_map_ext. intros m2. apply f_equal.
  now rewrite !text_match.
Qed.

Lemma scan_prev n p1 p2 s :
  scan n CODE_FENCE_RE p1 s = scan n CODE_FENCE_RE p2 s.
Proof.
  revert p1 p2 s. induction n as [|n IH]; intros p1 p2 s; [reflexivity|].
  rewrite !scan_S, (code_fence_prev p1 p2).
  destruct (CODE_FENCE_RE p2 s) as [|m tl].
  - destruct s as [|c t]; reflexivity.
  - destruct (group0 m); reflexivity.
Qed.

(** [extract_code_fences] with the dictionary [st] built so far. *)
Definition extract_from (st : dict) (s : str) : str * dict :=
  emit _repl st (scan (S (length s)) CODE_FENCE_RE None s).

Lemma extract_from_start text :
  extract_code_fences text = extract_from [] text.
Proof. reflexivity. Qed.

Lemma emit_copied (st : dict) s ps :
  emit _repl st (map Copied s ++ ps) =
  let (out, st') := emit _repl st ps in (s ++ out, st').
Proof.
  induction s as [|c s IH]; cbn [map app emit].
  - now destruct (emit _repl st ps).
  - rewrite IH. now destruct (emit _repl st ps).
Qed.

Lemma extract_unclosed st s : unclosed s -> extract_from st s = (s, st).
Proof.
  intros H. unfold extract_from. rewrite (scan_unclosed s H).
  rewrite <- (app_nil_r (map Copied s)), emit_copied. cbn [emit].
  now rewrite app_nil_r.
Qed.

(** The first block is replaced by the next placeholder and recorded; the
    scan resumes behind it. *)
Lemma extract_block st s b r1 i r2 :
  find fence s = Some (b, r1) -> find fence r1 = Some (i, r2) ->
  extract_from st s =
  let key := placeholder (length st) in
  let (out, st') :=
    extract_from (dict_set st key (fence ++ i ++ fence)) r2 in
  (b ++ key ++ out, st').
Proof.
  intros Hs Hr. unfold extract_from.
  destruct (scan_block s b r1 i r2 Hs Hr None) as [prev' ->].
  rewrite emit_copied. cbn [emit _repl group nth group0].
  rewrite (scan_prev _ prev' None).
  now destruct (emit _repl _ _).
Qed.

Lemma find_here w s r :
  Py.strip_prefix w s = Some r -> find w s = Some ([], r).
Proof. intros H. destruct s; cbn [find]; now rewrite H. Qed.

Lemma strip_prefix_mono w x y r :
  Py.strip_prefix w x = Some r -> Py.strip_prefix w (x ++ y) = Some (r ++ y).
Proof.
  revert x. induction w as [|c w IH]; intros x; simpl.
  - intros H. now injection H as ->.
  - destruct x as [|a x]; [discriminate|]. simpl.
    destruct (eqc c a); [apply IH | discriminate].
Qed.

(** Where the first occurrence lies does not depend on what follows it. *)
Lemma find_change_tail w s b a a' :
  find w s = Some (b, a) -> find w (b ++ w ++ a') = Some (b, a').
Proof.
  revert b. induction s as [|c t IH]; intros b; cbn [find].
  - destruct (Py.strip_prefix w []); [|discriminate].
    intros H. injection H as <- <-. cbn [app].
    apply find_here, strip_prefix_app.
  - destruct (Py.strip_prefix w (c :: t)) eqn:E.
    + intros H. injection H as <- <-. cbn [app].
      apply find_here, strip_prefix_app.
    + destruct (find w t) as [[b' a0]|] eqn:Ft; [|discriminate].
      intros H. injection H as <- <-.
      pose proof (find_some _ _ _ _ Ft) as Et.
      assert (Hl : length w <= length (c :: b' ++ w))
        by (simpl; rewrite length_app; lia).
      assert (N1 : Py.strip_prefix w (c :: b' ++ w) = None).
      { pose proof (strip_prefix_long w (c :: b' ++ w) a0 Hl) as L.
        cbn [app] in L. rewrite <- app_assoc, <- Et, E in L.
        now destruct (Py.strip_prefix w (c :: b' ++ w)). }
      pose proof (strip_prefix_long w (c :: b' ++ w) a' Hl) as L.
      rewrite N1 in L. cbn [app option_map] in L. rewrite <- app_assoc in L.
      cbn [app find]. rewrite L, (IH b' eq_refl). reflexivity.
Qed.

Lemma find_before w s b a :
  w <> [] -> find w s = Some (b, a) -> find w b = None.
Proof.
  intros Hw. revert b. induction s as [|c t IH]; intros b; cbn [find].
  - destruct (Py.strip_prefix w []); [|discriminate].
    intros H. injection H as <- <-. destruct w; [contradiction|reflexivity].
  - destruct (Py.strip_prefix w (c :: t)) eqn:E.
    + intros H. injection H as <- <-.
      destruct w; [contradiction|reflexivity].
    + destruct (find w t) as [[b' a0]|] eqn:Ft; [|discriminate].
      intros H. injection H as <- <-. cbn [find].
      rewrite (IH b' eq_refl).
      destruct (Py.strip_prefix w (c :: b')) as [r|] eqn:E'; [|reflexivity].
      apply (strip_prefix_mono _ _ (w ++ a0)) in E'.
      cbn [app] in E'. rewrite <- (find_some _ _ _ _ Ft) in E'. congruence.
Qed.

Lemma unclosed_nofence s : find fence s = None -> unclosed s.
Proof.
  induction s as [|c t IH]; [exact (fun _ => I)|].
  intros H. split.
  - intros r E. rewrite (find_here _ _ _ E) in H. discriminate.
  - apply IH. exact (find_tail _ _ _ H).
Qed.

Lemma unclosed_fence r : find fence r = None -> unclosed (fence ++ r).
Proof.
  intros H. change (fence ++ r) with (96%N :: 96%N :: 96%N :: r).
  repeat split.
  - intros r' E. change (96%N :: 96%N :: 96%N :: r) with (fence ++ r) in E.
    rewrite strip_prefix_app in E. now injection E as <-.
  - intros r' E. apply strip_prefix_some in E. injection E as ->.
    exact (find_tail _ _ _ H).
  - intros r' E. apply strip_prefix_some in E. injection E as ->.
    exact (find_tail _ _ _ (find_tail _ _ _ H)).
  - now apply unclosed_nofence.
Qed.

Lemma unclosed_before s b r :
  find fence s = Some (b, r) -> unclosed (fence ++ r) -> unclosed s.
Proof.
  intros Hs Hu. revert b Hs. induction s as [|c t IH]; intros b; [easy|].
  cbn [find]. destruct (Py.strip_prefix fence (c :: t)) as [r'|] eqn:E.
  - intros H. injection H as <- <-.
    now rewrite (strip_prefix_some _ _ _ E).
  - destruct (find fence t) as [[b' a0]|] eqn:Ft; [|discriminate].
    intros H. injection H as <- <-.
    split; [intros r0 H0; congruence | eauto].
Qed.

Lemma count_find s :
  count_fences s =
  match find fence s with
  | Some (_, a) => S (count_fences a)
  | None => 0
  end.
Proof.
  unfold count_fences. induction s as [|c t IH]; [reflexivity|].
  cbn [count_from find].
  destruct (Py.strip_prefix fence (c :: t)) as [r|] eqn:E.
  - apply strip_prefix_some in E. injection E as -> ->. reflexivity.
  - rewrite IH. now destruct (find fence t) as [[b a]|].
Qed.

(** Behind the fences that pair up, an odd count leaves one fence and no
    other behind it; the scan copies both. *)
Lemma odd_count_last_fence s :
  Nat.odd (count_fences s) = true ->
  exists head tail,
    s = head ++ fence ++ tail
    /\ find fence tail = None
    /\ forall st,
         extract_from st s =
         let (out, st') := extract_from st head in
         (out ++ fence ++ tail, st').
Proof.
  remember (length s) as n eqn:Hn. revert s Hn.
  induction n as [n IH] using lt_wf_ind. intros s -> Hodd.
  rewrite count_find in Hodd.
  destruct (find fence s) as [[b r1]|] eqn:Hs; [|discriminate].
  rewrite Nat.odd_succ, count_find in Hodd.
  pose proof (find_some _ _ _ _ Hs) as Es.
  destruct (find fence r1) as [[i r2]|] eqn:Hr.
  - rewrite Nat.even_succ in Hodd.
    pose proof (find_some _ _ _ _ Hr) as Er.
    destruct (IH (length r2)) with (s := r2)
      as (head & tail & E2 & Hnone & Hext); [|reflexivity|exact Hodd|].
    { rewrite Es, Er, !length_app. simpl. lia. }
    exists (b ++ fence ++ i ++ fence ++ head), tail.
    split; [|split; [exact Hnone|]].
    + rewrite Es, Er, E2. now rewrite <- !app_assoc.
    + intros st.
      rewrite (extract_block st s b r1 i r2 Hs Hr).
      rewrite (extract_block st (b ++ fence ++ i ++ fence ++ head) b
                 (i ++ fence ++ head) i head
                 (find_change_tail _ _ _ _ _ Hs)
                 (find_change_tail _ _ _ _ _ Hr)).
      cbv zeta. rewrite Hext.
      destruct (extract_from _ head) as [out st'].
      now rewrite <- !app_assoc.
  - exists b, r1. split; [exact Es|]. split; [exact Hr|].
    intros st.
    rewrite (extract_unclosed st s)
      by (apply (unclosed_before s b r1 Hs), unclosed_fence, Hr).
    rewrite (extract_unclosed st b)
      by (apply unclosed_nofence, (find_before fence s b r1);
          [discriminate | exact Hs]).
    now rewrite Es.
Qed.

End Fences.

(** With a non-zero indent size that fits a C [int], [convert] raises
    nothing. *)
Lemma convert_total d text source target indent_size collapse trim keep wrap
      bullet quotes :
  Py.fits_int indent_size = true -> indent_size <> 0%Z ->
  exists out,
    convert d text source target indent_size collapse trim keep wrap bullet
            quotes = Ok out.
Proof.
  intros Hfit H. rewrite convert_steps. cbv zeta.
  set (tb := if keep then _ else _).
  destruct (rendered_total d (Py.split NL (fst tb)) target indent_size trim
              wrap bullet Hfit H) as [result ->].
  cbn [bind]. eauto.
Qed.

(** [convert] raises what the rendering raises. *)
Lemma convert_raise_rendered d text source target indent_size collapse trim
      (keep : bool) wrap bullet quotes e :
  let pre := prepared text source quotes in
  let body := if keep then fst (extract_code_fences pre) else pre in
  convert d text source target indent_size collapse trim keep wrap bullet
          quotes = Raise e
  <-> rendered d (Py.split NL body) target indent_size trim wrap bullet
      = Raise e.
Proof.
  intros pre body. rewrite convert_steps. cbv zeta. fold pre.
  replace (fst (if keep then extract_code_fences pre else (pre, [])))
    with body by (subst body; now destruct keep).
  destruct (rendered d (Py.split NL body) target indent_size trim wrap
              bullet) as [result|e1]; cbn [bind];
    split; (discriminate || (intros [= <-]; reflexivity)).
Qed.

(** * The unterminated fence *)

Import Fences.

(** C9.  In a text with an odd number of fences (counted as
    [text.count] does), [extract_code_fences] leaves the last fence and all
    that follows it as they are: the text it returns ends with them, and
    its placeholders and blocks are those of the text before that fence.
    The lines of that fence and of what follows it go through the
    line-level processing with the other lines: where the text is what
    [convert] hands to the extraction (the prepared text of a document,
    with [keep_code_fences]), the output is the rendering of the lines of
    the returned text for the target, collapsed as asked, with the blocks
    of the text before the fence put back.  Nothing is raised for it: with
    a non-zero indent size that fits a C [int], [convert] returns a result
    for such a text, whatever the options. *)
Theorem unterminated_fence_is_left d (text : str) :
  Nat.odd (count_fences text) = true ->
  exists head tail,
    text = head ++ fence ++ tail
    /\ count_fences tail = 0
    /\ extract_code_fences text =
       (fst (extract_code_fences head) ++ fence ++ tail,
        snd (extract_code_fences head))
    /\ (forall doc source target indent_size collapse trim wrap bullet
               quotes,
          prepared doc source quotes = text ->
          Py.fits_int indent_size = true -> indent_size <> 0%Z ->
          exists rendering,
            rendered d
              (Py.split NL (fst (extract_code_fences head) ++ fence ++ tail))
              target indent_size trim wrap bullet
            = Ok rendering
            /\ convert d doc source target indent_size collapse trim true
                       wrap bullet quotes
               = Ok (restore_code_fences (collapsed collapse rendering)
                       (snd (extract_code_fences head))))
    /\ (forall source target indent_size collapse trim keep wrap bullet
               quotes,
          Py.fits_int indent_size = true -> indent_size <> 0%Z ->
          exists out,
            convert d text source target indent_size collapse trim keep wrap
                    bullet quotes = Ok out).
Proof.
  intros Hodd.
  destruct (odd_count_last_fence text Hodd)
    as (head & tail & E & Hnone & Hext).
  assert (X : extract_code_fences text =
              (fst (extract_code_fences head) ++ fence ++ tail,
               snd (extract_code_fences head))).
  { rewrite (extract_from_start text), (extract_from_start head), Hext.
    destruct (extract_from [] head); reflexivity. }
  exists head, tail. split; [exact E|]. split; [|split; [exact X|split]].
  - rewrite count_find, Hnone. reflexivity.
  - intros doc source target indent_size collapse trim wrap bullet quotes
           Hdoc Hfit Hnz.
    rewrite convert_steps. cbv zeta. rewrite Hdoc, X. cbn [fst snd].
    destruct (rendered_total d
                (Py.split NL
                   (fst (extract_code_fences head) ++ fence ++ tail))
                target indent_size trim wrap bullet Hfit Hnz)
      as [rendering R].
    exists rendering. split; [exact R|]. now rewrite R.
  - intros. now apply convert_total.
Qed.

Lemma unterminated_fence_is_left_witness :
  exists head tail,
    lit "a ```b``` c ```d" = head ++ fence ++ tail
    /\ count_fences tail = 0
    /\ extract_code_fences (lit "a ```b``` c ```d") =
       (fst (extract_code_fences head) ++ fence ++ tail,
        snd (extract_code_fences head))
    /\ exists rendering,
         rendered unicode_isdecimal
           (Py.split NL (fst (extract_code_fences head) ++ fence ++ tail))
           "Markdown / Obsidian"%string 2 true false BulletDot
         = Ok rendering
         /\ convert unicode_isdecimal (lit "a ```b``` c ```d") "Auto"%string
                    "Markdown / Obsidian"%string 2 true true true false
                    BulletDot true
            = Ok (restore_code_fences (collapsed true rendering)
                    (snd (extract_code_fences head))).
Proof.
  destruct (unterminated_fence_is_left unicode_isdecimal
              (lit "a ```b``` c ```d") eq_refl)
    as (head & tail & E & C & X & H & _).
  exists head, tail. split; [exact E|]. split; [exact C|].
  split; [exact X|].
  apply (H (lit "a ```b``` c ```d") "Auto"%string
           "Markdown / Obsidian"%string 2%Z true true false BulletDot true);
    [reflexivity | reflexivity | discriminate].
Defined.

(** * The JSON outline *)

Module Outline.
Import Runs Blank Pipeline.

(** A text without line feed. *)
Definition free (s : str) : bool := forallb (fun c => negb (is_nl c)) s.

Lemma runs_ok_le k k' s :
  k <= k' -> runs_ok k' s = true -> runs_ok k s = true.
Proof.
  revert k k'. induction s as [|c t IH]; intros k k' Hk; [reflexivity|].
  cbn [runs_ok]. destruct (is_nl c); [|auto].
  rewrite !andb_true_iff, !Nat.ltb_lt. intros [H1 H2].
  split; [lia|]. apply (IH (S k) (S k')); [lia | exact H2].
Qed.












Lemma split_no_sep s l : In l (Py.split NL s) -> mem NL l = false.
Proof.
  revert l. induction s as [|x t IH]; intros l; cbn [Py.split].
  - intros [<- | []]. reflexivity.
  - destruct (eqc x NL) eqn:Hx.
    + intros [<- | H]; [reflexivity | auto].
    + assert (Hx' : eqc NL x = false) by now rewrite Indent.eqc_sym.
      destruct (Py.split NL t) as [|l0 ls].
      * intros [<- | []]. rewrite Indent.mem_cons, Hx'. reflexivity.
      * intros [<- | H].
        -- rewrite Indent.mem_cons, Hx'. apply IH. now left.
        -- apply IH. now right.
Qed.

End Outline.

(** The level and the rest of a line, by its leading columns. *)
Lemma split_indent_columns raw indent_size :
  (0 < indent_size)%Z -> Py.fits_int indent_size = true ->
  mem NL raw = false ->
  split_indent raw indent_size =
  Ok ((leading_columns indent_size raw / indent_size)%Z,
      Py.drop_while space_or_tab (Py.expanded indent_size raw)).
Proof.
  intros Hpos Hfit Hraw.
  rewrite (Indent.split_indent_line raw indent_size) by (lia || assumption).
  unfold leading_columns.
  now rewrite (Indent.spaces_only (Py.expanded indent_size raw)
                 (Indent.expandtabs_no_tab indent_size raw Hpos 0%Z)).
Qed.

(** A line that is not blank. *)
Definition content_bearing (raw : str) : bool := Py.truthy (Py.strip raw).

(** The record of a content-bearing line: its level, and as text the line
    behind its leading spaces and tabs, with the marker unified. *)
Definition record d (indent_size : Z) (raw : str) : item :=
  mkItem (leading_columns indent_size raw / indent_size)
         (unify_markers d
            (Py.drop_while space_or_tab (Py.expanded indent_size raw))).

Lemma outline_items_records d lines indent_size :
  (0 < indent_size)%Z -> Py.fits_int indent_size = true ->
  (forall l, In l lines -> mem NL l = false) ->
  outline_items d lines indent_size =
  Ok (map (record d indent_size) (filter content_bearing lines)).
Proof.
  intros Hpos Hfit. unfold outline_items.
  induction lines as [|raw lines IH]; intros Hl; [reflexivity|].
  cbn [for_each filter]. unfold content_bearing at 1.
  rewrite IH by (intros l H; apply Hl; now right).
  destruct (Py.truthy (Py.strip raw)); cbn [negb bind]; [|reflexivity].
  rewrite (split_indent_columns raw indent_size Hpos Hfit
             (Hl raw (or_introl eq_refl))).
  reflexivity.
Qed.

(** * The JSON outline of a document *)




(** * Occurrences of a text in another *)

Module Occurs.
Import Runs Fences.

(** [w] occurs in [s]. *)
Definition occurs (w s : str) : Prop := exists a b, s = a ++ w ++ b.

Definition contains (w s : str) : bool :=
  match find w s with Some _ => true | None => false end.

Lemma occurs_here w b : occurs w (w ++ b).
Proof. now exists [], b. Qed.

Lemma occurs_refl w : occurs w w.
Proof. exists [], []. now rewrite app_nil_r. Qed.

Lemma occurs_cons w c s : occurs w s -> occurs w (c :: s).
Proof. intros (a & b & ->). now exists (c :: a), b. Qed.

Lemma occurs_app_r w x s : occurs w s -> occurs w (x ++ s).
Proof.
  intros (a & b & ->). exists (x ++ a), b. now rewrite <- app_assoc.
Qed.

Lemma occurs_app_l w s y : occurs w s -> occurs w (s ++ y).
Proof.
  intros (a & b & ->). exists a, (b ++ y). now rewrite <- !app_assoc.
Qed.

Lemma occurs_trans u w s : occurs u w -> occurs w s -> occurs u s.
Proof.
  intros (a & b & ->) Hs. destruct Hs as (a' & b' & ->).
  exists (a' ++ a), (b ++ b'). now rewrite <- !app_assoc.
Qed.

Lemma occurs_nil w : w <> [] -> ~ occurs w [].
Proof.
  intros Hw (a & b & E). symmetry in E.
  apply app_eq_nil in E as [_ E]. apply app_eq_nil in E as [E _].
  contradiction.
Qed.

Lemma contains_occurs w s : contains w s = true -> occurs w s.
Proof.
  unfold contains. destruct (find w s) as [[b a]|] eqn:E; [|discriminate].
  intros _. exists b, a. exact (find_some _ _ _ _ E).
Qed.

Lemma occurs_contains w s : occurs w s -> contains w s = true.
Proof.
  intros (a & b & ->). unfold contains.
  induction a as [|c a IH].
  - cbn [app]. now rewrite (find_here _ _ _ (strip_prefix_app w b)).
  - cbn [app find].
    destruct (Py.strip_prefix w (c :: a ++ w ++ b)); [reflexivity|].
    destruct (find w (a ++ w ++ b)) as [[? ?]|]; [reflexivity|discriminate].
Qed.

Lemma not_contains w s : contains w s = false -> ~ occurs w s.
Proof.
  intros H Ho. apply occurs_contains in Ho. congruence.
Qed.

(** A text that starts a longer one and lacks [c] ends before [c]. *)
Lemma prefix_before w b x c y :
  mem c w = false -> w ++ b = x ++ c :: y -> exists x2, x = w ++ x2.
Proof.
  revert x. induction w as [|e w IH]; intros x Hc E; [now exists x|].
  rewrite Indent.mem_cons in Hc. apply orb_false_iff in Hc as [Hce Hc].
  destruct x as [|e' x]; cbn [app] in E.
  - injection E as -> _. rewrite eqc_refl in Hce. discriminate.
  - injection E as <- E. destruct (IH x Hc E) as [x2 ->]. now exists x2.
Qed.

(** An occurrence does not reach over a character that the text lacks. *)
Lemma occurs_split w x c y :
  mem c w = false -> occurs w (x ++ c :: y) -> occurs w x \/ occurs w y.
Proof.
  intros Hc (a & b & E). revert a E.
  induction x as [|e x IH]; intros a E.
  - destruct a as [|e' a]; cbn [app] in E.
    + destruct w as [|e' w]; [left; apply occurs_refl|].
      cbn [app] in E. injection E as -> _.
      rewrite Indent.mem_cons, eqc_refl in Hc. discriminate.
    + injection E as _ ->. right. now exists a, b.
  - destruct a as [|e' a]; cbn [app] in E.
    + symmetry in E. change (e :: x ++ c :: y) with ((e :: x) ++ c :: y) in E.
      destruct (prefix_before w b (e :: x) c y Hc E) as [x2 ->].
      left. apply occurs_here.
    + injection E as _ E. destruct (IH a E) as [H | H].
      * left. now apply occurs_cons.
      * now right.
Qed.

Lemma occurs_skip w c s :
  w <> [] -> mem c w = false -> occurs w (c :: s) -> occurs w s.
Proof.
  intros Hw Hc H. destruct (occurs_split w [] c s Hc H) as [H' | H'];
    [|exact H'].
  now apply occurs_nil in H'.
Qed.

(** An occurrence lies behind leading characters that the text lacks. *)
Lemma occurs_drop_while (p : char -> bool) w s :
  w <> [] -> (forall c, p c = true -> mem c w = false) ->
  occurs w s -> occurs w (Py.drop_while p s).
Proof.
  intros Hw Hp. induction s as [|c s IH]; intros H; [exact H|].
  cbn [Py.drop_while]. destruct (p c) eqn:E; [|exact H].
  apply IH. exact (occurs_skip w c s Hw (Hp c E) H).
Qed.

(** All characters of a text that occurs in [s] are characters of [s]. *)
Lemma occurs_forallb (p : char -> bool) w s :
  occurs w s -> forallb p s = true -> forallb p w = true.
Proof.
  intros (a & b & ->). rewrite !forallb_app, !andb_true_iff. tauto.
Qed.

Lemma mem_forallb (p : char -> bool) c w :
  forallb p w = true -> p c = false -> mem c w = false.
Proof.
  intros Hw Hc. induction w as [|e w IH]; [reflexivity|].
  cbn [forallb] in Hw. apply andb_true_iff in Hw as [He Hw].
  rewrite Indent.mem_cons, (IH Hw), orb_false_r.
  apply eqc_neq. intros ->. congruence.
Qed.

End Occurs.
(** * Lines *)

Module Lines.
Import Runs Occurs.

Lemma split_cons c s : exists l ls, Py.split c s = l :: ls.
Proof.
  induction s as [|x t (l & ls & IH)]; cbn [Py.split]; [eauto|].
  destruct (eqc x c); [eauto|]. rewrite IH. eauto.
Qed.

Lemma join_cons sep p q ps :
  Py.join sep (p :: q :: ps) = p ++ sep ++ Py.join sep (q :: ps).
Proof. reflexivity. Qed.

(** [sep.join(s.split(sep)) == s] *)
Lemma join_split c s : Py.join [c] (Py.split c s) = s.
Proof.
  induction s as [|x t IH]; [reflexivity|]. cbn [Py.split].
  destruct (split_cons c t) as (l & ls & E). rewrite E in IH |- *.
  destruct (eqc x c) eqn:Hx.
  - apply eqc_eq in Hx as ->. rewrite join_cons, IH. reflexivity.
  - destruct ls as [|l2 ls].
    + cbn [Py.join] in IH |- *. now rewrite IH.
    + rewrite join_cons in IH |- *. cbn [app] in IH |- *. now rewrite IH.
Qed.

(** A text without the separator that occurs in the joined lines occurs in
    one of them. *)
Lemma occurs_join_inv w c ls :
  w <> [] -> mem c w = false ->
  occurs w (Py.join [c] ls) -> exists l, In l ls /\ occurs w l.
Proof.
  intros Hw Hc. induction ls as [|l ls IH]; intros H.
  - now apply occurs_nil in H.
  - destruct ls as [|l2 ls].
    + exists l. split; [now left | exact H].
    + rewrite join_cons in H. cbn [app] in H.
      destruct (occurs_split w l c _ Hc H) as [H' | H'].
      * exists l. split; [now left | exact H'].
      * destruct (IH H') as (l' & Hin & Ho).
        exists l'. split; [now right | exact Ho].
Qed.

Lemma occurs_join w sep l ls :
  In l ls -> occurs w l -> occurs w (Py.join sep ls).
Proof.
  intros Hin Ho. induction ls as [|p ls IH]; [destruct Hin|].
  destruct ls as [|q ls].
  - destruct Hin as [<- | []]. exact Ho.
  - rewrite join_cons. destruct Hin as [<- | Hin].
    + now apply occurs_app_l.
    + apply occurs_app_r, occurs_app_r. now apply IH.
Qed.

(** What a round of the loop appends is part of the result. *)
Lemma for_each_in {A : Type} (body : str -> outcome (list A)) lines outs raw x :
  for_each body lines = Ok outs -> In raw lines -> body raw = Ok x ->
  incl x outs.
Proof.
  revert outs. induction lines as [|l lines IH]; intros outs H Hin Hx;
    [destruct Hin|].
  cbn [for_each] in H.
  destruct (body l) as [y|] eqn:El; [|discriminate]. cbn [bind] in H.
  destruct (for_each body lines) as [ys|] eqn:Els; [|discriminate].
  cbn [bind] in H. injection H as <-.
  destruct Hin as [-> | Hin].
  - rewrite El in Hx. injection Hx as ->. now apply incl_appl.
  - apply incl_appr. now apply (IH ys).
Qed.

(** [rstrip] keeps all up to a character that is no whitespace. *)
Lemma drop_while_stop_at (p : char -> bool) u c v :
  p c = false ->
  Py.drop_while p (u ++ c :: v) = Py.drop_while p u ++ c :: v.
Proof.
  intros Hc. induction u as [|e u IH]; cbn [app Py.drop_while].
  - now rewrite Hc.
  - destruct (p e); [exact IH | reflexivity].
Qed.

Lemma rstrip_keeps x c y :
  Py.isspace c = false -> Py.rstrip (x ++ c :: y) = x ++ c :: Py.rstrip y.
Proof.
  intros Hc. unfold Py.rstrip.
  rewrite rev_app_distr. cbn [rev]. rewrite <- app_assoc. cbn [app].
  rewrite (drop_while_stop_at Py.isspace (rev y) c (rev x) Hc).
  rewrite rev_app_distr. cbn [rev]. rewrite rev_involutive.
  now rewrite <- app_assoc.
Qed.

Lemma lstrip_keeps x c y :
  Py.isspace c = false ->
  Py.lstrip (x ++ c :: y) = Py.lstrip x ++ c :: y.
Proof. apply drop_while_stop_at. Qed.

(** [expandtabs] copies a text without tab. *)
Lemma expandtabs_app tabsize x y col :
  exists col',
    Py.expandtabs_from tabsize col (x ++ y) =
    Py.expandtabs_from tabsize col x ++ Py.expandtabs_from tabsize col' y.
Proof.
  revert col. induction x as [|c x IH]; intros col; [now exists col|].
  cbn [app Py.expandtabs_from].
  destruct (eqc c TAB).
  - destruct (Z.ltb 0 tabsize).
    + destruct (IH (col + (tabsize - col mod tabsize))%Z) as [col' ->].
      exists col'. now rewrite <- app_assoc.
    + apply IH.
  - destruct (IH (if (eqc c NL || eqc c CR)%bool then 0%Z else (col + 1)%Z))
      as [col' ->].
    now exists col'.
Qed.

Lemma expandtabs_copy tabsize w col :
  mem TAB w = false -> Py.expandtabs_from tabsize col w = w.
Proof.
  revert col. induction w as [|c w IH]; intros col H; [reflexivity|].
  rewrite Indent.mem_cons in H. apply orb_false_iff in H as [Hc Hw].
  cbn [Py.expandtabs_from]. rewrite Indent.eqc_sym, Hc. now rewrite IH.
Qed.

Lemma occurs_expandtabs tabsize w s :
  mem TAB w = false -> occurs w s -> occurs w (Py.expanded tabsize s).
Proof.
  intros Hw (a & b & ->). unfold Py.expanded.
  destruct (expandtabs_app tabsize a (w ++ b) 0%Z) as [c1 ->].
  destruct (expandtabs_app tabsize w b c1) as [c2 ->].
  rewrite (expandtabs_copy tabsize w c1 Hw).
  apply occurs_app_r, occurs_here.
Qed.

End Lines.
(** * [str.replace] *)

Module Replace.
Import Runs Fences Occurs.

Lemma strip_prefix_shorter old s r :
  old <> [] -> Py.strip_prefix old s = Some r -> length r < length s.
Proof.
  intros Ho H. apply strip_prefix_some in H as ->.
  rewrite length_app. destruct old; [contradiction|]. simpl. lia.
Qed.

(** With fuel above the length of the text, the scan does not depend on
    the fuel. *)
Lemma replace_scan_fuel old new :
  old <> [] ->
  forall n m s,
    length s < n -> length s < m ->
    Py.replace_scan n old new s = Py.replace_scan m old new s.
Proof.
  intros Ho n. induction n as [|n IH]; intros m s Hn Hm; [lia|].
  destruct m as [|m]; [lia|]. cbn [Py.replace_scan].
  destruct (Py.strip_prefix old s) as [r|] eqn:E.
  - pose proof (strip_prefix_shorter old s r Ho E) as Hr.
    f_equal. apply IH; lia.
  - destruct s as [|c t]; [reflexivity|]. simpl in Hn, Hm.
    f_equal. apply IH; lia.
Qed.

Lemma replace_scan_S n old new s :
  Py.replace_scan (S n) old new s =
  match Py.strip_prefix old s with
  | Some rest => new ++ Py.replace_scan n old new rest
  | None =>
      match s with
      | [] => []
      | c :: t => c :: Py.replace_scan n old new t
      end
  end.
Proof. reflexivity. Qed.

(** [replace], one step at a time. *)
Lemma replace_step old new s :
  old <> [] ->
  Py.replace old new s =
  match Py.strip_prefix old s with
  | Some r => new ++ Py.replace old new r
  | None =>
      match s with
      | [] => []
      | c :: t => c :: Py.replace old new t
      end
  end.
Proof.
  intros Ho. unfold Py.replace. destruct old as [|o old]; [contradiction|].
  rewrite (replace_scan_S (length s)).
  destruct (Py.strip_prefix (o :: old) s) as [r|] eqn:E.
  - pose proof (strip_prefix_shorter _ s r Ho E) as Hr.
    f_equal. apply (replace_scan_fuel _ new Ho); lia.
  - destruct s as [|c t]; reflexivity.
Qed.

Lemma occurs_cons_inv w c t :
  occurs w (c :: t) ->
  (exists r, Py.strip_prefix w (c :: t) = Some r) \/ occurs w t.
Proof.
  intros (a & b & E). destruct a as [|e a]; cbn [app] in E.
  - left. exists b. rewrite E. apply strip_prefix_app.
  - injection E as _ ->. right. now exists a, b.
Qed.

(** Where [old] occurs, the result holds [new]. *)
Lemma replace_occurs old new s :
  old <> [] -> occurs old s -> occurs new (Py.replace old new s).
Proof.
  intros Ho. induction s as [|c t IH]; intros H.
  - now apply occurs_nil in H.
  - rewrite (replace_step old new _ Ho).
    destruct (Py.strip_prefix old (c :: t)) as [r|] eqn:E.
    + apply occurs_here.
    + apply occurs_cons. apply IH.
      destruct (occurs_cons_inv _ _ _ H) as [[r E'] | H']; [congruence|].
      exact H'.
Qed.

(** Where [old] does not occur, nothing changes. *)
Lemma replace_absent old new s :
  old <> [] -> ~ occurs old s -> Py.replace old new s = s.
Proof.
  intros Ho. induction s as [|c t IH]; intros H;
    rewrite (replace_step old new _ Ho).
  - destruct (Py.strip_prefix old []) as [r|] eqn:E; [|reflexivity].
    exfalso. apply H. apply strip_prefix_some in E. rewrite E.
    apply occurs_here.
  - destruct (Py.strip_prefix old (c :: t)) as [r|] eqn:E.
    + exfalso. apply H. apply strip_prefix_some in E. rewrite E.
      apply occurs_here.
    + f_equal. apply IH. intros Ht. apply H. now apply occurs_cons.
Qed.

(** A text without [q] does not start over a [q]. *)
Lemma strip_prefix_barrier k x q y :
  mem q k = false ->
  Py.strip_prefix k (x ++ q :: y) =
  option_map (fun r => r ++ q :: y) (Py.strip_prefix k x).
Proof.
  revert x. induction k as [|c k IH]; intros x Hq; [reflexivity|].
  rewrite Indent.mem_cons in Hq. apply orb_false_iff in Hq as [Hc Hq].
  destruct x as [|a x]; cbn [app Py.strip_prefix].
  - now rewrite Indent.eqc_sym, Hc.
  - destruct (eqc c a); [now apply IH | reflexivity].
Qed.

(** A character that [old] lacks splits the text for [replace]. *)
Lemma replace_barrier old new q x y :
  old <> [] -> mem q old = false ->
  Py.replace old new (x ++ q :: y) =
  Py.replace old new x ++ q :: Py.replace old new y.
Proof.
  intros Ho Hq. remember (length x) as n eqn:Hn. revert x Hn.
  induction n as [n IH] using lt_wf_ind. intros x ->.
  rewrite (replace_step old new (x ++ q :: y) Ho).
  rewrite (replace_step old new x Ho).
  rewrite (strip_prefix_barrier old x q y Hq).
  destruct (Py.strip_prefix old x) as [r|] eqn:E; cbn [option_map].
  - rewrite (IH (length r) (strip_prefix_shorter old x r Ho E) r eq_refl).
    now rewrite <- app_assoc.
  - destruct x as [|c x]; cbn [app]; [reflexivity|].
    f_equal. apply (IH (length x)); [simpl; lia | reflexivity].
Qed.

(** A text between two [q] that holds no [old] is kept where it occurs. *)
Lemma replace_keeps_enclosed old new q mid s :
  old <> [] -> mem q old = false -> ~ occurs old mid ->
  occurs (q :: mid ++ [q]) s ->
  occurs (q :: mid ++ [q]) (Py.replace old new s).
Proof.
  intros Ho Hq Hmid (a & b & ->).
  change (a ++ (q :: mid ++ [q]) ++ b) with (a ++ q :: (mid ++ [q]) ++ b).
  rewrite <- app_assoc. cbn [app].
  rewrite (replace_barrier old new q a _ Ho Hq).
  rewrite (replace_barrier old new q mid b Ho Hq).
  rewrite (replace_absent old new mid Ho Hmid).
  exists (Py.replace old new a), (Py.replace old new b).
  cbn [app]. now rewrite <- app_assoc.
Qed.

End Replace.
(** * The dictionary of blocks *)

Module Blocks.
Import Runs Fences Occurs.

Lemma uint_digits_inj d1 d2 :
  Py.uint_digits d1 = Py.uint_digits d2 -> d1 = d2.
Proof.
  revert d2. induction d1; intros d2; destruct d2; cbn [Py.uint_digits];
    intros H; try discriminate H; try reflexivity;
    injection H as H; f_equal; auto.
Qed.

Lemma str_of_nat_inj n m : Py.str_of_nat n = Py.str_of_nat m -> n = m.
Proof.
  unfold Py.str_of_nat. intros H.
  apply DecimalNat.Unsigned.to_uint_inj. now apply uint_digits_inj.
Qed.

(** Placeholders with different numbers differ. *)
Lemma placeholder_inj n m : placeholder n = placeholder m -> n = m.
Proof.
  unfold placeholder. intros H.
  apply app_inv_head in H. apply app_inv_tail in H.
  now apply str_of_nat_inj.
Qed.

(** The keys are the placeholders 0, 1, ... in this order. *)
Definition keys_in_order (st : dict) : Prop :=
  map fst st = map placeholder (seq 0 (length st)).

(** A block: a text between two fences. *)
Definition fenced (v : str) : Prop := exists i, v = fence ++ i ++ fence.

Lemma dict_set_fresh (st : dict) k v :
  ~ In k (map fst st) -> dict_set st k v = st ++ [(k, v)].
Proof.
  induction st as [|[k' v'] st IH]; intros H; [reflexivity|].
  cbn [dict_set app]. destruct (str_eqb k' k) eqn:E.
  - apply str_eqb_eq in E. exfalso. apply H. now left.
  - rewrite IH; [reflexivity|]. intros Hin. apply H. now right.
Qed.

Lemma placeholder_fresh (st : dict) :
  keys_in_order st -> ~ In (placeholder (length st)) (map fst st).
Proof.
  intros Hk Hin. rewrite Hk in Hin. apply in_map_iff in Hin as (n & E & Hn).
  apply placeholder_inj in E. apply in_seq in Hn. lia.
Qed.

Lemma keys_in_order_next (st : dict) v :
  keys_in_order st ->
  keys_in_order (st ++ [(placeholder (length st), v)]).
Proof.
  unfold keys_in_order. intros Hk.
  rewrite map_app, length_app, Nat.add_1_r, seq_S, map_app, Hk.
  reflexivity.
Qed.

(** A text holds a block that the scan finds, or none. *)
Lemma block_or_unclosed s :
  unclosed s
  \/ exists b r1 i r2,
       find fence s = Some (b, r1) /\ find fence r1 = Some (i, r2).
Proof.
  destruct (find fence s) as [[b r1]|] eqn:Hs.
  - destruct (find fence r1) as [[i r2]|] eqn:Hr.
    + right. now exists b, r1, i, r2.
    + left. apply (unclosed_before s b r1 Hs), unclosed_fence, Hr.
  - left. now apply unclosed_nofence.
Qed.

(** The scan appends to the dictionary: entries with the next
    placeholders as keys and blocks as values. *)
Lemma extract_grows s :
  forall st, keys_in_order st ->
  exists more,
    snd (extract_from st s) = st ++ more
    /\ keys_in_order (st ++ more)
    /\ Forall fenced (map snd more).
Proof.
  remember (length s) as n eqn:Hn. revert s Hn.
  induction n as [n IH] using lt_wf_ind. intros s -> st Hk.
  destruct (block_or_unclosed s) as [Hu | (b & r1 & i & r2 & Hs & Hr)].
  - exists []. rewrite (extract_unclosed st s Hu), app_nil_r.
    repeat split; [exact Hk | constructor].
  - rewrite (extract_block st s b r1 i r2 Hs Hr). cbv zeta.
    rewrite (dict_set_fresh st _ _ (placeholder_fresh st Hk)).
    pose proof (find_some _ _ _ _ Hs) as Es.
    pose proof (find_some _ _ _ _ Hr) as Er.
    destruct (IH (length r2)) with (s := r2)
                                   (st := st ++ [(placeholder (length st),
                                                  fence ++ i ++ fence)])
      as (more & E & Hk' & Hf).
    { rewrite Es, Er, !length_app. simpl. lia. }
    { reflexivity. }
    { now apply keys_in_order_next. }
    destruct (extract_from _ r2) as [out st']. cbn [snd] in E |- *.
    exists ((placeholder (length st), fence ++ i ++ fence) :: more).
    rewrite E, <- app_assoc in *. cbn [app] in *.
    repeat split; [exact Hk'|]. cbn [map snd]. constructor; [|exact Hf].
    now exists i.
Qed.

End Blocks.
(** * What the pipeline keeps of a placeholder *)

Module Kept.
Import Re ReFacts Scan Markers Runs Tokens Blank Pipeline Fences Outline.
Import Occurs Lines Replace Blocks.

(** The characters of a placeholder: underscore, digits and capitals. *)
Definition key_char (c : char) : bool :=
  (eqc c 95 || in_range 48 57 c || in_range 65 90 c)%N%bool.

Lemma key_char_range c :
  key_char c = true -> (c = 95 \/ 48 <= c <= 57 \/ 65 <= c <= 90)%N.
Proof.
  unfold key_char. rewrite !orb_true_iff, eqc_eq, !in_range_spec. tauto.
Qed.

Lemma mem_in c l : mem c l = true -> In c l.
Proof.
  unfold mem. rewrite existsb_exists. intros (x & Hx & E).
  apply eqc_eq in E as ->. exact Hx.
Qed.

Lemma forallb_weaken (p q : char -> bool) l :
  (forall c, p c = true -> q c = true) ->
  forallb p l = true -> forallb q l = true.
Proof.
  intros Hpq. rewrite !forallb_forall. auto.
Qed.

Lemma space_not_key c : Py.isspace c = true -> key_char c = false.
Proof.
  intros H. destruct (key_char c) eqn:E; [|reflexivity].
  apply key_char_range in E. apply isspace_whitespace in H.
  unfold whitespace in H. cbn [In] in H. lia.
Qed.

Lemma nl_not_key c : is_nl c = true -> key_char c = false.
Proof. intros H. apply eqc_eq in H as <-. reflexivity. Qed.

Lemma sot_not_key c : space_or_tab c = true -> key_char c = false.
Proof.
  unfold space_or_tab. rewrite orb_true_iff, !eqc_eq.
  intros [-> | ->]; reflexivity.
Qed.

Lemma closer_not_key c : closer c = true -> key_char c = false.
Proof. intros H. apply closer_cases in H as [-> | ->]; reflexivity. Qed.

Lemma bullet_not_key c : mem c BULLET_CHARS = true -> key_char c = false.
Proof.
  intros H. apply mem_in in H.
  assert (F : forallb (fun b => negb (key_char b)) BULLET_CHARS = true)
    by reflexivity.
  rewrite forallb_forall in F. apply F in H. now apply negb_true_iff.
Qed.

Lemma hyphen_not_key c : eqc 45%N c = true -> key_char c = false.
Proof. intros H. apply eqc_eq in H as <-. reflexivity. Qed.

Lemma escape_key c : key_char c = true -> Json.escape c = [c].
Proof.
  intros H. apply key_char_range in H.
  assert (E : forall x, (x < 48 \/ x = 92)%N -> eqc c x = false)
    by (intros x Hx; apply eqc_neq; lia).
  unfold Json.escape, QUOTE, BACKSLASH, NL, CR, TAB.
  rewrite (E 34%N), (E 92%N), (E 10%N), (E 13%N), (E 9%N), (E 8%N),
    (E 12%N) by lia.
  assert (L : N.ltb c 32 = false) by (apply N.ltb_ge; lia).
  now rewrite L.
Qed.

Lemma escaped_key x :
  forallb key_char x = true -> flat_map Json.escape x = x.
Proof.
  induction x as [|c x IH]; intros H; [reflexivity|].
  cbn [forallb] in H. apply andb_true_iff in H as [Hc Hx].
  cbn [flat_map]. now rewrite (escape_key c Hc), IH.
Qed.

Lemma key_uint u : forallb key_char (Py.uint_digits u) = true.
Proof. induction u; cbn [Py.uint_digits forallb]; auto. Qed.

Lemma placeholder_key n : forallb key_char (placeholder n) = true.
Proof.
  unfold placeholder, Py.str_of_nat.
  now rewrite !forallb_app, key_uint.
Qed.

(** ** The pattern of [lines_to_gdocs] *)

Lemma hyphen_match line :
  re_match HYPHEN_RE line =
  match line with
  | c :: s :: t =>
      if (eqc 45%N c && Py.isspace s)%bool
      then Some (mkMatch (c :: s :: Py.take_while Py.isspace t) []
                         (Py.drop_while Py.isspace t))
      else None
  | _ => None
  end.
Proof.
  unfold re_match, HYPHEN_RE. rewrite cat_bol_start, hd_error_map, cat_chr.
  destruct line as [|c [|s t]]; [reflexivity| |].
  - destruct (eqc 45%N c); reflexivity.
  - destruct (eqc 45%N c); [|reflexivity]. simpl andb.
    rewrite hd_error_map, plus_unfold.
    destruct (Py.isspace s); [|reflexivity].
    destruct (star_first Py.isspace t) as [tl ->]. reflexivity.
Qed.

(** [re.sub(r"^\-\s+", repl, line)] *)
Lemma hyphen_step repl line :
  sub HYPHEN_RE (fun _ => repl) line =
  match line with
  | c :: s :: t =>
      if (eqc 45%N c && Py.isspace s)%bool
      then repl ++ Py.drop_while Py.isspace t
      else line
  | _ => line
  end.
Proof.
  rewrite sub_anchored by (apply nonempty_hyphen || reflexivity).
  rewrite hyphen_match. destruct line as [|c [|s t]]; try reflexivity.
  destruct (eqc 45%N c && Py.isspace s)%bool; reflexivity.
Qed.

(** ** The collapse *)

Lemma scan_free x b :
  free x = true -> forall prev, exists prev',
    scan (S (length (x ++ b))) BLANK_RUN_RE prev (x ++ b) =
    map Copied x ++ scan (S (length b)) BLANK_RUN_RE prev' b.
Proof.
  induction x as [|c x IH]; intros Hx prev; [now exists prev|].
  cbn [free forallb] in Hx. apply andb_true_iff in Hx as [Hc Hx].
  apply negb_true_iff in Hc. cbn [app].
  rewrite (pieces_step _ sound_blank nonempty_blank).
  rewrite blank_run_none.
  - destruct (IH Hx (Some c)) as [prev' ->]. now exists prev'.
  - unfold nl_run. cbn [Py.take_while]. rewrite Hc. simpl. lia.
Qed.

(** ** The restoration *)

(** A text between two backticks stays where it occurs, when the keys
    hold no backtick and do not occur in it. *)
Lemma restore_keeps mid (later : dict) :
  (forall kv, In kv later ->
     fst kv <> [] /\ mem 96%N (fst kv) = false /\ ~ occurs (fst kv) mid) ->
  forall s,
    occurs (96%N :: mid ++ [96%N]) s ->
    occurs (96%N :: mid ++ [96%N]) (restore_code_fences s later).
Proof.
  unfold restore_code_fences.
  induction later as [|kv later IH]; intros Hl s Hs; [exact Hs|].
  cbn [fold_left]. apply IH.
  - intros kv' Hin. apply Hl. now right.
  - destruct (Hl kv (or_introl eq_refl)) as (H1 & H2 & H3).
    now apply replace_keeps_enclosed.
Qed.

(** ** A key through the renderers *)

Section Key.

Variable d : char -> bool.
Hypothesis Hd : decimal_table d.

(** A text of placeholder characters that starts with an underscore. *)
Variables w w0 : str.
Hypothesis Hw : w = 95%N :: w0.
Hypothesis Hkey : forallb key_char w = true.

Lemma key_nonempty : w <> [].
Proof. rewrite Hw. discriminate. Qed.

Lemma key_lacks c : key_char c = false -> mem c w = false.
Proof. intros H. exact (mem_forallb key_char c w Hkey H). Qed.

Lemma key_last : exists w1 c, w = w1 ++ [c] /\ Py.isspace c = false.
Proof.
  destruct (exists_last key_nonempty) as (w1 & c & E).
  exists w1, c. split; [exact E|].
  pose proof Hkey as H. rewrite E, forallb_app in H.
  apply andb_true_iff in H as [_ H]. cbn [forallb] in H.
  apply andb_true_iff in H as [H _].
  destruct (Py.isspace c) eqn:Hs; [|reflexivity].
  rewrite (space_not_key c Hs) in H. discriminate.
Qed.

Lemma key_free : free w = true.
Proof.
  unfold free. apply (forallb_weaken key_char); [|exact Hkey].
  intros c Hc. apply negb_true_iff.
  destruct (is_nl c) eqn:E; [|reflexivity].
  rewrite (nl_not_key c E) in Hc. discriminate.
Qed.

Lemma keeps_lstrip s : occurs w s -> occurs w (Py.drop_while Py.isspace s).
Proof.
  apply occurs_drop_while; [exact key_nonempty|].
  intros c H. apply key_lacks, space_not_key, H.
Qed.

Lemma keeps_indent s : occurs w s -> occurs w (Py.drop_while space_or_tab s).
Proof.
  apply occurs_drop_while; [exact key_nonempty|].
  intros c H. apply key_lacks, sot_not_key, H.
Qed.

Lemma keeps_rstrip s : occurs w s -> occurs w (Py.rstrip s).
Proof.
  intros (a & b & ->). destruct key_last as (w1 & c & E & Hc).
  rewrite E, <- !app_assoc. cbn [app]. rewrite app_assoc.
  rewrite (rstrip_keeps (a ++ w1) c b Hc).
  exists a, (Py.rstrip b). now rewrite <- !app_assoc.
Qed.

Lemma keeps_content raw : occurs w raw -> Py.truthy (Py.strip raw) = true.
Proof.
  intros H. unfold Py.strip, Py.lstrip.
  destruct (keeps_lstrip _ (keeps_rstrip _ H)) as (a & b & E).
  rewrite E. destruct a; [rewrite Hw|]; reflexivity.
Qed.

Lemma keeps_expandtabs tabsize s :
  occurs w s -> occurs w (Py.expanded tabsize s).
Proof.
  apply occurs_expandtabs. apply key_lacks. reflexivity.
Qed.

Lemma keeps_bullet_rule line : occurs w line -> occurs w (bullet_rule line).
Proof.
  intros H. unfold bullet_rule.
  destruct (bullet_marker line) as [rest|] eqn:E; [|exact H].
  apply bullet_marker_inv in E as (c & s & t & -> & Hc & Hs & ->).
  apply occurs_app_r, keeps_lstrip.
  apply (occurs_skip w s t key_nonempty (key_lacks s (space_not_key s Hs))).
  exact (occurs_skip w c _ key_nonempty
           (key_lacks c (bullet_not_key c Hc)) H).
Qed.

Lemma token_chars tok :
  is_token d tok = true ->
  forallb (fun c => d c || ascii_letter c)%bool tok = true.
Proof.
  destruct tok as [|a tok]; [discriminate|]. unfold is_token.
  rewrite !orb_true_iff. intros [[H | H] | H].
  - apply (forallb_weaken d); [|exact H]. intros c ->. reflexivity.
  - apply andb_true_iff in H as [Ha Ht]. destruct tok; [|discriminate].
    cbn [forallb]. now rewrite Ha, orb_true_r.
  - apply (forallb_weaken roman_letter); [|exact H].
    intros c Hc. rewrite (roman_is_letter c Hc). apply orb_true_r.
Qed.

Lemma key_not_in_token tok : is_token d tok = true -> ~ occurs w tok.
Proof.
  intros Ht Ho.
  pose proof (occurs_forallb _ w tok Ho (token_chars tok Ht)) as F.
  rewrite Hw in F. cbn [forallb] in F. apply andb_true_iff in F as [F _].
  rewrite (proj1 Hd 95%N) in F by reflexivity. discriminate.
Qed.

Lemma keeps_number_rule line :
  occurs w line -> occurs w (number_rule d line).
Proof.
  intros H. unfold number_rule.
  destruct (num_marker d line) as [[tok rest]|] eqn:E; [|exact H].
  apply num_marker_inv in E as (Ht & c & s & t & -> & Hc & Hs & ->).
  apply occurs_app_r, occurs_app_r, keeps_lstrip.
  destruct (occurs_split w tok c (s :: t)
              (key_lacks c (closer_not_key c Hc)) H) as [H1 | H1].
  - now apply key_not_in_token in H1.
  - exact (occurs_skip w s t key_nonempty
             (key_lacks s (space_not_key s Hs)) H1).
Qed.

Lemma keeps_unify line : occurs w line -> occurs w (unify_markers d line).
Proof.
  intros H. rewrite (unify_markers_spec d line Hd).
  now apply keeps_number_rule, keeps_bullet_rule.
Qed.

Lemma keeps_hyphen repl line :
  occurs w line -> occurs w (sub HYPHEN_RE (fun _ => repl) line).
Proof.
  intros H. rewrite hyphen_step. destruct line as [|c [|s t]]; try exact H.
  destruct (eqc 45%N c && Py.isspace s)%bool eqn:E; [|exact H].
  apply andb_true_iff in E as [Hc Hs].
  apply occurs_app_r, keeps_lstrip.
  apply (occurs_skip w s t key_nonempty (key_lacks s (space_not_key s Hs))).
  exact (occurs_skip w c _ key_nonempty
           (key_lacks c (hyphen_not_key c Hc)) H).
Qed.

(** The rest of a line, as the renderers split it off. *)
Lemma keeps_rest raw indent_size :
  occurs w raw ->
  occurs w (Py.drop_while space_or_tab (Py.expanded indent_size raw)).
Proof. intros H. now apply keeps_indent, keeps_expandtabs. Qed.

Lemma keeps_markdown lines indent_size trim outs raw :
  Py.fits_int indent_size = true ->
  indent_size <> 0%Z -> mem NL raw = false -> In raw lines ->
  occurs w raw ->
  lines_to_markdown d lines indent_size trim = Ok outs ->
  exists o, In o outs /\ occurs w o.
Proof.
  intros Hfit Hi Hnl Hin Ho H. unfold lines_to_markdown in H.
  eapply for_each_in in H; [|exact Hin|].
  2:{ cbv beta. rewrite (keeps_content raw Ho). cbn [negb].
      rewrite (Indent.split_indent_line raw indent_size Hfit Hi Hnl).
      cbn [bind]. reflexivity. }
  eexists. split; [apply H; now left|].
  destruct trim; [apply keeps_rstrip|];
    apply occurs_app_r, keeps_unify, keeps_rest, Ho.
Qed.

Lemma keeps_gdocs lines indent_size bullet trim outs raw :
  Py.fits_int indent_size = true ->
  indent_size <> 0%Z -> mem NL raw = false -> In raw lines ->
  occurs w raw ->
  lines_to_gdocs d lines indent_size bullet trim = Ok outs ->
  exists o, In o outs /\ occurs w o.
Proof.
  intros Hfit Hi Hnl Hin Ho H. unfold lines_to_gdocs in H.
  eapply for_each_in in H; [|exact Hin|].
  2:{ cbv beta. rewrite (keeps_content raw Ho). cbn [negb].
      rewrite (Indent.split_indent_line raw indent_size Hfit Hi Hnl).
      cbn [bind]. reflexivity. }
  eexists. split; [apply H; now left|].
  destruct trim; [apply keeps_rstrip|];
    apply occurs_app_r, keeps_hyphen, keeps_unify, keeps_rest, Ho.
Qed.

Lemma keeps_plain lines indent_size trim raw :
  In raw lines -> occurs w raw ->
  exists o, In o (plain_lines lines indent_size trim) /\ occurs w o.
Proof.
  intros Hin Ho. unfold plain_lines. eexists. split.
  - apply in_map, Hin.
  - cbv beta zeta. destruct trim; [apply keeps_rstrip|];
      now apply keeps_expandtabs.
Qed.

Lemma keeps_escape t : occurs w t -> occurs w (flat_map Json.escape t).
Proof.
  intros (a & b & ->). rewrite !flat_map_app, (escaped_key w Hkey).
  now exists (flat_map Json.escape a), (flat_map Json.escape b).
Qed.

Lemma keeps_object l t : occurs w t -> occurs w (Json.object (mkItem l t)).
Proof.
  intros H. unfold Json.object, Json.string. cbn [level].
  apply (occurs_app_r w (lit "{")), occurs_cons.
  apply (occurs_app_r w (lit "    ")), occurs_cons.
  apply (occurs_app_r w (lit "level")), occurs_cons.
  apply (occurs_app_r w (lit ": ")), (occurs_app_r w (Py.str_of_int l)).
  apply (occurs_app_r w (lit ",")), occurs_cons.
  apply (occurs_app_r w (lit "    ")), occurs_cons.
  apply (occurs_app_r w (lit "text")), occurs_cons.
  apply (occurs_app_r w (lit ": ")), occurs_app_l, occurs_cons, occurs_app_l.
  now apply keeps_escape.
Qed.

Lemma keeps_dumps items l t :
  In (mkItem l t) items -> occurs w t -> occurs w (Json.dumps items).
Proof.
  intros Hin H. destruct items as [|it items]; [destruct Hin|].
  unfold Json.dumps.
  apply (occurs_app_r w (lit "[")), occurs_cons.
  apply (occurs_app_r w (lit "  ")), occurs_app_l.
  apply (occurs_join w _ (Json.object (mkItem l t))).
  - apply in_map, Hin.
  - now apply keeps_object.
Qed.

Lemma keeps_outline lines indent_size items raw :
  Py.fits_int indent_size = true ->
  indent_size <> 0%Z -> mem NL raw = false -> In raw lines ->
  occurs w raw ->
  outline_items d lines indent_size = Ok items ->
  occurs w (Json.dumps items).
Proof.
  intros Hfit Hi Hnl Hin Ho H. unfold outline_items in H.
  eapply for_each_in in H; [|exact Hin|].
  2:{ cbv beta. rewrite (keeps_content raw Ho). cbn [negb].
      rewrite (Indent.split_indent_line raw indent_size Hfit Hi Hnl).
      cbn [bind]. reflexivity. }
  eapply keeps_dumps; [apply H; now left|].
  now apply keeps_unify, keeps_rest.
Qed.

(** Every target keeps the key in the rendered text. *)
Lemma keeps_rendered text target indent_size trim wrap bullet result :
  Py.fits_int indent_size = true ->
  indent_size <> 0%Z -> occurs w text ->
  rendered d (Py.split NL text) target indent_size trim wrap bullet
  = Ok result ->
  occurs w result.
Proof.
  intros Hfit Hi Ho.
  destruct (occurs_join_inv w NL (Py.split NL text) key_nonempty
              (key_lacks NL eq_refl)) as (raw & Hin & Hraw).
  { now rewrite join_split. }
  pose proof (split_no_sep text raw Hin) as Hnl.
  unfold rendered, to_json_outline.
  destruct (String.eqb target "Markdown / Obsidian").
  { destruct (lines_to_markdown _ _ _ _) as [outs|] eqn:E; [|discriminate].
    cbn [bind]. intros R. injection R as <-.
    destruct (keeps_markdown _ _ _ _ raw Hfit Hi Hnl Hin Hraw E)
      as (o & Ho1 & Ho2).
    exact (occurs_join w _ o outs Ho1 Ho2). }
  destruct (String.eqb target "Slack-friendly").
  { destruct (lines_to_markdown _ _ _ _) as [outs|] eqn:E; [|discriminate].
    cbn [bind]. intros R. injection R as <-.
    destruct (keeps_markdown _ _ _ _ raw Hfit Hi Hnl Hin Hraw E)
      as (o & Ho1 & Ho2).
    pose proof (occurs_join w [NL] o outs Ho1 Ho2) as Hj.
    destruct wrap; [|exact Hj].
    apply (occurs_app_r w (lit "```")), occurs_cons. now apply occurs_app_l. }
  destruct (String.eqb target "Google Docs-friendly").
  { destruct (lines_to_gdocs _ _ _ _ _) as [outs|] eqn:E; [|discriminate].
    cbn [bind]. intros R. injection R as <-.
    destruct (keeps_gdocs _ _ _ _ _ raw Hfit Hi Hnl Hin Hraw E)
      as (o & Ho1 & Ho2).
    exact (occurs_join w _ o outs Ho1 Ho2). }
  destruct (String.eqb target "Plain text").
  { rewrite (lines_to_plain_fits _ _ _ Hfit). cbn [bind].
    intros R. injection R as <-.
    destruct (keeps_plain (Py.split NL text) indent_size trim raw Hin Hraw)
      as (o & Ho1 & Ho2).
    exact (occurs_join w _ o _ Ho1 Ho2). }
  destruct (String.eqb target "JSON outline (beta)").
  { destruct (outline_items _ _ _) as [items|] eqn:E; [|discriminate].
    cbn [bind]. intros R. injection R as <-.
    exact (keeps_outline _ _ _ raw Hfit Hi Hnl Hin Hraw E). }
  intros R. injection R as <-. now rewrite join_split.
Qed.

(** The collapse of blank lines keeps the key. *)
Lemma keeps_collapse s :
  occurs w s -> occurs w (sub BLANK_RUN_RE (fun _ => [NL; NL]) s).
Proof.
  rewrite sub_render. unfold pieces. generalize (@None char).
  remember (length s) as n eqn:Hn. revert s Hn.
  induction n as [n IH] using lt_wf_ind. intros s -> prev H.
  destruct s as [|c t]; [now apply occurs_nil in H; [|exact key_nonempty]|].
  destruct (occurs_cons_inv _ _ _ H) as [[r Er] | Ht].
  - apply strip_prefix_some in Er. rewrite Er.
    destruct (scan_free w r key_free prev) as [prev' ->].
    unfold render. rewrite flat_map_app.
    fold (render (fun _ : Match => [NL; NL])).
    rewrite (flat_map_copied (fun _ => [NL; NL]) w).
    apply occurs_here.
  - rewrite (pieces_step _ sound_blank nonempty_blank).
    destruct (blank_run_cases prev (c :: t)) as [[_ E] | [_ [tl E]]];
      rewrite E.
    + cbn [render flat_map app]. apply occurs_cons.
      apply (IH (length t)); [simpl; lia | reflexivity | exact Ht].
    + cbn [render flat_map after group0].
      apply (occurs_app_r w [NL; NL]).
      assert (Hm : In (mkMatch (Py.take_while is_nl (c :: t)) []
                               (Py.drop_while is_nl (c :: t)))
                      (BLANK_RUN_RE prev (c :: t)))
        by (rewrite E; now left).
      apply (IH (length (Py.drop_while is_nl (c :: t)))).
      * exact (match_shorter _ _ _ _ sound_blank nonempty_blank Hm).
      * reflexivity.
      * apply occurs_drop_while; [exact key_nonempty | | exact H].
        intros x Hx. apply key_lacks, nl_not_key, Hx.
Qed.

Lemma keeps_collapsed collapse s :
  occurs w s -> occurs w (collapsed collapse s).
Proof.
  intros H. destruct collapse; [now apply keeps_collapse | exact H].
Qed.

End Key.

End Kept.
(** * The first fenced block *)

Import Occurs Lines Replace Blocks Kept.

(** The first block that [CODE_FENCE_RE] finds in a text: what precedes
    it, what its two fences enclose, and what follows it. *)
Definition first_block (s : str) : option (str * str * str) :=
  match find fence s with
  | Some (before, r1) =>
      match find fence r1 with
      | Some (interior, rest) => Some (before, interior, rest)
      | None => None
      end
  | None => None
  end.

Lemma first_block_parts s before interior rest :
  first_block s = Some (before, interior, rest) ->
  exists r1,
    find fence s = Some (before, r1)
    /\ find fence r1 = Some (interior, rest).
Proof.
  unfold first_block.
  destruct (find fence s) as [[b r1]|]; [|discriminate].
  destruct (find fence r1) as [[i r2]|] eqn:E; [|discriminate].
  intros H. injection H as <- <- <-. now exists r1.
Qed.

(** The first block becomes the first entry of the dictionary, under the
    placeholder 0 that stands for it in the text. *)
Lemma extract_first_block s before interior rest :
  first_block s = Some (before, interior, rest) ->
  exists out later,
    extract_code_fences s =
    (before ++ placeholder 0 ++ out,
     (placeholder 0, fence ++ interior ++ fence) :: later)
    /\ forall kv, In kv later -> exists n, fst kv = placeholder n.
Proof.
  intros H. apply first_block_parts in H as (r1 & Hs & Hr).
  rewrite extract_from_start, (extract_block [] s before r1 interior rest Hs Hr).
  cbv zeta. cbn [length dict_set].
  destruct (extract_grows rest [(placeholder 0, fence ++ interior ++ fence)])
    as (more & E & Hk & _); [reflexivity|].
  destruct (extract_from _ rest) as [out st']. cbn [snd] in E. subst st'.
  exists out, more. split; [reflexivity|].
  intros kv Hin.
  assert (Hin' : In (fst kv)
                   (map fst ([(placeholder 0, fence ++ interior ++ fence)]
                             ++ more)))
    by (apply in_map, in_or_app; now right).
  pose proof (eq_ind _ (fun l => In (fst kv) l) Hin' _ Hk) as Hn.
  cbv beta in Hn. apply in_map_iff in Hn as (n & <- & _).
  now exists n.
Qed.

(** A placeholder does not occur in a block whose interior lacks the
    text [__CODEBLOCK_]. *)
Lemma placeholder_not_in_block n interior :
  contains (lit "__CODEBLOCK_") interior = false ->
  ~ occurs (placeholder n) (96%N :: 96%N :: interior ++ [96%N; 96%N]).
Proof.
  intros Hc Ho. apply (not_contains _ _ Hc).
  assert (Hm : occurs (lit "__CODEBLOCK_")
                 (96%N :: 96%N :: interior ++ [96%N; 96%N])).
  { apply (occurs_trans _ (placeholder n)); [|exact Ho].
    unfold placeholder. apply occurs_here. }
  assert (Hne : lit "__CODEBLOCK_" <> []) by discriminate.
  apply (occurs_skip (lit "__CODEBLOCK_") 96%N _ Hne eq_refl) in Hm.
  apply (occurs_skip (lit "__CODEBLOCK_") 96%N _ Hne eq_refl) in Hm.
  destruct (occurs_split (lit "__CODEBLOCK_") interior 96%N [96%N] eq_refl Hm)
    as [H | H]; [exact H|].
  apply (occurs_skip (lit "__CODEBLOCK_") 96%N _ Hne eq_refl) in H.
  now apply occurs_nil in H.
Qed.

Lemma fenced_block interior :
  fence ++ interior ++ fence =
  96%N :: (96%N :: 96%N :: interior ++ [96%N; 96%N]) ++ [96%N].
Proof.
  change fence with [96%N; 96%N; 96%N]. cbn [app].
  rewrite <- app_assoc. reflexivity.
Qed.

(** X27.  The fenced blocks that [convert] protects are those of the text
    after normalisation and the pre-clean for the source.  With
    [keep_code_fences] and a non-zero indent size that fits a C [int], the
    first of them appears in the output of [convert] as it stands, fences
    included, whatever the source, the target and the other options,
    provided that its interior does not hold the text [__CODEBLOCK_] of
    the placeholders. *)
Theorem first_fenced_block_is_kept d (text : str)
        (source target : String.string) (indent_size : Z)
        (collapse_blank_lines trim_trailing_ws slack_wrap_codeblock : bool)
        (gdocs_bullet_symbol : BulletSymbol) (convert_smart_quotes : bool)
        (before interior rest : str) :
  decimal_table d ->
  Py.fits_int indent_size = true -> indent_size <> 0%Z ->
  first_block (prepared text source convert_smart_quotes)
  = Some (before, interior, rest) ->
  contains (lit "__CODEBLOCK_") interior = false ->
  exists out a b,
    convert d text source target indent_size collapse_blank_lines
            trim_trailing_ws true slack_wrap_codeblock gdocs_bullet_symbol
            convert_smart_quotes = Ok out
    /\ out = a ++ fence ++ interior ++ fence ++ b.
Proof.
  intros Hd Hfit Hi Hb Hc.
  destruct (extract_first_block _ _ _ _ Hb) as (o & later & E & Hkeys).
  rewrite convert_steps. cbv zeta. rewrite E. cbn [fst snd].
  destruct (rendered_total d
              (Py.split NL (before ++ placeholder 0 ++ o)) target
              indent_size trim_trailing_ws slack_wrap_codeblock
              gdocs_bullet_symbol Hfit Hi) as [result R].
  rewrite R. cbn [bind].
  assert (Hk : occurs (placeholder 0)
                 (collapsed collapse_blank_lines result)).
  { apply (keeps_collapsed (placeholder 0) _ eq_refl eq_refl).
    apply (keeps_rendered d Hd (placeholder 0) _ eq_refl eq_refl
             _ _ _ _ _ _ _ Hfit Hi) in R; [exact R|].
    now exists before, o. }
  set (X := collapsed collapse_blank_lines result) in *.
  assert (Hblock : occurs (fence ++ interior ++ fence)
                     (restore_code_fences X
                        ((placeholder 0, fence ++ interior ++ fence)
                         :: later))).
  { unfold restore_code_fences. cbn [fold_left fst snd].
    pose proof (fenced_block interior) as EB.
    set (B := fence ++ interior ++ fence) in *. clearbody B. subst B.
    apply (restore_keeps _ later).
    - intros [k v] Hin. destruct (Hkeys (k, v) Hin) as [n Hn].
      cbn [fst] in Hn |- *. subst k.
      split; [discriminate|]. split.
      + apply (mem_forallb key_char); [apply placeholder_key | reflexivity].
      + now apply placeholder_not_in_block.
    - apply replace_occurs; [discriminate | exact Hk]. }
  destruct Hblock as (a & b & Eo).
  eexists. exists a, b. split; [reflexivity|].
  rewrite Eo. now rewrite <- !app_assoc.
Qed.

Lemma first_fenced_block_is_kept_witness :
  exists out a b,
    convert unicode_isdecimal
            (lit "1) query" ++ NL :: lit "```" ++ NL :: lit "SELECT  1"
             ++ NL :: lit "```" ++ NL :: lit "* done")
            "Slack"%string "Google Docs-friendly"%string 4 true true true
            false BulletDot true = Ok out
    /\ out = a ++ fence ++ (NL :: lit "SELECT  1" ++ [NL]) ++ fence ++ b.
Proof.
  apply (first_fenced_block_is_kept unicode_isdecimal
           (lit "1) query" ++ NL :: lit "```" ++ NL :: lit "SELECT  1"
            ++ NL :: lit "```" ++ NL :: lit "* done")
           "Slack"%string "Google Docs-friendly"%string 4 true true false
           BulletDot true (lit "1) query" ++ [NL])
           (NL :: lit "SELECT  1" ++ [NL]) (NL :: lit "* done")
           unicode_decimal_table);
    [reflexivity | discriminate | reflexivity | reflexivity].
Defined.

(** C1.  The code breaks the claim: the normalisation comes before the
    extraction, so a no-break space inside a fenced block is replaced by a
    space, and the interior of the block does not reach the output of
    [convert] as it was, with [keep_code_fences] on. *)
Lemma convert_normalises_inside_fence :
  convert unicode_isdecimal (lit "```" ++ [160%N] ++ lit "```")
          "Auto"%string "Plain text"%string 2 false false true false
          BulletDot false
  = Ok (lit "``` ```").
Proof. reflexivity. Qed.

(** * Normalisation *)

Module Normal.
Import Re ReFacts Scan Occurs Replace.

(** [s.replace(k, new)] for a one-character [k]. *)
Lemma replace_char k new s :
  Py.replace [k] new s = flat_map (fun x => if eqc k x then new else [x]) s.
Proof.
  induction s as [|x s IH]; rewrite replace_step by discriminate;
    [reflexivity|].
  cbn [Py.strip_prefix flat_map]. destruct (eqc k x).
  - now rewrite IH.
  - cbn [app]. now rewrite IH.
Qed.

(** After [k] is replaced by a text without [c], the result lacks [c] when
    [c] is [k] or was not there before. *)
Lemma replace_char_absent c k new s :
  mem c new = false ->
  eqc c k = true \/ mem c s = false ->
  mem c (Py.replace [k] new s) = false.
Proof.
  intros Hnew H. rewrite replace_char.
  induction s as [|x s IH]; [reflexivity|].
  cbn [flat_map]. rewrite Indent.mem_app.
  assert (Hs : eqc c k = true \/ mem c s = false).
  { destruct H as [H | H]; [now left|]. right.
    rewrite Indent.mem_cons in H. now apply orb_false_iff in H. }
  rewrite (IH Hs), orb_false_r.
  destruct (eqc k x) eqn:E; [exact Hnew|].
  rewrite Indent.mem_cons, orb_false_r. destruct H as [H | H].
  - apply eqc_eq in H as ->. exact E.
  - rewrite Indent.mem_cons in H. now apply orb_false_iff in H.
Qed.

Lemma replace_char_id k new s :
  mem k s = false -> Py.replace [k] new s = s.
Proof.
  intros H. rewrite replace_char.
  induction s as [|x s IH]; [reflexivity|].
  rewrite Indent.mem_cons in H. apply orb_false_iff in H as [Hx Hs].
  cbn [flat_map]. now rewrite Hx, IH.
Qed.

Lemma occurs_mem w s c : occurs w s -> mem c w = true -> mem c s = true.
Proof.
  intros (a & b & ->) H. rewrite !Indent.mem_app, H.
  now rewrite orb_true_r.
Qed.

Lemma replace_pair_id a b new s :
  mem a s = false -> Py.replace [a; b] new s = s.
Proof.
  intros H. apply replace_absent; [discriminate|].
  intros Ho. apply (occurs_mem _ _ a) in Ho.
  - congruence.
  - rewrite Indent.mem_cons, eqc_refl. reflexivity.
Qed.

(** [re.sub] of a character class by the empty text. *)
Lemma sub_chr_empty p s :
  sub (chr p) (fun _ => []) s = filter (fun c => negb (p c)) s.
Proof.
  rewrite sub_render. unfold pieces. generalize (@None char).
  induction s as [|c s IH]; intros prev;
    rewrite (pieces_step _ (sound_chr p) (nonempty_chr p)).
  - reflexivity.
  - cbn [chr filter]. destruct (p c); cbn [negb render flat_map after group0].
    + apply IH.
    + cbn [app]. f_equal. apply IH.
Qed.

Lemma filter_absent (f : char -> bool) c s :
  f c = false \/ mem c s = false -> mem c (filter f s) = false.
Proof.
  intros H. induction s as [|x s IH]; [reflexivity|].
  assert (Hs : f c = false \/ mem c s = false).
  { destruct H as [H | H]; [now left|]. right.
    rewrite Indent.mem_cons in H. now apply orb_false_iff in H. }
  cbn [filter]. destruct (f x) eqn:E; [|exact (IH Hs)].
  rewrite Indent.mem_cons, (IH Hs), orb_false_r.
  destruct H as [H | H].
  - apply eqc_neq. intros ->. congruence.
  - rewrite Indent.mem_cons in H. now apply orb_false_iff in H.
Qed.

Lemma filter_id (f : char -> bool) s :
  forallb f s = true -> filter f s = s.
Proof.
  induction s as [|x s IH]; [reflexivity|]. cbn [forallb filter].
  intros H. apply andb_true_iff in H as [-> H]. now rewrite IH.
Qed.

(** Two texts share no character: seen from either side. *)
Lemma disjoint_sym (a b : str) :
  forallb (fun c => negb (mem c b)) a = true ->
  forallb (fun x => negb (mem x a)) b = true.
Proof.
  intros H. apply forallb_forall. intros x Hx. apply negb_true_iff.
  destruct (mem x a) eqn:E; [|reflexivity].
  apply Kept.mem_in in E. rewrite forallb_forall in H.
  specialize (H x E). apply negb_true_iff in H.
  assert (Hm : mem x b = true).
  { unfold mem. apply existsb_exists. exists x. split; [exact Hx|].
    apply eqc_refl. }
  congruence.
Qed.

End Normal.

(** The characters that [normalize_text] removes or replaces: carriage
    return, no-break space, ideographic space, the zero-width characters
    and, with [convert_smart_quotes], the typographic quotes. *)
Definition unwanted (convert_smart_quotes : bool) : str :=
  CR :: 160%N :: 12288%N :: ZERO_WIDTH
  ++ (if convert_smart_quotes then flat_map fst SMART_QUOTES else []).

Ltac absent :=
  first
    [ apply Normal.replace_char_absent;
      [ reflexivity | first [ left; reflexivity | right; absent ] ]
    | apply Normal.filter_absent;
      first [ left; reflexivity | right; absent ] ].

Lemma normalize_text_lacks (text : str) (convert_smart_quotes : bool) :
  forallb (fun c => negb (mem c (normalize_text text convert_smart_quotes)))
          (unwanted convert_smart_quotes) = true.
Proof.
  unfold normalize_text, ZERO_WIDTH_RE. rewrite Normal.sub_chr_empty.
  destruct convert_smart_quotes; unfold unwanted, SMART_QUOTES, ZERO_WIDTH;
    cbn [flat_map fst snd app fold_left forallb];
    repeat (apply andb_true_iff; split); try reflexivity;
    apply negb_true_iff; absent.
Qed.

(** X1.  The text that [normalize_text] returns holds none of the
    characters it is there to remove: no carriage return, no-break space,
    ideographic space or zero-width character, and with
    [convert_smart_quotes] no typographic quote. *)
Theorem normalize_text_removes (text : str) (convert_smart_quotes : bool) :
  forallb (fun c => negb (mem c (normalize_text text convert_smart_quotes)))
          (unwanted convert_smart_quotes) = true.
Proof. apply normalize_text_lacks. Qed.

(** A text without the characters that [normalize_text] removes or
    replaces is left as it is. *)
Lemma normalize_fixed (N : str) (convert_smart_quotes : bool) :
  forallb (fun c => negb (mem c N)) (unwanted convert_smart_quotes) = true ->
  normalize_text N convert_smart_quotes = N.
Proof.
  intros H.
  unfold unwanted in H. cbn [forallb] in H.
  apply andb_true_iff in H as [Hcr H]. apply negb_true_iff in Hcr.
  apply andb_true_iff in H as [Hnb H]. apply negb_true_iff in Hnb.
  apply andb_true_iff in H as [Hid H]. apply negb_true_iff in Hid.
  rewrite forallb_app in H. apply andb_true_iff in H as [Hzw Hq].
  unfold normalize_text, ZERO_WIDTH_RE. cbv zeta.
  rewrite (Normal.replace_pair_id CR NL [NL] N Hcr).
  rewrite (Normal.replace_char_id CR [NL] N Hcr).
  rewrite (Normal.replace_char_id _ _ N Hnb).
  rewrite (Normal.replace_char_id _ _ N Hid).
  rewrite Normal.sub_chr_empty.
  rewrite (Normal.filter_id _ N (Normal.disjoint_sym ZERO_WIDTH N Hzw)).
  destruct convert_smart_quotes; [|reflexivity].
  unfold SMART_QUOTES in *. cbn [flat_map fst snd app fold_left forallb] in *.
  repeat match type of Hq with
         | (negb (mem ?k N) && _)%bool = true =>
             let Hk := fresh "Hk" in
             apply andb_true_iff in Hq as [Hk Hq];
             apply negb_true_iff in Hk;
             rewrite (Normal.replace_char_id _ _ N Hk)
         end.
  reflexivity.
Qed.

(** X2.  [normalize_text] is idempotent: a normalised text is left as it
    is. *)
Theorem normalize_text_idempotent (text : str) (convert_smart_quotes : bool) :
  normalize_text (normalize_text text convert_smart_quotes)
                 convert_smart_quotes
  = normalize_text text convert_smart_quotes.
Proof.
  apply normalize_fixed, normalize_text_lacks.
Qed.

(** * Targets *)

(** The targets that the sidebar offers. *)
Definition TARGETS : list String.string :=
  ["Markdown / Obsidian"; "Slack-friendly"; "Google Docs-friendly";
   "Plain text"; "JSON outline (beta)"]%string.

(** X3.  For a target that is none of the five, [convert] joins the lines
    as it split them: the result is the prepared text, collapsed when
    [collapse_blank_lines] is set, with the fenced blocks taken out and put
    back when [keep_code_fences] is set.  Nothing is raised, whatever the
    indent size. *)
Theorem convert_unknown_target d (text : str) (source target : String.string)
        (indent_size : Z)
        (collapse_blank_lines trim_trailing_ws keep_code_fences
           slack_wrap_codeblock : bool)
        (gdocs_bullet_symbol : BulletSymbol) (convert_smart_quotes : bool) :
  existsb (String.eqb target) TARGETS = false ->
  let pre := prepared text source convert_smart_quotes in
  let tb := if keep_code_fences then extract_code_fences pre else (pre, []) in
  convert d text source target indent_size collapse_blank_lines
          trim_trailing_ws keep_code_fences slack_wrap_codeblock
          gdocs_bullet_symbol convert_smart_quotes
  = Ok (restore_code_fences (collapsed collapse_blank_lines (fst tb))
          (snd tb)).
Proof.
  intros Ht pre tb. rewrite convert_steps. cbv zeta. fold pre. fold tb.
  unfold TARGETS in Ht. cbn [existsb] in Ht.
  repeat (apply orb_false_iff in Ht; destruct Ht as [?E Ht]).
  unfold rendered. rewrite E, E0, E1, E2, E3. cbn [bind].
  rewrite join_split. subst tb. destruct keep_code_fences; reflexivity.
Qed.

Lemma convert_unknown_target_witness :
  convert unicode_isdecimal (lit "1) a" ++ NL :: TAB :: lit "* b  ")
          "Auto"%string "HTML"%string 0 false true false true BulletDot true
  = Ok (lit "1) a" ++ NL :: TAB :: lit "* b  ").
Proof.
  exact (convert_unknown_target unicode_isdecimal
           (lit "1) a" ++ NL :: TAB :: lit "* b  ") "Auto"%string
           "HTML"%string 0 false true false true BulletDot true eq_refl).
Defined.

(** * Texts with few fences *)

Lemma few_fences_unclosed s : count_fences s < 2 -> unclosed s.
Proof.
  intros H. destruct (block_or_unclosed s)
    as [Hu | (b & r1 & i & r2 & Hs & Hr)]; [exact Hu|].
  rewrite count_find, Hs, count_find, Hr in H. lia.
Qed.

(** X4.  Where the prepared text has fewer than two fences, it holds no
    block: [extract_code_fences] returns it as it is, with an empty
    dictionary, and [convert] gives the same result with and without
    [keep_code_fences]. *)
Theorem convert_few_fences d (text : str) (source target : String.string)
        (indent_size : Z)
        (collapse_blank_lines trim_trailing_ws slack_wrap_codeblock : bool)
        (gdocs_bullet_symbol : BulletSymbol) (convert_smart_quotes : bool) :
  count_fences (prepared text source convert_smart_quotes) < 2 ->
  extract_code_fences (prepared text source convert_smart_quotes)
  = (prepared text source convert_smart_quotes, [])
  /\ convert d text source target indent_size collapse_blank_lines
             trim_trailing_ws true slack_wrap_codeblock gdocs_bullet_symbol
             convert_smart_quotes
     = convert d text source target indent_size collapse_blank_lines
               trim_trailing_ws false slack_wrap_codeblock
               gdocs_bullet_symbol convert_smart_quotes.
Proof.
  intros H.
  assert (E : extract_code_fences (prepared text source convert_smart_quotes)
              = (prepared text source convert_smart_quotes, [])).
  { rewrite extract_from_start.
    apply extract_unclosed, few_fences_unclosed, H. }
  split; [exact E|].
  rewrite !convert_steps. cbv zeta. rewrite E. reflexivity.
Qed.

Lemma convert_few_fences_witness :
  extract_code_fences
    (prepared (lit "a ``` b `` c") "Auto"%string true)
  = (prepared (lit "a ``` b `` c") "Auto"%string true, [])
  /\ convert unicode_isdecimal (lit "a ``` b `` c") "Auto"%string
             "Markdown / Obsidian"%string 2 true true true true BulletDot true
     = convert unicode_isdecimal (lit "a ``` b `` c") "Auto"%string
               "Markdown / Obsidian"%string 2 true true false true BulletDot
               true.
Proof.
  apply (convert_few_fences unicode_isdecimal (lit "a ``` b `` c")
           "Auto"%string "Markdown / Obsidian"%string 2 true true true
           BulletDot true).
  vm_compute. lia.
Defined.

(** * The blocks of a text *)

(** The scan records one block for every two fences, each a piece of the
    text between two fences. *)
Lemma extract_counts s :
  forall st, keys_in_order st ->
  exists more,
    snd (extract_from st s) = st ++ more
    /\ length more = Nat.div2 (count_fences s)
    /\ Forall (fun v => fenced v /\ occurs v s) (map snd more).
Proof.
  remember (length s) as n eqn:Hn. revert s Hn.
  induction n as [n IH] using lt_wf_ind. intros s -> st Hk.
  destruct (find fence s) as [[b r1]|] eqn:Hs.
  - destruct (find fence r1) as [[i r2]|] eqn:Hr.
    + rewrite (extract_block st s b r1 i r2 Hs Hr). cbv zeta.
      rewrite (dict_set_fresh st _ _ (placeholder_fresh st Hk)).
      pose proof (find_some _ _ _ _ Hs) as Es.
      pose proof (find_some _ _ _ _ Hr) as Er.
      destruct (IH (length r2)) with (s := r2)
                                     (st := st ++ [(placeholder (length st),
                                                    fence ++ i ++ fence)])
        as (more & E & Hlen & Hf).
      { rewrite Es, Er, !length_app. simpl. lia. }
      { reflexivity. }
      { now apply keys_in_order_next. }
      destruct (extract_from _ r2) as [out st']. cbn [snd] in E |- *.
      exists ((placeholder (length st), fence ++ i ++ fence) :: more).
      rewrite E, <- app_assoc. cbn [app]. split; [reflexivity|]. split.
      * rewrite count_find, Hs, count_find, Hr. cbn [length Nat.div2].
        now rewrite Hlen.
      * cbn [map snd]. constructor.
        -- split; [now exists i|]. exists b, r2.
           rewrite Es, Er, <- !app_assoc. reflexivity.
        -- eapply Forall_impl; [|exact Hf]. cbv beta.
           intros v [Hv Ho]. split; [exact Hv|].
           rewrite Es, Er. now do 4 apply occurs_app_r.
    + exists []. rewrite app_nil_r.
      rewrite (extract_unclosed st s)
        by (apply (unclosed_before s b r1 Hs), unclosed_fence, Hr).
      repeat split; [|constructor].
      rewrite count_find, Hs, count_find, Hr. reflexivity.
  - exists []. rewrite app_nil_r.
    rewrite (extract_unclosed st s) by now apply unclosed_nofence.
    repeat split; [|constructor]. now rewrite count_find, Hs.
Qed.

Lemma placeholders_nodup n : NoDup (map placeholder (seq 0 n)).
Proof.
  generalize (seq_NoDup n 0).
  induction (seq 0 n) as [|a l IH]; intros H; cbn [map]; constructor.
  - intros Hin. apply in_map_iff in Hin as (b & E & Hb).
    apply placeholder_inj in E. subst b. now inversion H.
  - apply IH. now inversion H.
Qed.

(** X5.  The dictionary that [extract_code_fences] returns has the keys
    [__CODEBLOCK_0__], [__CODEBLOCK_1__], ... in this order, all different.
    It holds one block for every two fences of the text, and every block
    is a piece of the text that starts and ends with a fence. *)
Theorem extract_code_fences_blocks (text : str) :
  let blocks := snd (extract_code_fences text) in
  map fst blocks = map placeholder (seq 0 (length blocks))
  /\ NoDup (map fst blocks)
  /\ length blocks = Nat.div2 (count_fences text)
  /\ Forall (fun v => fenced v /\ occurs v text) (map snd blocks).
Proof.
  cbv zeta. rewrite extract_from_start.
  destruct (extract_grows text [] eq_refl) as (more & E & Hk & _).
  destruct (extract_counts text [] eq_refl) as (more' & E' & Hlen & Hf).
  rewrite E' in E. cbn [app] in E, E', Hk. subst more'.
  rewrite E'. split; [exact Hk|]. split; [|split; assumption].
  unfold keys_in_order in Hk.
  pose proof (placeholders_nodup (length more)) as Hn.
  exact (eq_ind_r (fun l => NoDup l) Hn Hk).
Qed.

(** * More on marker unification *)

Lemma bullet_rule_line (c : char) (ws rest : str) :
  mem c BULLET_CHARS = true ->
  ws <> [] -> forallb Py.isspace ws = true ->
  Py.lstrip rest = rest ->
  bullet_rule (c :: ws ++ rest) = lit "- " ++ rest.
Proof.
  intros Hc Hne Hws Hrest.
  destruct ws as [|w ws]; [contradiction|].
  cbn [forallb] in Hws. apply andb_true_iff in Hws as [Hw Hws].
  unfold bullet_rule, bullet_marker. cbn [app]. rewrite Hc, Hw. cbn [andb].
  now rewrite (drop_run Py.isspace ws rest Hws Hrest).
Qed.

Lemma number_rule_hyphen d t :
  decimal_table d -> number_rule d (45%N :: t) = 45%N :: t.
Proof.
  intros Hd. unfold number_rule. now rewrite (num_marker_hyphen d _ Hd).
Qed.

(** X6.  A line that begins with a bullet character of [BULLET_CHARS] and
    at least one whitespace character is rewritten to a hyphen, one space
    and the remainder of the line, which is what follows the whitespace
    run. *)
Theorem unify_markers_bullet d (c : char) (ws rest : str) :
  decimal_table d ->
  mem c BULLET_CHARS = true ->
  ws <> [] -> forallb Py.isspace ws = true ->
  Py.lstrip rest = rest ->
  unify_markers d (c :: ws ++ rest) = lit "- " ++ rest.
Proof.
  intros Hd Hc Hne Hws Hrest.
  rewrite (unify_markers_spec d _ Hd).
  rewrite (bullet_rule_line c ws rest Hc Hne Hws Hrest).
  apply (number_rule_hyphen d _ Hd).
Qed.

Lemma unify_markers_bullet_witness :
  unify_markers unicode_isdecimal (8226%N :: TAB :: lit "  item one")
  = lit "- item one".
Proof.
  apply (unify_markers_bullet unicode_isdecimal 8226%N (TAB :: lit "  ")
           (lit "item one") unicode_decimal_table);
    (reflexivity || discriminate).
Defined.

(** X7.  A line whose first character is no bullet character, no decimal
    digit and no ASCII letter is returned as it is. *)
Theorem unify_markers_other_start d (c : char) (t : str) :
  decimal_table d ->
  mem c BULLET_CHARS = false -> d c = false -> ascii_letter c = false ->
  unify_markers d (c :: t) = c :: t.
Proof.
  intros Hd Hb Hc Hl. rewrite (unify_markers_spec d _ Hd).
  assert (E : bullet_rule (c :: t) = c :: t).
  { unfold bullet_rule, bullet_marker. rewrite Hb. now destruct t. }
  rewrite E. unfold number_rule, num_marker.
  rewrite (run_marker_starts d c t Hc).
  assert (Hr : roman_letter c = false).
  { destruct (roman_letter c) eqn:R; [|reflexivity].
    rewrite (roman_is_letter c R) in Hl. discriminate. }
  rewrite (run_marker_starts roman_letter c t Hr).
  unfold letter_marker. now rewrite Hl.
Qed.

Lemma unify_markers_other_start_witness :
  unify_markers unicode_isdecimal (lit "> 1) quoted") = lit "> 1) quoted".
Proof.
  apply (unify_markers_other_start unicode_isdecimal 62%N (lit " 1) quoted")
           unicode_decimal_table); reflexivity.
Defined.

Lemma marker_tail_needs_space c t :
  match t with [] => true | x :: _ => negb (Py.isspace x) end = true ->
  marker_tail (c :: t) = None.
Proof.
  unfold marker_tail. destruct t as [|x t]; [reflexivity|].
  intros H. apply negb_true_iff in H. now rewrite H, andb_false_r.
Qed.

(** A token and a closer with no whitespace behind are no marker. *)
Lemma num_marker_needs_space d (tok : str) (c : char) (t : str) :
  decimal_table d ->
  is_token d tok = true -> closer c = true ->
  match t with [] => true | x :: _ => negb (Py.isspace x) end = true ->
  num_marker d (tok ++ c :: t) = None.
Proof.
  intros Hd Htok Hc Ht.
  pose proof (marker_tail_needs_space c t Ht) as Hm.
  assert (Hrun : forall p, forallb p tok = true -> p c = false ->
                           run_marker p (tok ++ c :: t) = None).
  { intros p Hall Hpc. unfold run_marker.
    destruct (run_app p tok c t Hall Hpc) as [-> ->]. rewrite Hm.
    now destruct tok. }
  unfold num_marker. destruct tok as [|a tok]; [discriminate|].
  unfold is_token in Htok.
  destruct (forallb d (a :: tok)) eqn:Hdig.
  - rewrite (Hrun d Hdig (closer_not_decimal d c Hd Hc)). cbn [or_else].
    cbn [forallb] in Hdig. apply andb_true_iff in Hdig as [Ha _].
    assert (Hl : ascii_letter a = false).
    { destruct (ascii_letter a) eqn:L; [|reflexivity].
      rewrite (letter_not_decimal d a Hd L) in Ha. discriminate. }
    assert (Hr : roman_letter a = false).
    { destruct (roman_letter a) eqn:R; [|reflexivity].
      rewrite (roman_is_letter a R) in Hl. discriminate. }
    cbn [app]. unfold letter_marker. rewrite Hl. cbn [or_else].
    apply (run_marker_starts roman_letter a _ Hr).
  - assert (Ha : ascii_letter a = true).
    { simpl in Htok. apply orb_true_iff in Htok as [H | H].
      - now apply andb_true_iff in H.
      - simpl in H. apply andb_true_iff in H as [H _].
        now apply roman_is_letter. }
    cbn [app]. rewrite (run_marker_starts d a _
                          (letter_not_decimal d a Hd Ha)).
    cbn [or_else]. unfold letter_marker. rewrite Ha.
    destruct tok as [|b tok].
    + cbn [app]. rewrite Hm. cbn [or_else].
      destruct (roman_letter a) eqn:R.
      * apply (Hrun roman_letter); [cbn [forallb]; now rewrite R|].
        now apply closer_not_roman.
      * apply (run_marker_starts roman_letter a _ R).
    + cbn [orb] in Htok. rewrite andb_false_r in Htok. cbn [orb] in Htok.
      assert (Hb : roman_letter b = true).
      { simpl in Htok. apply andb_true_iff in Htok as [_ H].
        now apply andb_true_iff in H. }
      cbn [app]. rewrite marker_tail_starts
        by now apply letter_not_closer, roman_is_letter.
      cbn [or_else].
      apply (Hrun roman_letter Htok). now apply closer_not_roman.
Qed.

(** X8.  A numbered-list token and its closer are left alone where no
    whitespace follows the closer: the line is returned as it is (so
    [3.14] and [e.g.] are no markers). *)
Theorem unify_markers_needs_space d (tok : str) (c : char) (t : str) :
  decimal_table d ->
  is_token d tok = true -> closer c = true ->
  match t with [] => true | x :: _ => negb (Py.isspace x) end = true ->
  unify_markers d (tok ++ c :: t) = tok ++ c :: t.
Proof.
  intros Hd Htok Hc Ht. rewrite (unify_markers_spec d _ Hd).
  unfold bullet_rule. rewrite (bullet_marker_token d tok c t Hd Htok Hc).
  unfold number_rule.
  now rewrite (num_marker_needs_space d tok c t Hd Htok Hc Ht).
Qed.

Lemma unify_markers_needs_space_witness :
  unify_markers unicode_isdecimal (lit "3.14 is pi") = lit "3.14 is pi".
Proof.
  apply (unify_markers_needs_space unicode_isdecimal (lit "3") 46%N
           (lit "14 is pi") unicode_decimal_table); reflexivity.
Defined.

(** * The renderers, line by line *)

(** A text with a character that is no whitespace. *)
Definition has_nonspace (s : str) : bool :=
  existsb (fun c => negb (Py.isspace c)) s.

(** A text that does not end in whitespace. *)
Definition ends_clean (s : str) : bool :=
  match rev s with
  | [] => true
  | c :: _ => negb (Py.isspace c)
  end.

Module Rows.

Lemma truthy_lstrip s :
  Py.truthy (Py.drop_while Py.isspace s) = has_nonspace s.
Proof.
  induction s as [|c s IH]; [reflexivity|].
  cbn [Py.drop_while has_nonspace existsb].
  destruct (Py.isspace c); [exact IH | reflexivity].
Qed.

Lemma nonspace_drop (p : char -> bool) s :
  (forall c, p c = true -> Py.isspace c = true) ->
  has_nonspace (Py.drop_while p s) = has_nonspace s.
Proof.
  intros Hp. induction s as [|c s IH]; [reflexivity|].
  cbn [Py.drop_while]. destruct (p c) eqn:E; [|reflexivity].
  unfold has_nonspace at 2. cbn [existsb]. now rewrite (Hp c E).
Qed.

Lemma nonspace_app a b :
  has_nonspace (a ++ b) = (has_nonspace a || has_nonspace b)%bool.
Proof. apply existsb_app. Qed.

Lemma nonspace_rev s : has_nonspace (rev s) = has_nonspace s.
Proof.
  induction s as [|c s IH]; [reflexivity|].
  cbn [rev]. rewrite nonspace_app, IH. unfold has_nonspace.
  cbn [existsb]. rewrite orb_false_r. apply orb_comm.
Qed.

Lemma nonspace_rstrip s : has_nonspace (Py.rstrip s) = has_nonspace s.
Proof.
  unfold Py.rstrip.
  now rewrite nonspace_rev, (nonspace_drop Py.isspace), nonspace_rev.
Qed.

Lemma content_nonspace raw : content_bearing raw = has_nonspace raw.
Proof.
  unfold content_bearing, Py.strip, Py.lstrip.
  now rewrite truthy_lstrip, nonspace_rstrip.
Qed.

Lemma nonspace_times c n :
  Py.isspace c = true -> has_nonspace (Py.times c n) = false.
Proof.
  intros Hc. unfold Py.times.
  induction (Z.to_nat n) as [|k IH]; [reflexivity|].
  cbn [repeat]. unfold has_nonspace. cbn [existsb]. now rewrite Hc.
Qed.

Lemma nonspace_expandtabs tabsize s :
  forall col,
    has_nonspace (Py.expandtabs_from tabsize col s) = has_nonspace s.
Proof.
  induction s as [|c s IH]; intros col; [reflexivity|].
  cbn [Py.expandtabs_from]. destruct (eqc c TAB) eqn:Hc.
  - apply N.eqb_eq in Hc. subst c.
    change (has_nonspace (TAB :: s)) with (has_nonspace s).
    destruct (Z.ltb 0 tabsize); [|apply IH].
    now rewrite nonspace_app, nonspace_times, IH.
  - unfold has_nonspace. cbn [existsb]. f_equal. apply IH.
Qed.

Lemma sot_space c : space_or_tab c = true -> Py.isspace c = true.
Proof.
  unfold space_or_tab. rewrite orb_true_iff.
  intros [H | H]; apply N.eqb_eq in H; now subst c.
Qed.

Lemma nonspace_unify d line :
  decimal_table d ->
  has_nonspace line = true -> has_nonspace (unify_markers d line) = true.
Proof.
  intros Hd H. rewrite (unify_markers_spec d _ Hd).
  assert (Hb : has_nonspace (bullet_rule line) = true).
  { unfold bullet_rule. destruct (bullet_marker line); [reflexivity|exact H]. }
  unfold number_rule.
  destruct (num_marker d (bullet_rule line)) as [[tok rest]|]; [|exact Hb].
  rewrite nonspace_app. apply orb_true_iff. now right.
Qed.

Lemma nonspace_hyphen bullet line :
  has_nonspace line = true ->
  has_nonspace
    (sub HYPHEN_RE (fun _ => bullet_str bullet ++ [SP]) line) = true.
Proof.
  intros H. rewrite hyphen_step. destruct line as [|c [|s t]]; try exact H.
  destruct (eqc 45%N c && Py.isspace s)%bool; [|exact H].
  now destruct bullet.
Qed.

Lemma rest_nonspace indent_size raw :
  has_nonspace (Py.drop_while space_or_tab (Py.expanded indent_size raw))
  = has_nonspace raw.
Proof.
  rewrite (nonspace_drop space_or_tab) by apply sot_space.
  apply nonspace_expandtabs.
Qed.

Lemma ends_clean_rstrip s : ends_clean (Py.rstrip s) = true.
Proof.
  unfold ends_clean, Py.rstrip. rewrite rev_involutive.
  destruct (Py.drop_while Py.isspace (rev s)) as [|c r] eqn:E; [reflexivity|].
  now rewrite (drop_while_head Py.isspace (rev s) c r E).
Qed.

(** What a loop appends for a line, when every round appends one entry. *)
Lemma for_each_rows {A : Type} (body : str -> outcome (list A)) lines
      (R : str -> A -> Prop) :
  (forall raw, In raw lines -> exists x, body raw = Ok [x] /\ R raw x) ->
  exists xs, for_each body lines = Ok xs /\ Forall2 R lines xs.
Proof.
  induction lines as [|raw lines IH]; intros H.
  - exists []. split; [reflexivity | constructor].
  - destruct (H raw (or_introl eq_refl)) as (x & Hx & Rx).
    destruct IH as (xs & Hxs & Rxs); [intros r Hr; apply H; now right|].
    exists (x :: xs). cbn [for_each]. rewrite Hx, Hxs. cbn [bind app].
    split; [reflexivity | now constructor].
Qed.

End Rows.

(** The output line for a blank line is empty, and the output line for a
    line with content has content. *)
Definition row (raw out : str) : Prop :=
  if content_bearing raw then content_bearing out = true else out = [].

Lemma trimmed_row (trim : bool) raw line :
  content_bearing raw = true -> has_nonspace line = true ->
  let out := if trim then Py.rstrip line else line in
  row raw out /\ (trim = true -> ends_clean out = true).
Proof.
  intros Hraw Hline out. unfold row. rewrite Hraw. subst out. split.
  - rewrite Rows.content_nonspace.
    destruct trim; [now rewrite Rows.nonspace_rstrip | exact Hline].
  - intros ->. apply Rows.ends_clean_rstrip.
Qed.

Lemma markdown_rows d lines indent_size trim :
  decimal_table d -> Py.fits_int indent_size = true -> indent_size <> 0%Z ->
  (forall l, In l lines -> mem NL l = false) ->
  exists outs,
    lines_to_markdown d lines indent_size trim = Ok outs
    /\ Forall2 (fun raw out =>
                  row raw out /\ (trim = true -> ends_clean out = true))
               lines outs.
Proof.
  intros Hd Hfit Hnz Hl. apply Rows.for_each_rows. intros raw Hin.
  destruct (content_bearing raw) eqn:Hc; unfold content_bearing in Hc;
    rewrite Hc; cbn [negb].
  - rewrite (Indent.split_indent_line raw indent_size Hfit Hnz (Hl raw Hin)).
    cbn [bind]. eexists. split; [reflexivity|].
    apply trimmed_row; [exact Hc|].
    rewrite Rows.nonspace_app. apply orb_true_iff. right.
    apply (Rows.nonspace_unify d _ Hd).
    rewrite Rows.rest_nonspace, <- Rows.content_nonspace. exact Hc.
  - exists []. split; [reflexivity|]. unfold row, content_bearing.
    rewrite Hc. split; reflexivity.
Qed.

Lemma gdocs_rows d lines indent_size bullet trim :
  decimal_table d -> Py.fits_int indent_size = true -> indent_size <> 0%Z ->
  (forall l, In l lines -> mem NL l = false) ->
  exists outs,
    lines_to_gdocs d lines indent_size bullet trim = Ok outs
    /\ Forall2 (fun raw out =>
                  row raw out /\ (trim = true -> ends_clean out = true))
               lines outs.
Proof.
  intros Hd Hfit Hnz Hl. apply Rows.for_each_rows. intros raw Hin.
  destruct (content_bearing raw) eqn:Hc; unfold content_bearing in Hc;
    rewrite Hc; cbn [negb].
  - rewrite (Indent.split_indent_line raw indent_size Hfit Hnz (Hl raw Hin)).
    cbn [bind]. eexists. split; [reflexivity|].
    apply trimmed_row; [exact Hc|].
    rewrite Rows.nonspace_app. apply orb_true_iff. right.
    apply Rows.nonspace_hyphen, (Rows.nonspace_unify d _ Hd).
    rewrite Rows.rest_nonspace, <- Rows.content_nonspace. exact Hc.
  - exists []. split; [reflexivity|]. unfold row, content_bearing.
    rewrite Hc. split; reflexivity.
Qed.

Lemma plain_rows lines indent_size trim :
  Forall2 (fun raw out =>
             content_bearing out = content_bearing raw
             /\ (trim = true -> ends_clean out = true))
          lines (plain_lines lines indent_size trim).
Proof.
  unfold plain_lines. induction lines as [|raw lines IH]; constructor;
    [|exact IH].
  cbv zeta. rewrite !Rows.content_nonspace. split.
  - destruct trim; [rewrite Rows.nonspace_rstrip|];
      apply Rows.nonspace_expandtabs.
  - intros ->. apply Rows.ends_clean_rstrip.
Qed.

(** X9.  For a non-zero indent size that fits a C [int], the Markdown,
    the Google Docs and the plain-text renderer return one line for each
    line they are given.  For the first two it is the empty line for a blank
    line, and a line with content for a line with content; for the
    plain-text renderer it is blank where the line is blank and has content
    where the line has content. *)
Theorem renderers_keep_lines d (lines : list str) (indent_size : Z)
        (bullet : BulletSymbol) (trim_trailing_ws : bool) :
  decimal_table d -> Py.fits_int indent_size = true -> indent_size <> 0%Z ->
  (forall l, In l lines -> mem NL l = false) ->
  exists md gd pl,
    lines_to_markdown d lines indent_size trim_trailing_ws = Ok md
    /\ lines_to_gdocs d lines indent_size bullet trim_trailing_ws = Ok gd
    /\ lines_to_plain lines indent_size trim_trailing_ws = Ok pl
    /\ Forall2 row lines md
    /\ Forall2 row lines gd
    /\ Forall2 (fun raw out => content_bearing out = content_bearing raw)
               lines pl.
Proof.
  intros Hd Hfit Hnz Hl.
  destruct (markdown_rows d lines indent_size trim_trailing_ws Hd Hfit Hnz Hl)
    as (md & Hmd & Rmd).
  destruct (gdocs_rows d lines indent_size bullet trim_trailing_ws Hd Hfit
              Hnz Hl) as (gd & Hgd & Rgd).
  exists md, gd, (plain_lines lines indent_size trim_trailing_ws).
  split; [exact Hmd|]. split; [exact Hgd|].
  split; [exact (lines_to_plain_fits _ _ _ Hfit)|].
  split; [|split].
  - eapply Forall2_impl; [|exact Rmd]. now intros a b [H _].
  - eapply Forall2_impl; [|exact Rgd]. now intros a b [H _].
  - eapply Forall2_impl; [|apply plain_rows]. now intros a b [H _].
Qed.

Lemma renderers_keep_lines_witness :
  exists md gd pl,
    lines_to_markdown unicode_isdecimal
      [lit "* a"; [SP; TAB]; TAB :: lit "2) b "] 4 false = Ok md
    /\ lines_to_gdocs unicode_isdecimal
         [lit "* a"; [SP; TAB]; TAB :: lit "2) b "] 4 BulletDot false = Ok gd
    /\ lines_to_plain [lit "* a"; [SP; TAB]; TAB :: lit "2) b "] 4 false
       = Ok pl
    /\ Forall2 row [lit "* a"; [SP; TAB]; TAB :: lit "2) b "] md
    /\ Forall2 row [lit "* a"; [SP; TAB]; TAB :: lit "2) b "] gd
    /\ Forall2 (fun raw out => content_bearing out = content_bearing raw)
               [lit "* a"; [SP; TAB]; TAB :: lit "2) b "] pl.
Proof.
  apply (renderers_keep_lines unicode_isdecimal
           [lit "* a"; [SP; TAB]; TAB :: lit "2) b "] 4 BulletDot false
           unicode_decimal_table); [reflexivity | discriminate |].
  intros l [<- | [<- | [<- | []]]]; reflexivity.
Defined.

(** X10.  With [trim_trailing_ws] and a non-zero indent size that fits a
    C [int], no line that a renderer returns ends in whitespace. *)
Theorem renderers_trim d (lines : list str) (indent_size : Z)
        (bullet : BulletSymbol) :
  decimal_table d -> Py.fits_int indent_size = true -> indent_size <> 0%Z ->
  (forall l, In l lines -> mem NL l = false) ->
  exists md gd pl,
    lines_to_markdown d lines indent_size true = Ok md
    /\ lines_to_gdocs d lines indent_size bullet true = Ok gd
    /\ lines_to_plain lines indent_size true = Ok pl
    /\ Forall (fun out => ends_clean out = true) md
    /\ Forall (fun out => ends_clean out = true) gd
    /\ Forall (fun out => ends_clean out = true) pl.
Proof.
  intros Hd Hfit Hnz Hl.
  destruct (markdown_rows d lines indent_size true Hd Hfit Hnz Hl)
    as (md & Hmd & Rmd).
  destruct (gdocs_rows d lines indent_size bullet true Hd Hfit Hnz Hl)
    as (gd & Hgd & Rgd).
  assert (Hall : forall (R : str -> str -> Prop) (ls outs : list str),
             Forall2 (fun raw out => R raw out
                        /\ (true = true -> ends_clean out = true)) ls outs ->
             Forall (fun out => ends_clean out = true) outs).
  { intros R ls outs H. induction H as [|a b ls outs [_ Hb] _ IH];
      constructor; [now apply Hb | exact IH]. }
  exists md, gd, (plain_lines lines indent_size true).
  split; [exact Hmd|]. split; [exact Hgd|].
  split; [exact (lines_to_plain_fits _ _ _ Hfit)|].
  split; [|split].
  - exact (Hall _ _ _ Rmd).
  - exact (Hall _ _ _ Rgd).
  - exact (Hall _ _ _ (plain_rows lines indent_size true)).
Qed.

Lemma renderers_trim_witness :
  exists md gd pl,
    lines_to_markdown unicode_isdecimal
      [lit "* a  "; [SP; TAB]; TAB :: lit "2) b "] 4 true = Ok md
    /\ lines_to_gdocs unicode_isdecimal
         [lit "* a  "; [SP; TAB]; TAB :: lit "2) b "] 4 BulletDot true = Ok gd
    /\ lines_to_plain [lit "* a  "; [SP; TAB]; TAB :: lit "2) b "] 4 true
       = Ok pl
    /\ Forall (fun out => ends_clean out = true) md
    /\ Forall (fun out => ends_clean out = true) gd
    /\ Forall (fun out => ends_clean out = true) pl.
Proof.
  apply (renderers_trim unicode_isdecimal
           [lit "* a  "; [SP; TAB]; TAB :: lit "2) b "] 4 BulletDot
           unicode_decimal_table); [reflexivity | discriminate |].
  intros l [<- | [<- | [<- | []]]]; reflexivity.
Defined.

(** * The exceptions of [convert] *)

Lemma split_indent_zero raw : split_indent raw 0 = Raise ZeroDivisionError.
Proof.
  unfold split_indent. rewrite (Indent.expandtabs_fits 0 raw eq_refl).
  cbn [bind]. now destruct (re_match LEADING_WS_RE (Py.expanded 0 raw)).
Qed.

Lemma split_indent_overflow indent_size :
  Py.fits_int indent_size = false ->
  forall raw, split_indent raw indent_size = Raise OverflowError.
Proof.
  intros H raw. unfold split_indent.
  now rewrite (Indent.expandtabs_overflow _ _ H).
Qed.

(** A loop whose rounds raise at every line that is not blank. *)
Lemma for_each_raising {A : Type} (body : str -> outcome (list A))
      (blank : list A) (e : exn) lines :
  (forall raw, body raw = if content_bearing raw
                          then Raise e else Ok blank) ->
  for_each body lines =
  if existsb content_bearing lines then Raise e
  else Ok (flat_map (fun _ => blank) lines).
Proof.
  intros H. induction lines as [|raw lines IH]; [reflexivity|].
  cbn [for_each existsb flat_map]. rewrite H, IH.
  destruct (content_bearing raw); [reflexivity|].
  now destruct (existsb content_bearing lines).
Qed.

(** The targets whose renderer computes levels. *)
Definition LEVEL_TARGETS : list String.string :=
  ["Markdown / Obsidian"; "Slack-friendly"; "Google Docs-friendly";
   "JSON outline (beta)"]%string.

(** Where [split_indent] raises, the renderers that compute levels raise at
    the first line that is not blank. *)
Section Raising.

Variables (d : char -> bool) (indent_size : Z) (e : exn).
Hypothesis split_indent_raising :
  forall raw, split_indent raw indent_size = Raise e.

Lemma markdown_raising lines trim :
  lines_to_markdown d lines indent_size trim =
  if existsb content_bearing lines then Raise e
  else Ok (flat_map (fun _ => [[]]) lines).
Proof.
  apply for_each_raising. intros raw. unfold content_bearing.
  destruct (Py.truthy (Py.strip raw)); [|reflexivity].
  cbn [negb]. now rewrite split_indent_raising.
Qed.

Lemma gdocs_raising lines bullet trim :
  lines_to_gdocs d lines indent_size bullet trim =
  if existsb content_bearing lines then Raise e
  else Ok (flat_map (fun _ => [[]]) lines).
Proof.
  apply for_each_raising. intros raw. unfold content_bearing.
  destruct (Py.truthy (Py.strip raw)); [|reflexivity].
  cbn [negb]. now rewrite split_indent_raising.
Qed.

Lemma outline_raising lines :
  outline_items d lines indent_size =
  if existsb content_bearing lines then Raise e
  else Ok (flat_map (fun _ => []) lines).
Proof.
  apply for_each_raising. intros raw. unfold content_bearing.
  destruct (Py.truthy (Py.strip raw)); [|reflexivity].
  cbn [negb]. now rewrite split_indent_raising.
Qed.

(** The rendering for a target other than plain text. *)
Lemma rendered_raising lines target trim wrap bullet e' :
  String.eqb target "Plain text" = false ->
  rendered d lines target indent_size trim wrap bullet = Raise e'
  <-> e' = e
      /\ existsb (String.eqb target) LEVEL_TARGETS = true
      /\ existsb content_bearing lines = true.
Proof.
  intros Ep. unfold rendered, to_json_outline, LEVEL_TARGETS.
  cbn [existsb]. rewrite Ep, markdown_raising, gdocs_raising, outline_raising.
  destruct (String.eqb target "Markdown / Obsidian");
    [|destruct (String.eqb target "Slack-friendly");
      [|destruct (String.eqb target "Google Docs-friendly");
        [|destruct (String.eqb target "JSON outline (beta)")]]];
    cbn [orb bind];
    destruct (existsb content_bearing lines); cbn [bind];
    (split;
     [intros H; try discriminate H; injection H as <-; repeat split
     |intros (-> & H1 & H2); try discriminate H1; try discriminate H2;
      reflexivity]).
Qed.

End Raising.

Lemma split_nonempty c s : Py.split c s <> [].
Proof.
  destruct s as [|x t]; cbn [Py.split]; [discriminate|].
  destruct (eqc x c); [discriminate|].
  destruct (Py.split c t); discriminate.
Qed.

(** The rendering as plain text. *)
Lemma rendered_plain d lines indent_size trim wrap bullet :
  rendered d lines "Plain text"%string indent_size trim wrap bullet
  = (out_lines <- lines_to_plain lines indent_size trim ;;
     Ok (Py.join [NL] out_lines)).
Proof. reflexivity. Qed.

(** X11.  [convert] raises [ZeroDivisionError] exactly when the indent
    size is 0, the target is one whose renderer computes levels, and some
    line of the text that is rendered is not blank.  It raises
    [OverflowError] exactly when the indent size does not fit a C [int] and
    the target is plain text, or is one whose renderer computes levels
    while some line of the text that is rendered is not blank. *)
Theorem convert_raises_iff d (text : str) (source target : String.string)
        (indent_size : Z)
        (collapse_blank_lines trim_trailing_ws keep_code_fences
           slack_wrap_codeblock : bool)
        (gdocs_bullet_symbol : BulletSymbol) (convert_smart_quotes : bool) :
  let pre := prepared text source convert_smart_quotes in
  let body := if keep_code_fences then fst (extract_code_fences pre)
              else pre in
  (convert d text source target indent_size collapse_blank_lines
           trim_trailing_ws keep_code_fences slack_wrap_codeblock
           gdocs_bullet_symbol convert_smart_quotes = Raise ZeroDivisionError
   <-> indent_size = 0%Z
       /\ existsb (String.eqb target) LEVEL_TARGETS = true
       /\ existsb content_bearing (Py.split NL body) = true)
  /\ (convert d text source target indent_size collapse_blank_lines
              trim_trailing_ws keep_code_fences slack_wrap_codeblock
              gdocs_bullet_symbol convert_smart_quotes = Raise OverflowError
      <-> Py.fits_int indent_size = false
          /\ (String.eqb target "Plain text" = true
              \/ existsb (String.eqb target) LEVEL_TARGETS = true
                 /\ existsb content_bearing (Py.split NL body) = true)).
Proof.
  intros pre body.
  pose proof (fun e =>
                convert_raise_rendered d text source target indent_size
                  collapse_blank_lines trim_trailing_ws keep_code_fences
                  slack_wrap_codeblock gdocs_bullet_symbol
                  convert_smart_quotes e) as Hc.
  cbv zeta in Hc. fold pre in Hc. fold body in Hc. rewrite !Hc. clear Hc.
  set (lines := Py.split NL body).
  assert (Hraise : forall e,
             rendered d lines target indent_size trim_trailing_ws
               slack_wrap_codeblock gdocs_bullet_symbol = Raise e ->
             raised_by indent_size e)
    by (intros e; apply rendered_raises).
  destruct (String.eqb target "Plain text") eqn:Ep.
  - apply String.eqb_eq in Ep. subst target. rewrite rendered_plain.
    destruct (Py.fits_int indent_size) eqn:Hfit.
    + rewrite (lines_to_plain_fits _ _ _ Hfit). cbn [bind].
      split; (split; [discriminate|]).
      * intros (_ & H & _). discriminate H.
      * intros [H _]. discriminate H.
    + rewrite (lines_to_plain_overflow _ _ _ Hfit (split_nonempty NL body)).
      cbn [bind]. split; split.
      * discriminate.
      * intros (_ & H & _). discriminate H.
      * intros _. split; [reflexivity | now left].
      * reflexivity.
  - destruct (Py.fits_int indent_size) eqn:Hfit.
    + split.
      * destruct (Z.eq_dec indent_size 0) as [-> | Hnz].
        -- rewrite (rendered_raising d 0 ZeroDivisionError split_indent_zero
                      lines target _ _ _ ZeroDivisionError Ep).
           tauto.
        -- destruct (rendered_total d lines target indent_size
                       trim_trailing_ws slack_wrap_codeblock
                       gdocs_bullet_symbol Hfit Hnz) as [result ->].
           split; [discriminate | intros [H _]; contradiction].
      * split; [|intros [H _]; discriminate H].
        intros H. apply Hraise in H. cbn in H. congruence.
    + pose proof (rendered_raising d indent_size OverflowError
                    (split_indent_overflow indent_size Hfit) lines target
                    trim_trailing_ws slack_wrap_codeblock
                    gdocs_bullet_symbol) as R.
      split.
      * rewrite (R ZeroDivisionError Ep).
        split; [intros [H _]; discriminate H|].
        intros [-> _]. discriminate Hfit.
      * rewrite (R OverflowError Ep). split.
        -- intros (_ & H1 & H2). split; [reflexivity | now right].
        -- intros (_ & [H | [H1 H2]]); [discriminate H | now repeat split].
Qed.

Lemma convert_raises_iff_witness :
  convert unicode_isdecimal (NL :: lit "  a") "Auto"%string
          "Slack-friendly"%string 0 true true true true BulletDot true
  = Raise ZeroDivisionError
  /\ convert unicode_isdecimal (NL :: lit "  a") "Auto"%string
             "Plain text"%string 2147483648 true true true true BulletDot
             true
     = Raise OverflowError.
Proof.
  split.
  - apply (proj1 (convert_raises_iff unicode_isdecimal (NL :: lit "  a")
                    "Auto"%string "Slack-friendly"%string 0 true true true
                    true BulletDot true)).
    repeat split.
  - apply (proj2 (convert_raises_iff unicode_isdecimal (NL :: lit "  a")
                    "Auto"%string "Plain text"%string 2147483648 true true
                    true true BulletDot true)).
    split; [reflexivity | now left].
Defined.

(** * Tabs in the output *)

Module Tabs.

Lemma expandtabs_tab_free tabsize s :
  forall col, mem TAB (Py.expandtabs_from tabsize col s) = false.
Proof.
  induction s as [|c s IH]; intros col; cbn [Py.expandtabs_from];
    [reflexivity|].
  destruct (eqc c TAB) eqn:Hc.
  - destruct (Z.ltb 0 tabsize); [|apply IH].
    rewrite Indent.mem_app, IH, Indent.mem_times; reflexivity.
  - now rewrite Indent.mem_cons, (Indent.eqc_sym TAB c), Hc, IH.
Qed.

Lemma mem_drop_while c (p : char -> bool) s :
  mem c s = false -> mem c (Py.drop_while p s) = false.
Proof.
  induction s as [|x s IH]; [reflexivity|].
  cbn [Py.drop_while]. destruct (p x); [|auto].
  rewrite Indent.mem_cons, orb_false_iff. intros [_ H]. auto.
Qed.

Lemma mem_rev c s : mem c (rev s) = mem c s.
Proof.
  induction s as [|x s IH]; [reflexivity|].
  cbn [rev]. rewrite Indent.mem_app, IH, !Indent.mem_cons.
  cbn [mem existsb]. rewrite orb_false_r. apply orb_comm.
Qed.

Lemma mem_rstrip c s : mem c s = false -> mem c (Py.rstrip s) = false.
Proof.
  intros H. unfold Py.rstrip. rewrite mem_rev.
  apply mem_drop_while. now rewrite mem_rev.
Qed.

Lemma mem_join c sep ls :
  mem c sep = false -> Forall (fun l => mem c l = false) ls ->
  mem c (Py.join sep ls) = false.
Proof.
  intros Hsep H. induction H as [|l ls Hl _ IH]; [reflexivity|].
  destruct ls as [|l' ls]; [exact Hl|].
  rewrite Lines.join_cons, !Indent.mem_app, Hl, Hsep. exact IH.
Qed.

(** A substitution brings in no character that the text and the
    replacements lack. *)
Lemma mem_sub c r repl s :
  sound r -> nonempty r ->
  (forall m, mem c (repl m) = false) ->
  mem c s = false -> mem c (sub r repl s) = false.
Proof.
  intros Hs Hne Hrepl. rewrite Scan.sub_render. unfold pieces.
  generalize (@None char).
  intros prev. revert prev s.
  apply (Scan.scan_induction r
           (fun prev s ps => mem c s = false ->
                             mem c (Scan.render repl ps) = false) Hs Hne).
  - reflexivity.
  - intros prev x t _ IH H. rewrite Indent.mem_cons in H.
    apply orb_false_iff in H as [Hx Ht].
    cbn [Scan.render flat_map app]. fold (Scan.render repl).
    rewrite Indent.mem_cons, Hx. now apply IH.
  - intros prev s m tl E IH H.
    assert (Hm : In m (r prev s)) by (rewrite E; now left).
    pose proof (Hs _ _ _ Hm) as Hsplit. rewrite Hsplit in H.
    rewrite Indent.mem_app in H. apply orb_false_iff in H as [_ Ha].
    cbn [Scan.render flat_map]. fold (Scan.render repl).
    rewrite Indent.mem_app, Hrepl. now apply IH.
Qed.

Lemma mem_bullet_rule line :
  mem TAB line = false -> mem TAB (bullet_rule line) = false.
Proof.
  intros H. unfold bullet_rule.
  destruct (bullet_marker line) as [rest|] eqn:E; [|exact H].
  apply bullet_marker_inv in E as (c & w & t & -> & _ & _ & ->).
  rewrite !Indent.mem_cons in H.
  apply orb_false_iff in H as [_ H]. apply orb_false_iff in H as [_ H].
  change (lit "- " ++ Py.drop_while Py.isspace t)
    with (45%N :: SP :: Py.drop_while Py.isspace t).
  rewrite !Indent.mem_cons. now rewrite mem_drop_while.
Qed.

Lemma mem_number_rule d line :
  mem TAB line = false -> mem TAB (number_rule d line) = false.
Proof.
  intros H. unfold number_rule.
  destruct (num_marker d line) as [[tok rest]|] eqn:E; [|exact H].
  apply num_marker_inv in E as (_ & c & w & t & -> & _ & _ & ->).
  rewrite Indent.mem_app, !Indent.mem_cons in H.
  apply orb_false_iff in H as [Htok H].
  apply orb_false_iff in H as [_ H]. apply orb_false_iff in H as [_ H].
  change (lit ". " ++ Py.drop_while Py.isspace t)
    with (46%N :: SP :: Py.drop_while Py.isspace t).
  rewrite Indent.mem_app, !Indent.mem_cons, Htok.
  now rewrite mem_drop_while.
Qed.

Lemma mem_unify d line :
  decimal_table d ->
  mem TAB line = false -> mem TAB (unify_markers d line) = false.
Proof.
  intros Hd H. rewrite (unify_markers_spec d _ Hd).
  now apply mem_number_rule, mem_bullet_rule.
Qed.

Lemma mem_trimmed (trim : bool) line :
  mem TAB line = false ->
  mem TAB (if trim then Py.rstrip line else line) = false.
Proof. intros H. destruct trim; [now apply mem_rstrip | exact H]. Qed.

Lemma markdown_tab_free d lines indent_size trim :
  decimal_table d -> Py.fits_int indent_size = true -> indent_size <> 0%Z ->
  (forall l, In l lines -> mem NL l = false) ->
  exists outs,
    lines_to_markdown d lines indent_size trim = Ok outs
    /\ Forall2 (fun _ out => mem TAB out = false) lines outs.
Proof.
  intros Hd Hfit Hnz Hl. apply Rows.for_each_rows. intros raw Hin.
  destruct (negb (Py.truthy (Py.strip raw))); [now exists []|].
  rewrite (Indent.split_indent_line raw indent_size Hfit Hnz (Hl raw Hin)).
  cbn [bind]. eexists. split; [reflexivity|].
  apply mem_trimmed. rewrite Indent.mem_app, Indent.mem_times by reflexivity.
  apply (mem_unify d _ Hd), mem_drop_while, expandtabs_tab_free.
Qed.

Lemma plain_tab_free lines indent_size trim :
  Forall (fun out => mem TAB out = false)
         (plain_lines lines indent_size trim).
Proof.
  unfold plain_lines. apply Forall_forall. intros out Hin.
  apply in_map_iff in Hin as (raw & <- & _).
  apply mem_trimmed, expandtabs_tab_free.
Qed.

Lemma forall2_right {A B : Type} (P : B -> Prop) (xs : list A) ys :
  Forall2 (fun _ y => P y) xs ys -> Forall P ys.
Proof. induction 1; constructor; assumption. Qed.

Lemma mem_collapsed collapse s :
  mem TAB s = false -> mem TAB (collapsed collapse s) = false.
Proof.
  intros H. unfold collapsed. destruct collapse; [|exact H].
  apply mem_sub; auto using sound_blank, nonempty_blank.
Qed.

End Tabs.

(** The targets that are rendered with spaces only. *)
Definition SPACE_TARGETS : list String.string :=
  ["Markdown / Obsidian"; "Slack-friendly"; "Plain text"]%string.

(** X12.  Without [keep_code_fences] and for a non-zero indent size that
    fits a C [int], the output of [convert] for the Markdown, the Slack and
    the plain-text target holds no tab: every tab of the text is
    expanded. *)
Theorem convert_expands_tabs d (text : str) (source target : String.string)
        (indent_size : Z)
        (collapse_blank_lines trim_trailing_ws slack_wrap_codeblock : bool)
        (gdocs_bullet_symbol : BulletSymbol) (convert_smart_quotes : bool) :
  decimal_table d -> Py.fits_int indent_size = true -> indent_size <> 0%Z ->
  existsb (String.eqb target) SPACE_TARGETS = true ->
  exists out,
    convert d text source target indent_size collapse_blank_lines
            trim_trailing_ws false slack_wrap_codeblock gdocs_bullet_symbol
            convert_smart_quotes = Ok out
    /\ mem TAB out = false.
Proof.
  intros Hd Hfit Hnz Ht. rewrite convert_steps. cbv zeta. cbn [fst snd].
  set (lines := Py.split NL (prepared text source convert_smart_quotes)).
  assert (Hl : forall l, In l lines -> mem NL l = false)
    by (intros l; apply Outline.split_no_sep).
  destruct (Tabs.markdown_tab_free d lines indent_size trim_trailing_ws
              Hd Hfit Hnz Hl) as (md & Hmd & Rmd).
  apply Tabs.forall2_right in Rmd.
  pose proof (Tabs.mem_join TAB [NL] md eq_refl Rmd) as Hj.
  unfold SPACE_TARGETS in Ht. cbn [existsb] in Ht.
  rewrite orb_false_r, !orb_true_iff in Ht.
  destruct Ht as [Ht | [Ht | Ht]]; apply String.eqb_eq in Ht; subst target;
    unfold rendered; simpl String.eqb; cbv iota.
  - rewrite Hmd. cbn [bind]. eexists. split; [reflexivity|].
    now apply Tabs.mem_collapsed.
  - rewrite Hmd. cbn [bind]. eexists. split; [reflexivity|].
    apply Tabs.mem_collapsed. destruct slack_wrap_codeblock; [|exact Hj].
    change (lit "```" ++ NL :: Py.join [NL] md ++ NL :: lit "```")
      with (lit "```" ++ [NL] ++ Py.join [NL] md ++ NL :: lit "```").
    rewrite !Indent.mem_app, Hj. reflexivity.
  - rewrite (lines_to_plain_fits _ _ _ Hfit). cbn [bind].
    eexists. split; [reflexivity|].
    apply Tabs.mem_collapsed, Tabs.mem_join; [reflexivity|].
    apply Tabs.plain_tab_free.
Qed.

Lemma convert_expands_tabs_witness :
  exists out,
    convert unicode_isdecimal (TAB :: lit "* a" ++ TAB :: lit "b")
            "Auto"%string "Slack-friendly"%string 4 true false false true
            BulletDot true = Ok out
    /\ mem TAB out = false.
Proof.
  apply (convert_expands_tabs unicode_isdecimal
           (TAB :: lit "* a" ++ TAB :: lit "b") "Auto"%string
           "Slack-friendly"%string 4 true false true BulletDot true
           unicode_decimal_table); [reflexivity | discriminate | reflexivity].
Defined.

(** * A list item, rendered *)

Module Items.

Lemma bullet_not_space c : mem c BULLET_CHARS = true -> Py.isspace c = false.
Proof.
  intros H. apply Kept.mem_in in H. unfold BULLET_CHARS in H. cbn [In] in H.
  repeat (destruct H as [<- | H]; [reflexivity|]). contradiction.
Qed.

Lemma not_space_not_indent c : Py.isspace c = false -> space_or_tab c = false.
Proof.
  intros H. destruct (space_or_tab c) eqn:E; [|reflexivity].
  apply Rows.sot_space in E. congruence.
Qed.

Lemma indent_run n : forallb space_or_tab (Py.times SP n) = true.
Proof.
  unfold Py.times. induction (Z.to_nat n) as [|k IH]; simpl; auto.
Qed.

Lemma len_times c n : (0 <= n)%Z -> Py.len (Py.times c n) = n.
Proof.
  intros H. unfold Py.len, Py.times. rewrite repeat_length. lia.
Qed.

(** The level and the rest of a line that is indented by a multiple of the
    indent size, in spaces. *)
Lemma split_indent_spaces indent_size level c body :
  (0 < indent_size)%Z -> Py.fits_int indent_size = true -> (0 <= level)%Z ->
  Py.isspace c = false ->
  mem TAB (c :: body) = false -> mem NL (c :: body) = false ->
  split_indent (Py.times SP (indent_size * level) ++ c :: body) indent_size
  = Ok (level, c :: body).
Proof.
  intros Hpos Hfit Hlevel Hc Htab Hnl.
  assert (Hcopy : Py.expanded indent_size
                    (Py.times SP (indent_size * level) ++ c :: body)
                  = Py.times SP (indent_size * level) ++ c :: body).
  { apply Lines.expandtabs_copy.
    rewrite Indent.mem_app, Indent.mem_times by reflexivity. exact Htab. }
  rewrite Indent.split_indent_line; [|exact Hfit|lia|].
  - rewrite Hcopy.
    destruct (run_app space_or_tab (Py.times SP (indent_size * level)) c body
                (indent_run _) (not_space_not_indent c Hc)) as [-> ->].
    rewrite len_times by nia.
    now rewrite Z.mul_comm, Z.div_mul by lia.
  - rewrite Indent.mem_app, Indent.mem_times by reflexivity. exact Hnl.
Qed.

Lemma content_item n c body :
  Py.isspace c = false ->
  Py.truthy (Py.strip (Py.times SP n ++ c :: body)) = true.
Proof.
  intros Hc. fold (content_bearing (Py.times SP n ++ c :: body)).
  rewrite Rows.content_nonspace, Rows.nonspace_app.
  apply orb_true_iff. right. unfold has_nonspace. cbn [existsb].
  now rewrite Hc.
Qed.

(** A round that appends one entry, between the rounds before and after
    it. *)
Lemma for_each_middle {A : Type} (body : str -> outcome (list A)) raw x :
  body raw = Ok [x] ->
  forall before after o1 o2,
    for_each body before = Ok o1 -> for_each body after = Ok o2 ->
    for_each body (before ++ raw :: after) = Ok (o1 ++ x :: o2).
Proof.
  intros Hx before after. induction before as [|a before IH];
    intros o1 o2 H1 H2.
  - injection H1 as <-. cbn [app for_each]. rewrite Hx, H2. reflexivity.
  - cbn [app for_each] in H1 |- *.
    destruct (body a) as [xa|]; cbn [bind] in H1 |- *; [|discriminate].
    destruct (for_each body before) as [o|] eqn:E; cbn [bind] in H1;
      [|discriminate].
    injection H1 as <-. rewrite (IH o o2 eq_refl H2). cbn [bind].
    now rewrite <- app_assoc.
Qed.

Lemma token_not_space d tok :
  decimal_table d -> is_token d tok = true ->
  exists a t, tok = a :: t /\ Py.isspace a = false /\ eqc 45%N a = false.
Proof.
  intros Hd Htok. pose proof (token_no_space d tok Hd Htok) as Hns.
  destruct tok as [|a t]; [discriminate|]. exists a, t.
  cbn [forallb] in Hns. apply andb_true_iff in Hns as [Ha _].
  apply negb_true_iff in Ha. split; [reflexivity|]. split; [exact Ha|].
  destruct (eqc 45%N a) eqn:E; [|reflexivity].
  apply N.eqb_eq in E. subst a. exfalso.
  pose proof (num_marker_token d (45%N :: t) 41%N SP [] Hd Htok eq_refl
                eq_refl) as H.
  cbn [app] in H. rewrite (num_marker_hyphen d _ Hd) in H. discriminate.
Qed.

End Items.

(** X13.  A bullet item: a line indented by [level] times the indent size
    in spaces, then a bullet character, whitespace and the text of the
    item.  Wherever the line stands among the lines, for a positive indent
    size that fits a C [int], the renderers give for it at its place: the
    Markdown renderer the same indent, a hyphen, one space and the text;
    the Google Docs renderer [level] tabs, the chosen bullet symbol, one
    space and the text; both with the whitespace at the end stripped when
    [trim_trailing_ws] is set; the outline a record of the level and of
    the text behind a hyphen and one space. *)
Theorem bullet_item_rendered d (indent_size level : Z) (c : char)
        (ws rest : str) (bullet : BulletSymbol) (trim_trailing_ws : bool)
        (before after : list str) :
  decimal_table d ->
  (0 < indent_size)%Z -> Py.fits_int indent_size = true -> (0 <= level)%Z ->
  mem c BULLET_CHARS = true ->
  ws <> [] -> forallb Py.isspace ws = true ->
  Py.lstrip rest = rest ->
  mem TAB (ws ++ rest) = false -> mem NL (ws ++ rest) = false ->
  let raw := Py.times SP (indent_size * level) ++ c :: ws ++ rest in
  let trimmed (line : str) :=
    if trim_trailing_ws then Py.rstrip line else line in
  (forall o1 o2,
     lines_to_markdown d before indent_size trim_trailing_ws = Ok o1 ->
     lines_to_markdown d after indent_size trim_trailing_ws = Ok o2 ->
     lines_to_markdown d (before ++ raw :: after) indent_size
       trim_trailing_ws
     = Ok (o1 ++ trimmed (Py.times SP (indent_size * level)
                          ++ lit "- " ++ rest) :: o2))
  /\ (forall o1 o2,
        lines_to_gdocs d before indent_size bullet trim_trailing_ws = Ok o1 ->
        lines_to_gdocs d after indent_size bullet trim_trailing_ws = Ok o2 ->
        lines_to_gdocs d (before ++ raw :: after) indent_size bullet
          trim_trailing_ws
        = Ok (o1 ++ trimmed (Py.times TAB level
                             ++ bullet_str bullet ++ SP :: rest) :: o2))
  /\ (forall o1 o2,
        outline_items d before indent_size = Ok o1 ->
        outline_items d after indent_size = Ok o2 ->
        outline_items d (before ++ raw :: after) indent_size
        = Ok (o1 ++ mkItem level (lit "- " ++ rest) :: o2)).
Proof.
  intros Hd Hpos Hfit Hlevel Hc Hne Hws Hrest Htab Hnl raw trimmed.
  pose proof (Items.bullet_not_space c Hc) as Hsp.
  assert (Hc9 : eqc TAB c = false).
  { destruct (eqc TAB c) eqn:E; [|reflexivity].
    apply N.eqb_eq in E. now subst c. }
  assert (Hc10 : eqc NL c = false).
  { destruct (eqc NL c) eqn:E; [|reflexivity].
    apply N.eqb_eq in E. now subst c. }
  assert (Hsplit : split_indent raw indent_size = Ok (level, c :: ws ++ rest)).
  { apply Items.split_indent_spaces; auto.
    - now rewrite Indent.mem_cons, Hc9.
    - now rewrite Indent.mem_cons, Hc10. }
  assert (Hu : unify_markers d (c :: ws ++ rest) = lit "- " ++ rest).
  { rewrite (unify_markers_spec d _ Hd).
    rewrite (bullet_rule_line c ws rest Hc Hne Hws Hrest).
    apply (number_rule_hyphen d _ Hd). }
  assert (Hcontent : Py.truthy (Py.strip raw) = true)
    by (subst raw; apply (Items.content_item _ c (ws ++ rest) Hsp)).
  assert (Hh : sub HYPHEN_RE (fun _ => bullet_str bullet ++ [SP])
                 (lit "- " ++ rest)
               = bullet_str bullet ++ SP :: rest).
  { rewrite Kept.hyphen_step.
    change (lit "- " ++ rest) with (45%N :: SP :: rest). cbv iota.
    change (eqc 45%N 45%N && Py.isspace SP)%bool with true. cbv iota.
    fold (Py.lstrip rest). rewrite Hrest. now rewrite <- app_assoc. }
  unfold lines_to_markdown, lines_to_gdocs, outline_items.
  split; [|split]; intros o1 o2; apply Items.for_each_middle;
    rewrite Hcontent; cbn [negb]; rewrite Hsplit; cbn [bind]; rewrite Hu;
    [reflexivity | now rewrite Hh | reflexivity].
Qed.

Lemma bullet_item_rendered_witness :
  lines_to_markdown unicode_isdecimal
    ([lit "list"]
     ++ (Py.times SP (4 * 2) ++ 8226%N :: lit "  " ++ lit "item ") :: [[]])
    4 true
  = Ok ([lit "list"]
        ++ Py.rstrip (Py.times SP (4 * 2) ++ lit "- " ++ lit "item ") :: [[]])
  /\ lines_to_gdocs unicode_isdecimal
       ([lit "list"]
        ++ (Py.times SP (4 * 2) ++ 8226%N :: lit "  " ++ lit "item ") :: [[]])
       4 BulletDot true
     = Ok ([lit "list"]
           ++ Py.rstrip (Py.times TAB 2 ++ bullet_str BulletDot
                         ++ SP :: lit "item ") :: [[]])
  /\ outline_items unicode_isdecimal
       ([lit "list"]
        ++ (Py.times SP (4 * 2) ++ 8226%N :: lit "  " ++ lit "item ") :: [[]])
       4
     = Ok ([mkItem 0 (lit "list")]
           ++ mkItem 2 (lit "- " ++ lit "item ") :: []).
Proof.
  destruct (bullet_item_rendered unicode_isdecimal 4 2 8226%N (lit "  ")
              (lit "item ") BulletDot true [lit "list"] [[]]
              unicode_decimal_table)
    as (Hm & Hg & Ho); try (reflexivity || discriminate || lia).
  split; [apply Hm; reflexivity|].
  split; [apply Hg; reflexivity | apply Ho; reflexivity].
Defined.

(** X14.  A numbered item: a line indented by [level] times the indent
    size in spaces, then a token, a closer, whitespace and the text of the
    item.  Wherever the line stands among the lines, for a positive indent
    size that fits a C [int], the renderers give for it at its place: the
    Markdown renderer the same indent, the token, a full stop, one space
    and the text; the Google Docs renderer [level] tabs before the same;
    both with the whitespace at the end stripped when [trim_trailing_ws]
    is set; the outline a record of the level and of the token, the full
    stop, the space and the text. *)
Theorem numbered_item_rendered d (indent_size level : Z) (tok : str)
        (c : char) (ws rest : str) (bullet : BulletSymbol)
        (trim_trailing_ws : bool) (before after : list str) :
  decimal_table d ->
  (0 < indent_size)%Z -> Py.fits_int indent_size = true -> (0 <= level)%Z ->
  is_token d tok = true -> closer c = true ->
  ws <> [] -> forallb Py.isspace ws = true ->
  Py.lstrip rest = rest ->
  mem TAB (tok ++ c :: ws ++ rest) = false ->
  mem NL (tok ++ c :: ws ++ rest) = false ->
  let raw := Py.times SP (indent_size * level) ++ tok ++ c :: ws ++ rest in
  let trimmed (line : str) :=
    if trim_trailing_ws then Py.rstrip line else line in
  (forall o1 o2,
     lines_to_markdown d before indent_size trim_trailing_ws = Ok o1 ->
     lines_to_markdown d after indent_size trim_trailing_ws = Ok o2 ->
     lines_to_markdown d (before ++ raw :: after) indent_size
       trim_trailing_ws
     = Ok (o1 ++ trimmed (Py.times SP (indent_size * level)
                          ++ tok ++ lit ". " ++ rest) :: o2))
  /\ (forall o1 o2,
        lines_to_gdocs d before indent_size bullet trim_trailing_ws = Ok o1 ->
        lines_to_gdocs d after indent_size bullet trim_trailing_ws = Ok o2 ->
        lines_to_gdocs d (before ++ raw :: after) indent_size bullet
          trim_trailing_ws
        = Ok (o1 ++ trimmed (Py.times TAB level
                             ++ tok ++ lit ". " ++ rest) :: o2))
  /\ (forall o1 o2,
        outline_items d before indent_size = Ok o1 ->
        outline_items d after indent_size = Ok o2 ->
        outline_items d (before ++ raw :: after) indent_size
        = Ok (o1 ++ mkItem level (tok ++ lit ". " ++ rest) :: o2)).
Proof.
  intros Hd Hpos Hfit Hlevel Htok Hc Hne Hws Hrest Htab Hnl raw trimmed.
  destruct (Items.token_not_space d tok Hd Htok) as (a & t & -> & Ha & Hh).
  destruct ws as [|w ws]; [contradiction|].
  cbn [forallb] in Hws. apply andb_true_iff in Hws as [Hw Hws].
  assert (Hsplit : split_indent raw indent_size
                   = Ok (level, (a :: t) ++ c :: (w :: ws) ++ rest)).
  { apply (Items.split_indent_spaces indent_size level a
             (t ++ c :: (w :: ws) ++ rest)); auto. }
  assert (Hu : unify_markers d ((a :: t) ++ c :: (w :: ws) ++ rest)
               = (a :: t) ++ lit ". " ++ rest).
  { change ((w :: ws) ++ rest) with (w :: ws ++ rest).
    rewrite (unify_markers_spec d _ Hd). unfold bullet_rule.
    rewrite (bullet_marker_token d (a :: t) c _ Hd Htok Hc).
    unfold number_rule.
    rewrite (num_marker_token d (a :: t) c w (ws ++ rest) Hd Htok Hc Hw).
    now rewrite (drop_run Py.isspace ws rest Hws Hrest). }
  assert (Hcontent : Py.truthy (Py.strip raw) = true)
    by (subst raw; apply (Items.content_item _ a _ Ha)).
  assert (Hy : sub HYPHEN_RE (fun _ => bullet_str bullet ++ [SP])
                 ((a :: t) ++ lit ". " ++ rest)
               = (a :: t) ++ lit ". " ++ rest).
  { rewrite Kept.hyphen_step. cbn [app]. rewrite Hh. cbn [andb].
    now destruct (t ++ lit ". " ++ rest). }
  unfold lines_to_markdown, lines_to_gdocs, outline_items.
  split; [|split]; intros o1 o2; apply Items.for_each_middle;
    rewrite Hcontent; cbn [negb]; rewrite Hsplit; cbn [bind]; rewrite Hu;
    [reflexivity | now rewrite Hy | reflexivity].
Qed.

Lemma numbered_item_rendered_witness :
  lines_to_markdown unicode_isdecimal
    ([lit "list"]
     ++ (Py.times SP (2 * 3) ++ lit "iv" ++ 41%N :: lit " " ++ lit "item ")
        :: [[]])
    2 true
  = Ok ([lit "list"]
        ++ Py.rstrip (Py.times SP (2 * 3) ++ lit "iv" ++ lit ". "
                      ++ lit "item ") :: [[]])
  /\ lines_to_gdocs unicode_isdecimal
       ([lit "list"]
        ++ (Py.times SP (2 * 3) ++ lit "iv" ++ 41%N :: lit " "
            ++ lit "item ") :: [[]])
       2 BulletHyphen true
     = Ok ([lit "list"]
           ++ Py.rstrip (Py.times TAB 3 ++ lit "iv" ++ lit ". "
                         ++ lit "item ") :: [[]])
  /\ outline_items unicode_isdecimal
       ([lit "list"]
        ++ (Py.times SP (2 * 3) ++ lit "iv" ++ 41%N :: lit " "
            ++ lit "item ") :: [[]])
       2
     = Ok ([mkItem 0 (lit "list")]
           ++ mkItem 3 (lit "iv" ++ lit ". " ++ lit "item ") :: []).
Proof.
  destruct (numbered_item_rendered unicode_isdecimal 2 3 (lit "iv") 41%N
              (lit " ") (lit "item ") BulletHyphen true [lit "list"] [[]]
              unicode_decimal_table)
    as (Hm & Hg & Ho); try (reflexivity || discriminate || lia).
  split; [apply Hm; reflexivity|].
  split; [apply Hg; reflexivity | apply Ho; reflexivity].
Defined.

(** * The collapse, on a text that needs none *)

Lemma is_nl_eq c : is_nl c = true -> c = NL.
Proof. unfold is_nl. intros H. apply N.eqb_eq in H. now subst c. Qed.

Lemma nl_run_three s : 3 <= nl_run s -> exists b, s = [NL; NL; NL] ++ b.
Proof.
  unfold nl_run. destruct s as [|x1 [|x2 [|x3 b]]]; cbn [Py.take_while];
    try (cbn [length]; lia).
  - destruct (is_nl x1); cbn [length]; lia.
  - destruct (is_nl x1); [|cbn [length]; lia].
    destruct (is_nl x2); cbn [length]; lia.
  - destruct (is_nl x1) eqn:E1; [|cbn [length]; lia].
    destruct (is_nl x2) eqn:E2; [|cbn [length]; lia].
    destruct (is_nl x3) eqn:E3; [|cbn [length]; lia].
    intros _. exists b.
    now rewrite (is_nl_eq _ E1), (is_nl_eq _ E2), (is_nl_eq _ E3).
Qed.

Lemma no_run_runs_ok s :
  forall k, nl_run s = 0 \/ k + nl_run s < 3 ->
            no_blank_run s -> runs_ok k s = true.
Proof.
  induction s as [|c t IH]; intros k Hk Hn; [reflexivity|].
  assert (Ht : no_blank_run t).
  { intros a b E. apply (Hn (c :: a) b). now rewrite E. }
  cbn [runs_ok]. unfold nl_run in Hk. cbn [Py.take_while] in Hk.
  destruct (is_nl c).
  - cbn [length] in Hk. fold (nl_run t) in Hk.
    apply andb_true_iff. split; [apply Nat.ltb_lt; lia|].
    apply IH; [lia | exact Ht].
  - apply IH; [|exact Ht].
    destruct (Nat.lt_ge_cases (nl_run t) 3) as [H | H]; [now right|].
    destruct (nl_run_three t H) as [b E]. exfalso.
    apply (Hn [c] b). now rewrite E.
Qed.

(** X15.  The collapse of blank lines leaves a text without three line
    feeds in a row as it is, and so collapsing a second time changes
    nothing. *)
Theorem collapse_is_stable (collapse_blank_lines : bool) (result : str) :
  (no_blank_run result -> collapsed collapse_blank_lines result = result)
  /\ collapsed collapse_blank_lines (collapsed collapse_blank_lines result)
     = collapsed collapse_blank_lines result.
Proof.
  unfold collapsed. destruct collapse_blank_lines; [|split; reflexivity].
  split.
  - intros H. apply collapse_identity, no_run_runs_ok; [|exact H].
    destruct (Nat.lt_ge_cases (nl_run result) 3) as [Hlt | Hge];
      [now right|].
    destruct (nl_run_three result Hge) as [b E]. exfalso.
    apply (H [] b). exact E.
  - apply collapse_identity. rewrite Scan.sub_render. apply collapse_runs.
    now right.
Qed.

(** * The pre-clean for Slack *)

Module Quotes.

Definition gt (c : char) : bool := eqc 62%N c.

(** What [QUOTE_MARKS_RE] finds where a line starts: the run of [>] and
    the whitespace character behind it, if there is one. *)
Definition quote_split (s : str) : str * str :=
  match Py.drop_while gt s with
  | w :: t => if Py.isspace w then (Py.take_while gt s ++ [w], t)
              else (Py.take_while gt s, w :: t)
  | [] => (Py.take_while gt s, [])
  end.

Lemma sound_quote : sound QUOTE_MARKS_RE.
Proof.
  apply sound_cat; [apply sound_bol_multiline|].
  apply sound_cat; [apply sound_plus|].
  apply sound_alt; [apply sound_chr | apply sound_eps].
Qed.

Lemma nonempty_quote : nonempty QUOTE_MARKS_RE.
Proof. apply nonempty_cat_r, nonempty_cat_l, nonempty_plus. Qed.

Lemma quote_inside c s : eqc c NL = false -> QUOTE_MARKS_RE (Some c) s = [].
Proof.
  intros H. unfold QUOTE_MARKS_RE, cat at 1, bol_multiline. now rewrite H.
Qed.

Lemma quote_prev s : QUOTE_MARKS_RE (Some NL) s = QUOTE_MARKS_RE None s.
Proof. reflexivity. Qed.

Lemma gt_take s : Py.take_while gt (62%N :: s) = 62%N :: Py.take_while gt s.
Proof. reflexivity. Qed.

Lemma gt_drop s : Py.drop_while gt (62%N :: s) = Py.drop_while gt s.
Proof. reflexivity. Qed.

Lemma quote_first s :
  exists tl,
    QUOTE_MARKS_RE None (62%N :: s) =
    mkMatch (fst (quote_split (62%N :: s))) []
            (snd (quote_split (62%N :: s))) :: tl.
Proof.
  unfold QUOTE_MARKS_RE, cat at 1, bol_multiline.
  cbn [flat_map map group0 groups after last_of fold_left app].
  rewrite app_nil_r. unfold cat at 1. rewrite plus_unfold.
  change (eqc 62%N 62%N) with true. cbv iota.
  destruct (star_first (eqc 62%N) s) as [tl ->].
  cbn [map flat_map extend group0 groups after].
  unfold quote_split. rewrite gt_take, gt_drop. unfold gt.
  destruct (Py.drop_while (eqc 62%N) s) as [|w r].
  - unfold opt, alt, chr, eps. cbn [app map fst snd group0 groups after].
    rewrite app_nil_r. eexists. reflexivity.
  - unfold opt, alt, chr, eps. destruct (Py.isspace w);
      cbn [app map fst snd group0 groups after];
      [|rewrite app_nil_r]; eexists; reflexivity.
Qed.

(** Inside a line nothing is found. *)
Lemma scan_inside s :
  mem NL s = false ->
  forall n c, eqc c NL = false ->
              scan n QUOTE_MARKS_RE (Some c) s = map Copied s.
Proof.
  induction s as [|x s IH]; intros H n c Hc.
  - destruct n; [reflexivity|]. rewrite scan_S, quote_inside by exact Hc.
    reflexivity.
  - destruct n; [reflexivity|]. rewrite scan_S, quote_inside by exact Hc.
    rewrite Indent.mem_cons in H. apply orb_false_iff in H as [Hx Hs].
    cbn [map]. f_equal. apply IH; [exact Hs|].
    now rewrite Indent.eqc_sym.
Qed.

Lemma scan_start (r : rx) n p1 p2 s :
  r p1 s = r p2 s -> scan (S n) r p1 s = scan (S n) r p2 s.
Proof.
  intros H. rewrite !scan_S, H. destruct (r p2 s) as [|m tl]; [reflexivity|].
  now destruct (group0 m).
Qed.

Lemma last_of_app prev a c : last_of prev (a ++ [c]) = Some c.
Proof. unfold last_of. now rewrite fold_left_app. Qed.

Lemma gt_run k : forallb gt (repeat 62%N k) = true.
Proof. induction k; simpl; auto. Qed.

Lemma gt_split k (rest : str) :
  match rest with c :: _ => eqc 62%N c = false | [] => True end ->
  Py.take_while gt (repeat 62%N k ++ rest) = repeat 62%N k
  /\ Py.drop_while gt (repeat 62%N k ++ rest) = rest.
Proof.
  intros H. induction k as [|k [IH1 IH2]].
  - cbn [repeat app]. destruct rest as [|w t]; [now split|].
    cbn [Py.take_while Py.drop_while]. unfold gt at 1 3. now rewrite H.
  - change (repeat 62%N (S k) ++ rest) with (62%N :: (repeat 62%N k ++ rest)).
    rewrite gt_take, gt_drop, IH1, IH2. now split.
Qed.

Lemma quote_split_run k (rest : str) :
  match rest with c :: _ => eqc 62%N c = false | [] => True end ->
  quote_split (repeat 62%N k ++ rest) =
  match rest with
  | w :: t => if Py.isspace w then (repeat 62%N k ++ [w], t)
              else (repeat 62%N k, rest)
  | [] => (repeat 62%N k, [])
  end.
Proof.
  intros H. unfold quote_split. destruct (gt_split k rest H) as [-> ->].
  now destruct rest.
Qed.

Lemma last_of_run prev k : last_of prev (repeat 62%N (S k)) = Some 62%N.
Proof.
  revert prev. induction k as [|k IH]; intros prev; [reflexivity|].
  change (repeat 62%N (S (S k))) with (62%N :: repeat 62%N (S k)).
  rewrite last_of_cons. apply IH.
Qed.

(** The substitution on a text that starts with [>]: the run of [>] and
    one whitespace character behind it give way to [> ], and the scan goes
    on behind them. *)
Lemma sub_quote_start t :
  sub QUOTE_MARKS_RE (fun _ => lit "> ") (62%N :: t) =
  lit "> " ++
  Scan.render (fun _ => lit "> ")
    (scan (S (length (snd (quote_split (62%N :: t))))) QUOTE_MARKS_RE
       (last_of None (fst (quote_split (62%N :: t))))
       (snd (quote_split (62%N :: t)))).
Proof.
  rewrite Scan.sub_render. unfold pieces.
  rewrite (pieces_step _ sound_quote nonempty_quote).
  destruct (quote_first t) as [tl ->].
  cbn [Scan.render flat_map group0 after]. reflexivity.
Qed.

End Quotes.

(** X16.  The pre-clean for Slack on a text of one line that starts with
    quote marks: the whole run of [>], and one whitespace character behind
    it if there is one, become one [>] and one space, so that the depth of
    the quote is lost; the rest of the line is kept. *)
Theorem slack_quote_marks (text : str) (convert_smart_quotes : bool)
        (k : nat) (rest : str) :
  normalize_text text convert_smart_quotes = repeat 62%N (S k) ++ rest ->
  match rest with c :: _ => eqc 62%N c = false | [] => True end ->
  mem NL rest = false ->
  prepared text "Slack"%string convert_smart_quotes
  = lit "> " ++ match rest with
                | w :: t => if Py.isspace w then t else rest
                | [] => []
                end.
Proof.
  intros Hn Hrest Hnl. unfold prepared. cbv zeta. rewrite Hn.
  change (String.eqb "Slack"%string "Slack"%string) with true. cbv iota.
  pose proof (Quotes.sub_quote_start (repeat 62%N k ++ rest)) as Hs.
  change (62%N :: repeat 62%N k ++ rest)
    with (repeat 62%N (S k) ++ rest) in Hs.
  rewrite (Quotes.quote_split_run (S k) rest Hrest) in Hs.
  rewrite Hs. clear Hs. f_equal.
  destruct rest as [|w t].
  { cbn [fst snd]. rewrite Quotes.last_of_run.
    now rewrite Quotes.scan_inside by reflexivity. }
  rewrite Indent.mem_cons in Hnl. apply orb_false_iff in Hnl as [Hw Ht].
  destruct (Py.isspace w); cbn [fst snd].
  - rewrite Quotes.last_of_app.
    rewrite Quotes.scan_inside by (exact Ht || now rewrite Indent.eqc_sym).
    apply flat_map_copied.
  - rewrite Quotes.last_of_run.
    rewrite Quotes.scan_inside;
      [apply flat_map_copied | | reflexivity].
    now rewrite Indent.mem_cons, Hw.
Qed.

Lemma slack_quote_marks_witness :
  prepared (lit ">>> said") "Slack"%string true = lit "> " ++ lit "said".
Proof.
  apply (slack_quote_marks (lit ">>> said") true 2 (lit " said"));
    reflexivity.
Defined.

(** X17.  The pre-clean for Slack takes any whitespace character behind
    the quote marks, a line feed too: where a line holds quote marks only,
    the line feed behind it is lost, and the next line follows [> ] on the
    same line. *)
Theorem slack_quote_marks_join (text : str) (convert_smart_quotes : bool)
        (k : nat) (rest : str) :
  normalize_text text convert_smart_quotes
  = repeat 62%N (S k) ++ NL :: rest ->
  prepared text "Slack"%string convert_smart_quotes
  = lit "> " ++ sub QUOTE_MARKS_RE (fun _ => lit "> ") rest.
Proof.
  intros Hn. unfold prepared. cbv zeta. rewrite Hn.
  change (String.eqb "Slack"%string "Slack"%string) with true. cbv iota.
  pose proof (Quotes.sub_quote_start (repeat 62%N k ++ NL :: rest)) as Hs.
  change (62%N :: repeat 62%N k ++ NL :: rest)
    with (repeat 62%N (S k) ++ NL :: rest) in Hs.
  rewrite (Quotes.quote_split_run (S k) (NL :: rest) eq_refl) in Hs.
  rewrite Hs. clear Hs. f_equal.
  change (Py.isspace NL) with true. cbv iota. cbn [fst snd].
  rewrite Quotes.last_of_app.
  rewrite Scan.sub_render. unfold pieces. f_equal.
  apply Quotes.scan_start, Quotes.quote_prev.
Qed.

Lemma slack_quote_marks_join_witness :
  prepared (lit ">" ++ NL :: lit "> said") "Slack"%string true
  = lit "> " ++ sub QUOTE_MARKS_RE (fun _ => lit "> ") (lit "> said").
Proof.
  apply (slack_quote_marks_join (lit ">" ++ NL :: lit "> said") true 0
           (lit "> said")).
  reflexivity.
Defined.

(** * Blocks taken out and put back *)

Module Restore.

(** A character that is no underscore. *)
Definition plain (c : char) : bool := negb (eqc c 95%N).

Lemma plain_mem s : mem 95%N s = false <-> forallb plain s = true.
Proof.
  unfold mem. induction s as [|c s IH]; cbn [existsb forallb]; [tauto|].
  unfold plain at 1.
  rewrite orb_false_iff, andb_true_iff, negb_true_iff, IH.
  now rewrite (Indent.eqc_sym 95%N c).
Qed.

Lemma plain_uint u : forallb plain (Py.uint_digits u) = true.
Proof. induction u; cbn [Py.uint_digits forallb]; auto. Qed.

Lemma uint_nonnil n : Nat.to_uint n <> Decimal.Nil.
Proof.
  rewrite <- (DecimalNat.Unsigned.of_to n) at 1.
  rewrite DecimalNat.Unsigned.to_of. apply DecimalFacts.unorm_nonnil.
Qed.

(** The number of a placeholder: digits, and at least one. *)
Lemma digits_plain n : forallb plain (Py.str_of_nat n) = true.
Proof. apply plain_uint. Qed.

Lemma digits_first n :
  exists c t, Py.str_of_nat n = c :: t /\ plain c = true.
Proof.
  pose proof (digits_plain n) as H. unfold Py.str_of_nat in *.
  destruct (Nat.to_uint n) as [|u|u|u|u|u|u|u|u|u|u] eqn:E;
    [now apply uint_nonnil in E | ..];
    cbn [Py.uint_digits]; eexists; eexists; (split; [reflexivity|]);
    reflexivity.
Qed.

Lemma placeholder_parts n :
  placeholder n =
  95%N :: 95%N :: lit "CODEBLOCK" ++ 95%N :: Py.str_of_nat n ++ [95%N; 95%N].
Proof. reflexivity. Qed.

Lemma placeholder_nonempty n : placeholder n <> [].
Proof. discriminate. Qed.

(** A text as the scan leaves it: pieces without underscore, and between
    them placeholders with numbers from [lo] on. *)
Inductive form (lo : nat) : str -> Prop :=
| form_end x : forallb plain x = true -> form lo x
| form_key x m y :
    forallb plain x = true -> lo <= m -> form lo y ->
    form lo (x ++ placeholder m ++ y).

Lemma form_weaken lo lo' y : lo' <= lo -> form lo y -> form lo' y.
Proof.
  intros Hle H. induction H as [x Hx | x m y Hx Hm _ IH].
  - now apply form_end.
  - apply form_key; [exact Hx | lia | exact IH].
Qed.

(** Behind its first piece, such a text ends or goes on with two
    underscores. *)
Lemma form_head lo y :
  form lo y ->
  Py.drop_while plain y = []
  \/ exists r, Py.drop_while plain y = 95%N :: 95%N :: r.
Proof.
  intros [x Hx | x m y' Hx _ _].
  - left. now destruct (Indent.run_all plain x Hx).
  - right.
    destruct (run_app plain x 95%N
                (95%N :: (lit "CODEBLOCK_" ++ Py.str_of_nat m ++ lit "__")
                         ++ y') Hx eq_refl) as [_ D].
    eexists. exact D.
Qed.

Lemma strip_first old c s :
  match old with o :: _ => eqc o c = false | [] => False end ->
  Py.strip_prefix old (c :: s) = None.
Proof.
  destruct old as [|o old]; [contradiction|].
  intros H. cbn [Py.strip_prefix]. now rewrite H.
Qed.

Lemma strip_second old c1 c2 s :
  match old with _ :: o :: _ => eqc o c2 = false | _ => False end ->
  Py.strip_prefix old (c1 :: c2 :: s) = None.
Proof.
  destruct old as [|o1 [|o2 old]]; try contradiction.
  intros H. cbn [Py.strip_prefix]. rewrite H. now destruct (eqc o1 c1).
Qed.

(** [replace] with a placeholder as [old], on a text that starts with a
    piece without underscore: the piece is copied. *)
Lemma replace_skip n new x r :
  forallb plain x = true ->
  Py.replace (placeholder n) new (x ++ r)
  = x ++ Py.replace (placeholder n) new r.
Proof.
  intros H. induction x as [|c x IH]; [reflexivity|].
  cbn [forallb] in H. apply andb_true_iff in H as [Hc Hx].
  cbn [app]. rewrite (replace_step _ new _ (placeholder_nonempty n)).
  rewrite strip_first.
  - f_equal. apply IH, Hx.
  - rewrite placeholder_parts. unfold plain in Hc.
    apply negb_true_iff in Hc. now rewrite Indent.eqc_sym.
Qed.

Lemma replace_end n new : Py.replace (placeholder n) new [] = [].
Proof. reflexivity. Qed.

Lemma replace_hit n new y :
  Py.replace (placeholder n) new (placeholder n ++ y)
  = new ++ Py.replace (placeholder n) new y.
Proof.
  rewrite (replace_step _ new _ (placeholder_nonempty n)).
  now rewrite strip_prefix_app.
Qed.

(** Two texts that agree split at their first underscore alike. *)
Lemma first_underscore (a b a' b' : str) :
  forallb plain a = true -> forallb plain a' = true ->
  a ++ 95%N :: b = a' ++ 95%N :: b' -> a = a' /\ b = b'.
Proof.
  intros Ha Ha' E.
  destruct (run_app plain a 95%N b Ha eq_refl) as [T D].
  destruct (run_app plain a' 95%N b' Ha' eq_refl) as [T' D'].
  pose proof (eq_trans (eq_sym T)
                (eq_trans (f_equal (Py.take_while plain) E) T')) as Ea.
  pose proof (eq_trans (eq_sym D)
                (eq_trans (f_equal (Py.drop_while plain) E) D')) as Eb.
  split; [exact Ea|]. now injection Eb.
Qed.

(** A placeholder does not start where another one does. *)
Lemma strip_other n m y :
  n <> m -> Py.strip_prefix (placeholder n) (placeholder m ++ y) = None.
Proof.
  intros Hnm.
  destruct (Py.strip_prefix (placeholder n) (placeholder m ++ y))
    as [r|] eqn:E; [|reflexivity].
  exfalso. apply strip_prefix_some in E. unfold placeholder in E.
  rewrite <- !app_assoc in E. apply app_inv_head in E.
  change (lit "__" ++ y) with (95%N :: 95%N :: y) in E.
  change (lit "__" ++ r) with (95%N :: 95%N :: r) in E.
  apply first_underscore in E as [E _]; auto using digits_plain.
  apply Hnm. symmetry. now apply str_of_nat_inj.
Qed.

(** Nor behind the number of another one. *)
Lemma placeholder_app n (r : str) :
  placeholder n ++ r
  = 95%N :: 95%N
    :: lit "CODEBLOCK" ++ 95%N :: (Py.str_of_nat n ++ 95%N :: 95%N :: r).
Proof. unfold placeholder. now rewrite <- !app_assoc. Qed.

Lemma strip_behind n lo y :
  form lo y ->
  Py.strip_prefix (placeholder n) (95%N :: 95%N :: y) = None.
Proof.
  intros Hy.
  destruct (Py.strip_prefix (placeholder n) (95%N :: 95%N :: y))
    as [r|] eqn:E; [|reflexivity].
  exfalso. apply strip_prefix_some in E. rewrite placeholder_app in E.
  injection E as E.
  destruct (digits_first n) as (c & t & Hn & Hc).
  destruct (run_app plain (lit "CODEBLOCK") 95%N
              (Py.str_of_nat n ++ 95%N :: 95%N :: r) eq_refl eq_refl)
    as [_ D0].
  pose proof (eq_trans (f_equal (Py.drop_while plain) E) D0) as D.
  destruct (form_head lo y Hy) as [H | [r' H]].
  - exact (eq_ind [] (fun l => match l with [] => True | _ => False end) I _
             (eq_trans (eq_sym H) D)).
  - pose proof (eq_trans (eq_sym H) D) as D'. rewrite Hn in D'.
    injection D' as D'. subst c. discriminate Hc.
Qed.

Lemma strip_last n lo y :
  form lo y -> Py.strip_prefix (placeholder n) (95%N :: y) = None.
Proof.
  intros Hy. rewrite placeholder_parts.
  destruct Hy as [x Hx | x m y' Hx _ _].
  - destruct x as [|c x]; [reflexivity|].
    cbn [forallb] in Hx. apply andb_true_iff in Hx as [Hc _].
    apply strip_second. unfold plain in Hc. apply negb_true_iff in Hc.
    now rewrite Indent.eqc_sym.
  - destruct x as [|c x].
    + reflexivity.
    + cbn [forallb] in Hx. apply andb_true_iff in Hx as [Hc _].
      apply strip_second. unfold plain in Hc. apply negb_true_iff in Hc.
      cbn [app]. now rewrite Indent.eqc_sym.
Qed.

Lemma placeholder_chars n (r : str) :
  placeholder n ++ r
  = 95%N :: 95%N :: 67%N :: 79%N :: 68%N :: 69%N :: 66%N :: 76%N :: 79%N
    :: 67%N :: 75%N :: 95%N :: (Py.str_of_nat n ++ 95%N :: 95%N :: r).
Proof. unfold placeholder. now rewrite <- !app_assoc. Qed.

(** [replace] passes over another placeholder. *)
Lemma replace_through n m new lo y :
  n <> m -> form lo y ->
  Py.replace (placeholder n) new (placeholder m ++ y)
  = placeholder m ++ Py.replace (placeholder n) new y.
Proof.
  intros Hnm Hy. pose proof (placeholder_nonempty n) as Hne.
  rewrite (replace_step _ new _ Hne), (strip_other n m y Hnm).
  rewrite !placeholder_chars. cbv iota. f_equal.
  rewrite (replace_step _ new _ Hne), strip_second by reflexivity.
  cbv iota. f_equal.
  do 9 (rewrite (replace_step _ new _ Hne), strip_first by reflexivity;
        cbv iota; f_equal).
  destruct (digits_first m) as (c & t & Hm & Hc).
  pose proof (digits_plain m) as Hd. rewrite Hm in *. cbn [app].
  rewrite (replace_step _ new _ Hne), strip_second.
  2:{ rewrite placeholder_parts. unfold plain in Hc.
      apply negb_true_iff in Hc. now rewrite Indent.eqc_sym. }
  cbv iota. f_equal.
  change (c :: t ++ 95%N :: 95%N :: y) with ((c :: t) ++ 95%N :: 95%N :: y).
  rewrite (replace_skip n new (c :: t) _ Hd). cbn [app]. do 2 f_equal.
  rewrite (replace_step _ new _ Hne), (strip_behind n lo y Hy). f_equal.
  rewrite (replace_step _ new _ Hne), (strip_last n lo y Hy). reflexivity.
Qed.

(** A placeholder with a lower number than all those of the text: nothing
    is replaced. *)
Lemma replace_lower n new lo y :
  n < lo -> form lo y -> Py.replace (placeholder n) new y = y.
Proof.
  intros Hn H. induction H as [x Hx | x m y Hx Hm Hy IH].
  - rewrite <- (app_nil_r x) at 1.
    rewrite (replace_skip n new x [] Hx), replace_end. apply app_nil_r.
  - rewrite (replace_skip n new x _ Hx).
    rewrite (replace_through n m new lo y); [|lia | exact Hy].
    now rewrite IH.
Qed.

Definition put_back (text : str) (kv : str * str) : str :=
  Py.replace (fst kv) (snd kv) text.

(** What the scan leaves of a text without underscore. *)
Lemma extract_form s :
  forallb plain s = true ->
  forall st, keys_in_order st ->
  form (length st) (fst (extract_from st s)).
Proof.
  remember (length s) as k eqn:Hk. revert s Hk.
  induction k as [k IH] using lt_wf_ind. intros s -> Hs st Hst.
  destruct (block_or_unclosed s) as [Hu | (b & r1 & i & r2 & Hb & Hr)].
  - rewrite (extract_unclosed st s Hu). now apply form_end.
  - rewrite (extract_block st s b r1 i r2 Hb Hr). cbv zeta.
    rewrite (dict_set_fresh st _ _ (placeholder_fresh st Hst)).
    pose proof (find_some _ _ _ _ Hb) as Eb.
    pose proof (find_some _ _ _ _ Hr) as Er.
    assert (Hparts : forallb plain b = true /\ forallb plain r2 = true).
    { rewrite Eb, Er, !forallb_app in Hs.
      repeat (apply andb_true_iff in Hs as [? Hs]). now split. }
    destruct Hparts as [Hpb Hp2].
    pose proof (IH (length r2)) as IH2.
    specialize (IH2 ltac:(rewrite Eb, Er, !length_app; simpl; lia) r2 eq_refl
                    Hp2 (st ++ [(placeholder (length st), fence ++ i ++ fence)])
                    (keys_in_order_next st _ Hst)).
    destruct (extract_from _ r2) as [out st']. cbn [fst] in IH2 |- *.
    apply form_key; [exact Hpb | lia |].
    apply (form_weaken _ _ _ (Nat.le_succ_diag_r _)).
    now rewrite length_app, Nat.add_1_r in IH2.
Qed.

(** The scan at a block: the text it leaves and the entries it makes. *)
Lemma extract_block_parts (st : dict) s b r1 i r2 :
  keys_in_order st ->
  find fence s = Some (b, r1) -> find fence r1 = Some (i, r2) ->
  exists v : str,
    v = fence ++ i ++ fence
    /\ fst (extract_from st s)
       = b ++ placeholder (length st)
           ++ fst (extract_from (st ++ [(placeholder (length st), v)]) r2)
    /\ snd (extract_from st s)
       = snd (extract_from (st ++ [(placeholder (length st), v)]) r2).
Proof.
  intros Hst Hb Hr. exists (fence ++ i ++ fence). split; [reflexivity|].
  rewrite (extract_block st s b r1 i r2 Hb Hr). cbv zeta.
  rewrite (dict_set_fresh st _ _ (placeholder_fresh st Hst)).
  now destruct (extract_from _ r2).
Qed.

(** The entries that the scan appends put the text back. *)
Lemma put_back_all s :
  forallb plain s = true ->
  forall (st : dict) (x : str),
    keys_in_order st -> forallb plain x = true ->
    exists more : dict,
      snd (extract_from st s) = st ++ more
      /\ fold_left put_back more (x ++ fst (extract_from st s)) = x ++ s.
Proof.
  remember (length s) as k eqn:Hk. revert s Hk.
  induction k as [k IH] using lt_wf_ind. intros s -> Hs st x Hst Hx.
  destruct (block_or_unclosed s) as [Hu | (b & r1 & i & r2 & Hb & Hr)].
  - rewrite (extract_unclosed st s Hu). exists []. now rewrite app_nil_r.
  - destruct (extract_block_parts st s b r1 i r2 Hst Hb Hr)
      as (v & Ev & Ef & Esnd).
    pose proof (find_some _ _ _ _ Hb) as Eb.
    pose proof (find_some _ _ _ _ Hr) as Er.
    assert (Es : s = b ++ v ++ r2).
    { rewrite Eb, Er, Ev. now rewrite <- !app_assoc. }
    assert (Hparts : forallb plain b = true /\ forallb plain v = true
                     /\ forallb plain r2 = true).
    { rewrite Es, !forallb_app in Hs.
      repeat (apply andb_true_iff in Hs as [? Hs]). auto. }
    destruct Hparts as (Hpb & Hpv & Hp2).
    pose proof (keys_in_order_next st v Hst) as Hst1.
    pose proof (extract_form r2 Hp2 _ Hst1) as Hform.
    rewrite length_app, Nat.add_1_r in Hform.
    assert (Hshort : length r2 < length s).
    { rewrite Es, !length_app, Ev, !length_app. simpl. lia. }
    assert (Hxbv : forallb plain (x ++ b ++ v) = true)
      by now rewrite !forallb_app, Hx, Hpb, Hpv.
    destruct (IH (length r2) Hshort r2 eq_refl Hp2 _ (x ++ b ++ v) Hst1 Hxbv)
      as (more & Emore & Hfold).
    exists ((placeholder (length st), v) :: more). split.
    + rewrite Esnd, Emore. now rewrite <- app_assoc.
    + rewrite Ef. cbn [fold_left]. unfold put_back at 2. cbn [fst snd].
      rewrite app_assoc.
      rewrite (replace_skip (length st) v (x ++ b)) by
        now rewrite forallb_app, Hx, Hpb.
      rewrite replace_hit.
      rewrite (replace_lower (length st) v (S (length st)) _
                 (Nat.lt_succ_diag_r _) Hform).
      transitivity ((x ++ b ++ v) ++ r2).
      * rewrite <- Hfold. f_equal. now rewrite <- !app_assoc.
      * rewrite Es. now rewrite <- !app_assoc.
Qed.

End Restore.

(** X18.  The blocks that [extract_code_fences] takes out of a text
    without underscore are put back by [restore_code_fences]: the text is
    again what it was. *)
Theorem restore_extracted (text : str) :
  mem 95%N text = false ->
  restore_code_fences (fst (extract_code_fences text))
                      (snd (extract_code_fences text)) = text.
Proof.
  intros H. apply Restore.plain_mem in H.
  rewrite extract_from_start.
  destruct (Restore.put_back_all text H [] [] eq_refl eq_refl)
    as (more & E & Hfold).
  rewrite E. exact Hfold.
Qed.

Lemma restore_extracted_witness :
  restore_code_fences
    (fst (extract_code_fences
            (lit "a ```x``` b ```y``` c ```")))
    (snd (extract_code_fences
            (lit "a ```x``` b ```y``` c ```")))
  = lit "a ```x``` b ```y``` c ```".
Proof.
  apply (restore_extracted (lit "a ```x``` b ```y``` c ```")).
  reflexivity.
Defined.

(** * A placeholder in the text itself *)

Lemma find_skip (w x s : str) :
  match w with
  | o :: _ => forallb (fun c => negb (eqc o c)) x = true
  | [] => False
  end ->
  find w (x ++ s)
  = match find w s with
    | Some (b, a) => Some (x ++ b, a)
    | None => None
    end.
Proof.
  destruct w as [|o w]; [contradiction|]. intros H.
  induction x as [|c x IH].
  - cbn [app]. now destruct (find (o :: w) s) as [[b a]|].
  - cbn [forallb] in H. apply andb_true_iff in H as [Hc Hx].
    apply negb_true_iff in Hc.
    cbn [app find]. rewrite Restore.strip_first by exact Hc.
    rewrite (IH Hx). now destruct (find (o :: w) s) as [[b a]|].
Qed.

Lemma backtick_stays (later : dict) :
  (forall kv, In kv later -> exists n, fst kv = placeholder n) ->
  forall t, exists tail,
    fold_left Restore.put_back later (96%N :: t) = 96%N :: tail.
Proof.
  induction later as [|[k v] later IH]; intros Hk t; [now exists t|].
  destruct (Hk (k, v) (or_introl eq_refl)) as [n Hn]. cbn [fst] in Hn.
  subst k. cbn [fold_left]. unfold Restore.put_back at 2. cbn [fst snd].
  rewrite (replace_step _ v _ (Restore.placeholder_nonempty n)).
  rewrite Restore.strip_first by reflexivity.
  apply IH. intros kv Hin. apply Hk. now right.
Qed.

(** X19.  A text that starts with the literal [__CODEBLOCK_0__] and holds
    a block is not put back as it was: [restore_code_fences] replaces the
    literal by the first block too, so that the restored text starts with
    a backtick. *)
Theorem restore_replaces_literal (s before interior rest : str) :
  first_block s = Some (before, interior, rest) ->
  exists tail,
    restore_code_fences
      (fst (extract_code_fences (placeholder 0 ++ s)))
      (snd (extract_code_fences (placeholder 0 ++ s)))
    = 96%N :: tail.
Proof.
  intros Hfb.
  assert (Hfb' : first_block (placeholder 0 ++ s)
                 = Some (placeholder 0 ++ before, interior, rest)).
  { unfold first_block in *. rewrite (find_skip fence) by reflexivity.
    destruct (find fence s) as [[b0 r1]|]; [|discriminate].
    destruct (find fence r1) as [[i0 r0]|]; [|discriminate].
    now injection Hfb as -> -> ->. }
  destruct (extract_first_block _ _ _ _ Hfb') as (out & later & E & Hkeys).
  rewrite E. cbn [fst snd]. unfold restore_code_fences.
  fold Restore.put_back. cbn [fold_left]. unfold Restore.put_back at 2.
  cbn [fst snd]. rewrite <- app_assoc, Restore.replace_hit.
  apply (backtick_stays later Hkeys).
Qed.

Lemma restore_replaces_literal_witness :
  exists tail,
    restore_code_fences
      (fst (extract_code_fences (placeholder 0 ++ lit " and ```a```")))
      (snd (extract_code_fences (placeholder 0 ++ lit " and ```a```")))
    = 96%N :: tail.
Proof.
  apply (restore_replaces_literal (lit " and ```a```") (lit " and ")
           (lit "a") []).
  reflexivity.
Defined.

(** * Plain text: the characters that show *)

(** The characters of a text that are no whitespace, in their order. *)
Definition visible (s : str) : str :=
  filter (fun c => negb (Py.isspace c)) s.

Module Visible.

Lemma visible_app a b : visible (a ++ b) = visible a ++ visible b.
Proof. apply filter_app. Qed.

Lemma visible_cons c s :
  visible (c :: s)
  = if negb (Py.isspace c) then c :: visible s else visible s.
Proof. reflexivity. Qed.

Lemma visible_cons_space c s :
  Py.isspace c = true -> visible (c :: s) = visible s.
Proof. intros H. unfold visible. cbn [filter]. now rewrite H. Qed.

Lemma visible_times c n : Py.isspace c = true -> visible (Py.times c n) = [].
Proof.
  intros H. unfold Py.times. induction (Z.to_nat n) as [|k IH];
    [reflexivity|].
  cbn [repeat]. now rewrite visible_cons_space.
Qed.

Lemma visible_expandtabs tabsize s :
  forall col, visible (Py.expandtabs_from tabsize col s) = visible s.
Proof.
  induction s as [|c s IH]; intros col; [reflexivity|].
  cbn [Py.expandtabs_from]. destruct (eqc c TAB) eqn:Hc.
  - apply N.eqb_eq in Hc. subst c.
    rewrite (visible_cons_space TAB s eq_refl).
    destruct (Z.ltb 0 tabsize); [|apply IH].
    now rewrite visible_app, visible_times, IH.
  - now rewrite !visible_cons, IH.
Qed.

Lemma visible_drop (p : char -> bool) s :
  (forall c, p c = true -> Py.isspace c = true) ->
  visible (Py.drop_while p s) = visible s.
Proof.
  intros Hp. induction s as [|c s IH]; [reflexivity|].
  cbn [Py.drop_while]. destruct (p c) eqn:E; [|reflexivity].
  now rewrite (visible_cons_space c s (Hp c E)).
Qed.

Lemma visible_rev s : visible (rev s) = rev (visible s).
Proof. apply filter_rev. Qed.

Lemma visible_rstrip s : visible (Py.rstrip s) = visible s.
Proof.
  unfold Py.rstrip.
  rewrite visible_rev, (visible_drop Py.isspace) by auto.
  now rewrite visible_rev, rev_involutive.
Qed.

Lemma visible_join ls :
  visible (Py.join [NL] ls) = flat_map visible ls.
Proof.
  induction ls as [|l ls IH]; [reflexivity|].
  destruct ls as [|l' ls]; [cbn [Py.join flat_map]; now rewrite app_nil_r|].
  rewrite Lines.join_cons, visible_app. cbn [app].
  rewrite (visible_cons_space NL _ eq_refl), IH. reflexivity.
Qed.

Lemma visible_run s : visible (Py.take_while is_nl s) = [].
Proof.
  induction s as [|c s IH]; [reflexivity|].
  cbn [Py.take_while]. destruct (is_nl c) eqn:E; [|reflexivity].
  apply is_nl_eq in E. subst c. now rewrite visible_cons_space.
Qed.

Lemma render_copied (repl : Match -> str) c ps :
  Scan.render repl (Copied c :: ps) = c :: Scan.render repl ps.
Proof. reflexivity. Qed.

Lemma render_matched (repl : Match -> str) m ps :
  Scan.render repl (Matched m :: ps) = repl m ++ Scan.render repl ps.
Proof. reflexivity. Qed.

(** The collapse takes away line feeds only. *)
Lemma visible_collapsed collapse s : visible (collapsed collapse s) = visible s.
Proof.
  unfold collapsed. destruct collapse; [|reflexivity].
  rewrite Scan.sub_render. unfold pieces. generalize (@None char).
  intros prev. revert prev s.
  apply (Scan.scan_induction BLANK_RUN_RE
           (fun prev s ps =>
              visible (Scan.render (fun _ => [NL; NL]) ps) = visible s)
           sound_blank nonempty_blank).
  - reflexivity.
  - intros prev c t _ IH.
    now rewrite render_copied, !visible_cons, IH.
  - intros prev s m tl E IH.
    destruct (blank_run_cases prev s) as [[_ En] | [_ [tl' E']]];
      [congruence|].
    rewrite E' in E. injection E as <- _. cbn [after group0] in IH.
    rewrite render_matched. cbn [after group0]. rewrite visible_app, IH.
    rewrite <- (take_drop is_nl s) at 2.
    now rewrite visible_app, visible_run.
Qed.

Lemma visible_plain lines indent_size trim :
  flat_map visible (plain_lines lines indent_size trim)
  = flat_map visible lines.
Proof.
  unfold plain_lines. induction lines as [|raw lines IH]; [reflexivity|].
  cbn [map flat_map]. rewrite IH. f_equal.
  destruct trim; [rewrite visible_rstrip|]; apply visible_expandtabs.
Qed.

End Visible.

(** X20.  For the plain-text target without [keep_code_fences] and an
    indent size that fits a C [int], [convert] changes whitespace only: the
    characters of the output that are no whitespace are those of the
    prepared text, in the same order, whatever the indent size in that
    range (zero and the negative sizes included) and the other options. *)
Theorem convert_plain_keeps_visible d (text : str) (source : String.string)
        (indent_size : Z)
        (collapse_blank_lines trim_trailing_ws slack_wrap_codeblock : bool)
        (gdocs_bullet_symbol : BulletSymbol) (convert_smart_quotes : bool) :
  Py.fits_int indent_size = true ->
  exists out,
    convert d text source "Plain text"%string indent_size collapse_blank_lines
            trim_trailing_ws false slack_wrap_codeblock gdocs_bullet_symbol
            convert_smart_quotes = Ok out
    /\ visible out = visible (prepared text source convert_smart_quotes).
Proof.
  intros Hfit.
  rewrite convert_steps. cbv zeta. cbn [fst snd]. unfold rendered.
  simpl String.eqb. cbv iota. rewrite (lines_to_plain_fits _ _ _ Hfit).
  cbn [bind].
  eexists. split; [reflexivity|].
  rewrite Visible.visible_collapsed, Visible.visible_join,
    Visible.visible_plain, <- Visible.visible_join.
  now rewrite Lines.join_split.
Qed.

Lemma convert_plain_keeps_visible_witness :
  exists out,
    convert unicode_isdecimal (TAB :: lit "* a " ++ NL :: NL :: lit " b")
            "Auto"%string "Plain text"%string 0 true true false false
            BulletDot true = Ok out
    /\ visible out
       = visible (prepared (TAB :: lit "* a " ++ NL :: NL :: lit " b")
                    "Auto"%string true).
Proof.
  apply (convert_plain_keeps_visible unicode_isdecimal
           (TAB :: lit "* a " ++ NL :: NL :: lit " b") "Auto"%string 0 true
           true false BulletDot true).
  reflexivity.
Defined.

(** * The Slack wrapper *)

Module Wrap.

Lemma backticks_copied prev :
  Scan.render (fun _ => [NL; NL])
    (scan (S (length (lit "```"))) BLANK_RUN_RE prev (lit "```"))
  = lit "```".
Proof. reflexivity. Qed.

Lemma drop_to_fence m :
  forallb is_nl m = true ->
  Py.drop_while is_nl (m ++ NL :: lit "```") = lit "```".
Proof.
  intros H.
  destruct (run_app is_nl (m ++ [NL]) 96%N (lit "``")) as [_ D];
    [now rewrite forallb_app, H | reflexivity |].
  rewrite <- app_assoc in D. exact D.
Qed.

(** Where the text ends with a line feed and a fence, its collapse does
    too. *)
Lemma collapse_tail prev t :
  forall m, t = m ++ NL :: lit "```" ->
  exists m',
    Scan.render (fun _ => [NL; NL])
      (scan (S (length t)) BLANK_RUN_RE prev t)
    = m' ++ NL :: lit "```".
Proof.
  revert prev t.
  apply (Scan.scan_induction BLANK_RUN_RE
           (fun prev t ps =>
              forall m, t = m ++ NL :: lit "```" ->
              exists m', Scan.render (fun _ => [NL; NL]) ps
                         = m' ++ NL :: lit "```")
           sound_blank nonempty_blank).
  - intros prev m E. now destruct m.
  - intros prev c t _ IH m E. rewrite Visible.render_copied.
    destruct m as [|x m]; cbn [app] in E; injection E as -> ->.
    + exists []. exact (f_equal (cons NL) (backticks_copied (Some NL))).
    + destruct (IH m eq_refl) as [m' ->]. now exists (x :: m').
  - intros prev s m0 tl E IH m Es.
    destruct (blank_run_cases prev s) as [[_ En] | [_ [tl' E']]];
      [congruence|].
    rewrite E' in E. injection E as <- _. cbn [after group0] in IH.
    rewrite Visible.render_matched. cbn [after group0].
    destruct (Py.drop_while is_nl m) as [|x r] eqn:Em.
    + apply drop_while_all in Em.
      assert (D : Py.drop_while is_nl s = lit "```")
        by (rewrite Es; now apply drop_to_fence).
      cbn [after group0]. rewrite D.
      exists [NL]. now rewrite backticks_copied.
    + destruct (run_broken is_nl m (NL :: lit "```") x r Em) as [_ D].
      rewrite <- Es in D.
      destruct (IH (x :: r)) as [m' ->]; [now rewrite D|].
      exists (NL :: NL :: m'). reflexivity.
Qed.

(** The collapse keeps the wrapper. *)
Lemma collapse_wrapped collapse body :
  exists mid,
    collapsed collapse (lit "```" ++ NL :: body ++ NL :: lit "```")
    = lit "```" ++ NL :: mid ++ NL :: lit "```".
Proof.
  unfold collapsed. destruct collapse; [|now exists body].
  rewrite Scan.sub_render. unfold pieces.
  set (t := NL :: body ++ NL :: lit "```").
  change (lit "```" ++ t) with (96%N :: 96%N :: 96%N :: t).
  do 3 (rewrite (pieces_step _ sound_blank nonempty_blank),
          blank_run_none by (cbn; lia);
        rewrite Visible.render_copied).
  enough (H : exists mid,
             Scan.render (fun _ => [NL; NL])
               (scan (S (length t)) BLANK_RUN_RE (Some 96%N) t)
             = NL :: mid ++ NL :: lit "```")
    by (destruct H as [mid H]; exists mid;
        exact (f_equal (fun z => 96%N :: 96%N :: 96%N :: z) H)).
  rewrite (pieces_step _ sound_blank nonempty_blank).
  destruct (blank_run_cases (Some 96%N) t) as [[_ ->] | [_ [tl ->]]].
  - subst t. cbv iota. rewrite Visible.render_copied.
    destruct (collapse_tail (Some NL) (body ++ NL :: lit "```") body eq_refl)
      as [m' ->].
    now exists m'.
  - rewrite Visible.render_matched. cbn [after group0].
    subst t. change (Py.drop_while is_nl (NL :: body ++ NL :: lit "```"))
      with (Py.drop_while is_nl (body ++ NL :: lit "```")).
    destruct (Py.drop_while is_nl body) as [|x r] eqn:Em.
    + apply drop_while_all in Em.
      pose proof (drop_to_fence body Em) as D.
      rewrite D. exists []. now rewrite backticks_copied.
    + destruct (run_broken is_nl body (NL :: lit "```") x r Em) as [_ D].
      rewrite D.
      destruct (collapse_tail
                  (last_of (Some 96%N)
                     (Py.take_while is_nl (NL :: body ++ NL :: lit "```")))
                  (x :: r ++ NL :: lit "```") (x :: r) eq_refl) as [m' ->].
      exists (NL :: m'). reflexivity.
Qed.

Lemma uint_no_nl u : mem NL (Py.uint_digits u) = false.
Proof. induction u; cbn [Py.uint_digits]; rewrite ?Indent.mem_cons; auto. Qed.

Lemma placeholder_no_nl n : mem NL (placeholder n) = false.
Proof.
  unfold placeholder, Py.str_of_nat.
  now rewrite !Indent.mem_app, uint_no_nl.
Qed.

(** Putting a block back keeps the wrapper. *)
Lemma put_back_wrapped n v mid :
  Restore.put_back (lit "```" ++ NL :: mid ++ NL :: lit "```")
                   (placeholder n, v)
  = lit "```" ++ NL :: Py.replace (placeholder n) v mid ++ NL :: lit "```".
Proof.
  unfold Restore.put_back. cbn [fst snd].
  change (lit "```" ++ NL :: mid ++ NL :: lit "```")
    with ((lit "```" ++ [NL]) ++ mid ++ NL :: lit "```").
  rewrite (Restore.replace_skip n v (lit "```" ++ [NL]) _ eq_refl).
  rewrite (replace_barrier _ v NL mid (lit "```")
             (Restore.placeholder_nonempty n)).
  - rewrite <- (app_nil_r (lit "```")) at 2.
    rewrite (Restore.replace_skip n v (lit "```") [] eq_refl).
    reflexivity.
  - apply placeholder_no_nl.
Qed.

(** The keys of the dictionary are placeholders. *)
Lemma keys_are_placeholders text kv :
  In kv (snd (extract_code_fences text)) -> exists n, fst kv = placeholder n.
Proof.
  rewrite extract_from_start.
  destruct (extract_grows text [] eq_refl) as (more & E & Hk & _).
  rewrite E. cbn [app] in *. intros Hin.
  assert (Hin' : In (fst kv) (map fst more)) by now apply in_map.
  unfold keys_in_order in Hk.
  pose proof (eq_ind _ (fun l => In (fst kv) l) Hin' _ Hk) as Hp.
  apply in_map_iff in Hp as (n & Hn & _). now exists n.
Qed.

Lemma restore_wrapped (blocks : dict) :
  (forall kv, In kv blocks -> exists n, fst kv = placeholder n) ->
  forall mid, exists mid',
    restore_code_fences (lit "```" ++ NL :: mid ++ NL :: lit "```") blocks
    = lit "```" ++ NL :: mid' ++ NL :: lit "```".
Proof.
  unfold restore_code_fences. fold Restore.put_back.
  induction blocks as [|[k v] blocks IH]; intros Hk mid; [now exists mid|].
  destruct (Hk (k, v) (or_introl eq_refl)) as [n Hn]. cbn [fst] in Hn.
  subst k. cbn [fold_left]. rewrite put_back_wrapped.
  apply IH. intros kv Hin. apply Hk. now right.
Qed.

End Wrap.

(** X21.  For the Slack target with [slack_wrap_codeblock] and a non-zero
    indent size that fits a C [int], the output of [convert] is enclosed in
    a code fence: it starts with a fence and a line feed, and ends with a
    line feed and a fence.  Neither the collapse of blank lines nor the
    restoring of the blocks breaks the wrapper. *)
Theorem slack_wrap_encloses d (text : str) (source : String.string)
        (indent_size : Z)
        (collapse_blank_lines trim_trailing_ws keep_code_fences : bool)
        (gdocs_bullet_symbol : BulletSymbol) (convert_smart_quotes : bool) :
  Py.fits_int indent_size = true -> indent_size <> 0%Z ->
  exists mid,
    convert d text source "Slack-friendly"%string indent_size
            collapse_blank_lines trim_trailing_ws keep_code_fences true
            gdocs_bullet_symbol convert_smart_quotes
    = Ok (lit "```" ++ NL :: mid ++ NL :: lit "```").
Proof.
  intros Hfit Hnz. rewrite convert_steps. cbv zeta.
  set (pre := prepared text source convert_smart_quotes).
  set (tb := if keep_code_fences then extract_code_fences pre else (pre, [])).
  destruct (rendered_total d (Py.split NL (fst tb)) "Slack-friendly"%string
              indent_size trim_trailing_ws true gdocs_bullet_symbol Hfit Hnz)
    as [result R].
  rewrite R. cbn [bind].
  assert (Hw : exists body,
             result = lit "```" ++ NL :: body ++ NL :: lit "```").
  { unfold rendered in R. simpl String.eqb in R. cbv iota in R.
    destruct (lines_to_markdown d (Py.split NL (fst tb)) indent_size
                trim_trailing_ws) as [outs|e]; cbn [bind] in R;
      [|discriminate R].
    injection R as <-. now eexists. }
  destruct Hw as [body ->].
  destruct (Wrap.collapse_wrapped collapse_blank_lines body) as [mid ->].
  destruct keep_code_fences.
  - destruct (Wrap.restore_wrapped (snd tb)) with (mid := mid) as [mid' ->].
    + subst tb. cbn [snd]. intros kv. apply Wrap.keys_are_placeholders.
    + now exists mid'.
  - now exists mid.
Qed.

Lemma slack_wrap_encloses_witness :
  exists mid,
    convert unicode_isdecimal
            (NL :: NL :: lit "* a ```b``` c" ++ [NL; NL; NL])
            "Auto"%string "Slack-friendly"%string 2 true true true true
            BulletDot true
    = Ok (lit "```" ++ NL :: mid ++ NL :: lit "```").
Proof.
  apply (slack_wrap_encloses unicode_isdecimal
           (NL :: NL :: lit "* a ```b``` c" ++ [NL; NL; NL]) "Auto"%string
           2 true true true BulletDot true); [reflexivity | discriminate].
Defined.

(** * What the extraction leaves *)

Module Left.

Lemma find_none_here w s : find w s = None -> Py.strip_prefix w s = None.
Proof.
  intros H. destruct (Py.strip_prefix w s) as [r|] eqn:E; [|reflexivity].
  rewrite (find_here _ _ _ E) in H. discriminate.
Qed.

(** No fence starts in a piece without backtick. *)
Lemma unclosed_skip x y :
  forallb (fun c => negb (eqc 96%N c)) x = true ->
  unclosed y -> unclosed (x ++ y).
Proof.
  intros Hx Hy. induction x as [|c x IH]; [exact Hy|].
  cbn [forallb] in Hx. apply andb_true_iff in Hx as [Hc Hx].
  apply negb_true_iff in Hc. cbn [app unclosed]. split; [|auto].
  intros r E. change fence with (96%N :: lit "``") in E.
  cbn [Py.strip_prefix] in E. rewrite Hc in E. discriminate.
Qed.

(** Nor in a piece without fence that a character other than a backtick
    follows. *)
Lemma unclosed_barrier b q y :
  find fence b = None -> mem q fence = false ->
  unclosed (q :: y) -> unclosed (b ++ q :: y).
Proof.
  intros Hb Hq Hy. induction b as [|c b IH]; [exact Hy|].
  cbn [app unclosed]. split.
  - intros r E. change (c :: b ++ q :: y) with ((c :: b) ++ q :: y) in E.
    rewrite (strip_prefix_barrier fence (c :: b) q y Hq) in E.
    rewrite (find_none_here _ _ Hb) in E. discriminate.
  - apply IH. exact (find_tail _ _ _ Hb).
Qed.

Lemma placeholder_no_backtick n :
  forallb (fun c => negb (eqc 96%N c)) (placeholder n) = true.
Proof.
  unfold placeholder, Py.str_of_nat. rewrite !forallb_app.
  assert (H : forall u,
             forallb (fun c => negb (eqc 96%N c)) (Py.uint_digits u) = true)
    by (induction u; cbn [Py.uint_digits forallb]; auto).
  now rewrite H.
Qed.

(** The text that the scan leaves holds no block. *)
Lemma extract_unclosed_out s :
  forall st : dict, keys_in_order st -> unclosed (fst (extract_from st s)).
Proof.
  remember (length s) as k eqn:Hk. revert s Hk.
  induction k as [k IH] using lt_wf_ind. intros s -> st Hst.
  destruct (block_or_unclosed s) as [Hu | (b & r1 & i & r2 & Hb & Hr)].
  - now rewrite (extract_unclosed st s Hu).
  - destruct (Restore.extract_block_parts st s b r1 i r2 Hst Hb Hr)
      as (v & Ev & Ef & _).
    rewrite Ef.
    pose proof (find_some _ _ _ _ Hb) as Eb.
    pose proof (find_some _ _ _ _ Hr) as Er.
    assert (Hshort : length r2 < length s)
      by (rewrite Eb, Er, !length_app; simpl; lia).
    pose proof (IH (length r2) Hshort r2 eq_refl _
                  (keys_in_order_next st v Hst)) as Hout.
    pose proof (unclosed_skip _ _ (placeholder_no_backtick (length st)) Hout)
      as Hp.
    rewrite Restore.placeholder_chars in Hp |- *.
    apply unclosed_barrier; [|reflexivity | exact Hp].
    apply (find_before fence s b r1); [discriminate | exact Hb].
Qed.

End Left.

(** X22.  [extract_code_fences] takes out every block in one pass: in the
    text that it returns, a second extraction finds no block and returns
    the text as it is with an empty dictionary. *)
Theorem extract_takes_all_blocks (text : str) :
  extract_code_fences (fst (extract_code_fences text))
  = (fst (extract_code_fences text), []).
Proof.
  rewrite (extract_from_start text).
  rewrite (extract_from_start (fst (extract_from [] text))).
  apply extract_unclosed, Left.extract_unclosed_out. reflexivity.
Qed.

(** * Rendering what was rendered *)

Definition HYPHEN : char := 45%N.
Definition STOP : char := 46%N.

Module Again.

(** The first character of a text that is no whitespace. *)
Lemma first_nonspace u :
  has_nonspace u = true ->
  exists x c y,
    u = x ++ c :: y /\ forallb Py.isspace x = true /\ Py.isspace c = false.
Proof.
  induction u as [|a u IH]; [discriminate|].
  unfold has_nonspace. cbn [existsb]. destruct (Py.isspace a) eqn:E.
  - cbn [negb orb]. intros H. destruct (IH H) as (x & c & y & -> & Hx & Hc).
    exists (a :: x), c, y. cbn [forallb]. now rewrite E, Hx.
  - intros _. now exists [], a, u.
Qed.

Lemma rstrip_app (a u : str) :
  has_nonspace u = true -> Py.rstrip (a ++ u) = a ++ Py.rstrip u.
Proof.
  intros H. destruct (first_nonspace u H) as (x & c & y & -> & _ & Hc).
  rewrite app_assoc, !(Lines.rstrip_keeps _ c y Hc).
  now rewrite <- app_assoc.
Qed.

Lemma rstrip_idem s : Py.rstrip (Py.rstrip s) = Py.rstrip s.
Proof. unfold Py.rstrip. now rewrite rev_involutive, drop_while_idem. Qed.

Lemma rstrip_split s :
  exists ws, s = Py.rstrip s ++ ws /\ forallb Py.isspace ws = true.
Proof.
  exists (rev (Py.take_while Py.isspace (rev s))). split.
  - unfold Py.rstrip.
    now rewrite <- rev_app_distr, take_drop, rev_involutive.
  - apply forallb_forall. intros x Hx. apply in_rev in Hx.
    pose proof (take_while_all Py.isspace (rev s)) as H.
    rewrite forallb_forall in H. auto.
Qed.

Lemma rstrip_head c r :
  has_nonspace (c :: r) = true -> exists r', Py.rstrip (c :: r) = c :: r'.
Proof.
  intros H. destruct (first_nonspace _ H) as (x & e & y & E & _ & He).
  rewrite E, (Lines.rstrip_keeps x e y He).
  destruct x as [|a x]; cbn [app] in *; injection E as -> _;
    eexists; reflexivity.
Qed.

Lemma lstrip_fixed c t : Py.isspace c = false -> Py.lstrip (c :: t) = c :: t.
Proof. intros H. unfold Py.lstrip. cbn [Py.drop_while]. now rewrite H. Qed.

Lemma lstrip_head c t : Py.lstrip (c :: t) = c :: t -> Py.isspace c = false.
Proof. intros H. exact (drop_while_head Py.isspace (c :: t) c t H). Qed.

(** What [unify_markers] returns: a hyphen item, a numbered item, or the
    line itself where no rule applies. *)
Lemma unify_cases d line :
  decimal_table d ->
  (exists t, unify_markers d line = HYPHEN :: SP :: t /\ Py.lstrip t = t)
  \/ (exists tok t,
        is_token d tok = true
        /\ unify_markers d line = tok ++ STOP :: SP :: t
        /\ Py.lstrip t = t)
  \/ (unify_markers d line = line
      /\ bullet_marker line = None /\ num_marker d line = None).
Proof.
  intros Hd. rewrite (unify_markers_spec d line Hd). unfold bullet_rule.
  destruct (bullet_marker line) as [rest|] eqn:Hb.
  - left. apply bullet_marker_inv in Hb as (c & w & t & _ & _ & _ & ->).
    exists (Py.drop_while Py.isspace t). split.
    + apply (number_rule_hyphen d _ Hd).
    + apply drop_while_idem.
  - unfold number_rule.
    destruct (num_marker d line) as [[tok rest]|] eqn:Hn.
    + right. left.
      apply num_marker_inv in Hn as (Htok & c & w & t & _ & _ & _ & ->).
      exists tok, (Py.drop_while Py.isspace t).
      split; [exact Htok|]. split; [reflexivity | apply drop_while_idem].
    + right. right. auto.
Qed.

Lemma fixed_bullet d t :
  decimal_table d -> Py.lstrip t = t ->
  unify_markers d (HYPHEN :: SP :: t) = HYPHEN :: SP :: t.
Proof.
  intros Hd Ht. rewrite (unify_markers_spec d _ Hd).
  assert (Hne : [SP] <> []) by discriminate.
  pose proof (bullet_rule_line HYPHEN [SP] t eq_refl Hne eq_refl Ht) as E.
  exact (eq_trans (f_equal (number_rule d) E)
           (number_rule_hyphen d (SP :: t) Hd)).
Qed.

Lemma fixed_number d tok t :
  decimal_table d -> is_token d tok = true -> Py.lstrip t = t ->
  unify_markers d (tok ++ STOP :: SP :: t) = tok ++ STOP :: SP :: t.
Proof.
  intros Hd Htok Ht. rewrite (unify_markers_spec d _ Hd). unfold bullet_rule.
  rewrite (bullet_marker_token d tok STOP _ Hd Htok eq_refl).
  unfold number_rule.
  rewrite (num_marker_token d tok STOP SP t Hd Htok eq_refl eq_refl).
  fold (Py.lstrip t). rewrite Ht. reflexivity.
Qed.

Lemma fixed_none d line :
  decimal_table d ->
  bullet_marker line = None -> num_marker d line = None ->
  unify_markers d line = line.
Proof.
  intros Hd Hb Hn. rewrite (unify_markers_spec d _ Hd).
  unfold bullet_rule. rewrite Hb. unfold number_rule. now rewrite Hn.
Qed.

(** A marker of a text is a marker of every text that starts with it. *)
Lemma bullet_marker_prefix x ws :
  bullet_marker (x ++ ws) = None -> bullet_marker x = None.
Proof.
  destruct (bullet_marker x) as [r|] eqn:E; [|reflexivity].
  apply bullet_marker_inv in E as (c & w & t & -> & Hc & Hw & _).
  cbn [app]. unfold bullet_marker. rewrite Hc, Hw. discriminate.
Qed.

Lemma num_marker_prefix d x ws :
  decimal_table d -> num_marker d (x ++ ws) = None -> num_marker d x = None.
Proof.
  intros Hd. destruct (num_marker d x) as [[tok r]|] eqn:E; [|reflexivity].
  apply num_marker_inv in E as (Htok & c & w & t & -> & Hc & Hw & _).
  rewrite <- app_assoc. cbn [app].
  rewrite (num_marker_token d tok c w (t ++ ws) Hd Htok Hc Hw). discriminate.
Qed.

(** A line that was unified, and trimmed or not, is left as it is. *)
Lemma unify_trimmed d (trim : bool) line :
  decimal_table d ->
  unify_markers d (if trim then Py.rstrip (unify_markers d line)
                   else unify_markers d line)
  = if trim then Py.rstrip (unify_markers d line) else unify_markers d line.
Proof.
  intros Hd.
  destruct (unify_cases d line Hd)
    as [(t & -> & Ht) | [(tok & t & Htok & -> & Ht) | (-> & Hb & Hn)]].
  - destruct trim; [|now apply fixed_bullet].
    destruct t as [|c t].
    + change (Py.rstrip [HYPHEN; SP]) with [HYPHEN].
      apply fixed_none; [exact Hd | reflexivity |].
      apply (num_marker_hyphen d _ Hd).
    + pose proof (lstrip_head c t Ht) as Hc.
      pose proof (Lines.rstrip_keeps [HYPHEN; SP] c t Hc) as E.
      cbn [app] in E. rewrite E.
      apply fixed_bullet; [exact Hd | now apply lstrip_fixed].
  - destruct trim; [|now apply fixed_number].
    destruct t as [|c t].
    + rewrite (Lines.rstrip_keeps tok STOP [SP] eq_refl).
      change (Py.rstrip [SP]) with (@nil char).
      apply fixed_none; [exact Hd | |].
      * apply (bullet_marker_token d tok STOP [] Hd Htok eq_refl).
      * apply (num_marker_needs_space d tok STOP [] Hd Htok eq_refl eq_refl).
    + pose proof (lstrip_head c t Ht) as Hc.
      pose proof (Lines.rstrip_keeps (tok ++ [STOP; SP]) c t Hc) as E.
      rewrite <- !app_assoc in E. cbn [app] in E. rewrite E.
      apply fixed_number; [exact Hd | exact Htok | now apply lstrip_fixed].
  - destruct trim; [|now apply fixed_none].
    destruct (rstrip_split line) as (ws & E & _).
    apply fixed_none; [exact Hd | |].
    + apply (bullet_marker_prefix _ ws). now rewrite <- E.
    + apply (num_marker_prefix d _ ws Hd). now rewrite <- E.
Qed.

(** A unified line starts with no space and no tab if the line does. *)
Lemma unify_head d c rest :
  decimal_table d -> space_or_tab c = false ->
  exists c' u1,
    unify_markers d (c :: rest) = c' :: u1 /\ space_or_tab c' = false.
Proof.
  intros Hd Hc.
  destruct (unify_cases d (c :: rest) Hd)
    as [(t & -> & _) | [(tok & t & Htok & -> & _) | (-> & _ & _)]].
  - now exists HYPHEN, (SP :: t).
  - destruct (Items.token_not_space d tok Hd Htok) as (a & t0 & -> & Ha & _).
    exists a, (t0 ++ STOP :: SP :: t). split; [reflexivity|].
    now apply Items.not_space_not_indent.
  - now exists c, rest.
Qed.

(** [unify_markers] brings in a hyphen, a full stop and a space only. *)
Lemma unify_lacks d q line :
  decimal_table d ->
  eqc q HYPHEN = false -> eqc q STOP = false -> eqc q SP = false ->
  mem q line = false -> mem q (unify_markers d line) = false.
Proof.
  intros Hd H45 H46 Hsp H. rewrite (unify_markers_spec d _ Hd).
  assert (Hb : mem q (bullet_rule line) = false).
  { unfold bullet_rule.
    destruct (bullet_marker line) as [rest|] eqn:E; [|exact H].
    apply bullet_marker_inv in E as (c & w & t & -> & _ & _ & ->).
    rewrite !Indent.mem_cons in H.
    apply orb_false_iff in H as [_ H]. apply orb_false_iff in H as [_ H].
    change (lit "- " ++ Py.drop_while Py.isspace t)
      with (HYPHEN :: SP :: Py.drop_while Py.isspace t).
    rewrite !Indent.mem_cons, H45, Hsp. now apply Tabs.mem_drop_while. }
  unfold number_rule.
  destruct (num_marker d (bullet_rule line)) as [[tok rest]|] eqn:E;
    [|exact Hb].
  apply num_marker_inv in E as (_ & c & w & t & E & _ & _ & ->).
  rewrite E in Hb. rewrite Indent.mem_app, !Indent.mem_cons in Hb.
  apply orb_false_iff in Hb as [Htok Hb].
  apply orb_false_iff in Hb as [_ Hb]. apply orb_false_iff in Hb as [_ Hb].
  change (lit ". " ++ Py.drop_while Py.isspace t)
    with (STOP :: SP :: Py.drop_while Py.isspace t).
  rewrite Indent.mem_app, !Indent.mem_cons, Htok, H46, Hsp.
  now apply Tabs.mem_drop_while.
Qed.

(** The level and the rest of a line that is indented by a multiple of the
    indent size and goes on with neither space nor tab. *)
Lemma split_indent_indented indent_size level c body :
  (0 < indent_size)%Z -> Py.fits_int indent_size = true -> (0 <= level)%Z ->
  space_or_tab c = false ->
  mem TAB (c :: body) = false -> mem NL (c :: body) = false ->
  split_indent (Py.times SP (indent_size * level) ++ c :: body) indent_size
  = Ok (level, c :: body).
Proof.
  intros Hpos Hfit Hlevel Hc Htab Hnl.
  assert (Hcopy : Py.expanded indent_size
                    (Py.times SP (indent_size * level) ++ c :: body)
                  = Py.times SP (indent_size * level) ++ c :: body).
  { apply Lines.expandtabs_copy.
    rewrite Indent.mem_app, Indent.mem_times by reflexivity. exact Htab. }
  rewrite Indent.split_indent_line; [|exact Hfit|lia|].
  - rewrite Hcopy.
    destruct (run_app space_or_tab (Py.times SP (indent_size * level)) c body
                (Items.indent_run _) Hc) as [-> ->].
    rewrite Items.len_times by nia.
    now rewrite Z.mul_comm, Z.div_mul by lia.
  - rewrite Indent.mem_app, Indent.mem_times by reflexivity. exact Hnl.
Qed.

(** The statements of the loop of [lines_to_markdown] for one line. *)
Definition markdown_line d (indent_size : Z) (trim_trailing_ws : bool)
           (raw : str) : outcome (list str) :=
  if negb (Py.truthy (Py.strip raw)) then Ok [[]]
  else
    lr <- split_indent raw indent_size ;;
    let (level, rest) := lr in
    let rest := unify_markers d rest in
    let line := Py.times SP (indent_size * level) ++ rest in
    let line := if trim_trailing_ws then Py.rstrip line else line in
    Ok [line].

Lemma markdown_lines d lines indent_size trim :
  lines_to_markdown d lines indent_size trim
  = for_each (markdown_line d indent_size trim) lines.
Proof. reflexivity. Qed.

Lemma expandtabs_no_nl tabsize raw :
  mem NL raw = false -> mem NL (Py.expanded tabsize raw) = false.
Proof.
  intros H. apply Indent.mem_dot. apply Indent.expandtabs_dot.
  now apply Indent.mem_dot.
Qed.

(** A character that the renderer does not bring in. *)
Definition safe (q : char) : bool :=
  (negb (eqc q HYPHEN) && negb (eqc q STOP) && negb (eqc q SP)
   && negb (eqc q NL))%bool.

Lemma safe_parts q :
  safe q = true ->
  eqc q HYPHEN = false /\ eqc q STOP = false /\ eqc q SP = false
  /\ eqc q NL = false.
Proof.
  unfold safe. rewrite !andb_true_iff, !negb_true_iff. tauto.
Qed.

Lemma expandtabs_lacks q tabsize s :
  eqc q SP = false -> mem q s = false ->
  forall col, mem q (Py.expandtabs_from tabsize col s) = false.
Proof.
  intros Hsp. induction s as [|c s IH]; intros H col; [reflexivity|].
  rewrite Indent.mem_cons in H. apply orb_false_iff in H as [Hc Hs].
  cbn [Py.expandtabs_from]. destruct (eqc c TAB).
  - destruct (Z.ltb 0 tabsize); [|now apply IH].
    rewrite Indent.mem_app, (Indent.mem_times q SP _ Hsp). now apply IH.
  - rewrite Indent.mem_cons, Hc. now apply IH.
Qed.

(** The line that the renderer gives is rendered as itself; it holds no
    line feed, no tab, and no character that the line lacks, a hyphen, a
    full stop and a space apart. *)
Lemma markdown_line_fixed d indent_size trim raw :
  decimal_table d -> (0 < indent_size)%Z -> Py.fits_int indent_size = true ->
  mem NL raw = false ->
  exists out,
    markdown_line d indent_size trim raw = Ok [out]
    /\ markdown_line d indent_size trim out = Ok [out]
    /\ mem NL out = false /\ mem TAB out = false
    /\ (forall q, safe q = true -> mem q raw = false -> mem q out = false).
Proof.
  intros Hd Hpos Hfit Hnl. unfold markdown_line at 1.
  destruct (Py.truthy (Py.strip raw)) eqn:Hc; cbn [negb];
    [|exists []; repeat split; reflexivity].
  rewrite (Indent.split_indent_line raw indent_size) by (lia || assumption).
  cbn [bind].
  set (e := Py.expanded indent_size raw).
  set (level := (Py.len (Py.take_while space_or_tab e) / indent_size)%Z).
  set (rest := Py.drop_while space_or_tab e).
  assert (Hlevel : (0 <= level)%Z).
  { subst level. apply Z.div_pos; [unfold Py.len; lia | exact Hpos]. }
  assert (Hink : has_nonspace rest = true).
  { subst rest e. rewrite Rows.rest_nonspace, <- Rows.content_nonspace.
    exact Hc. }
  assert (Htab : mem TAB rest = false)
    by (apply Tabs.mem_drop_while, Tabs.expandtabs_tab_free).
  assert (Hnl' : mem NL rest = false)
    by (apply Tabs.mem_drop_while, expandtabs_no_nl, Hnl).
  assert (Hlack : forall q, safe q = true -> mem q raw = false ->
                            mem q rest = false).
  { intros q Hq Hraw. apply safe_parts in Hq as (_ & _ & Hsp & _).
    apply Tabs.mem_drop_while. now apply expandtabs_lacks. }
  destruct rest as [|c rest'] eqn:Erest; [discriminate Hink|].
  pose proof (drop_while_head space_or_tab e c rest' Erest) as Hsot.
  set (u := unify_markers d (c :: rest')).
  pose proof (Rows.nonspace_unify d _ Hd Hink) as Hu. fold u in Hu.
  pose proof (Tabs.mem_unify d _ Hd Htab) as Hutab. fold u in Hutab.
  pose proof (unify_lacks d NL _ Hd eq_refl eq_refl eq_refl Hnl') as Hunl.
  fold u in Hunl.
  set (u' := if trim then Py.rstrip u else u).
  assert (Eout : (if trim
                  then Py.rstrip (Py.times SP (indent_size * level) ++ u)
                  else Py.times SP (indent_size * level) ++ u)
                 = Py.times SP (indent_size * level) ++ u').
  { subst u'. destruct trim; [now apply rstrip_app | reflexivity]. }
  rewrite Eout. eexists. split; [reflexivity|].
  assert (Hulack : forall q, safe q = true -> mem q raw = false ->
                             mem q u' = false).
  { intros q Hq Hraw. pose proof (Hlack q Hq Hraw) as Hr.
    apply safe_parts in Hq as (H45 & H46 & Hsp & _).
    pose proof (unify_lacks d q _ Hd H45 H46 Hsp Hr) as Hqu. fold u in Hqu.
    subst u'. destruct trim; [now apply Tabs.mem_rstrip | exact Hqu]. }
  assert (Hu' : has_nonspace u' = true)
    by (subst u'; destruct trim; [now rewrite Rows.nonspace_rstrip | exact Hu]).
  assert (Hu'tab : mem TAB u' = false)
    by (subst u'; destruct trim; [now apply Tabs.mem_rstrip | exact Hutab]).
  assert (Hu'nl : mem NL u' = false)
    by (subst u'; destruct trim; [now apply Tabs.mem_rstrip | exact Hunl]).
  assert (Hfix : unify_markers d u' = u')
    by (subst u' u; apply (unify_trimmed d trim _ Hd)).
  assert (Hhead : exists c' r', u' = c' :: r' /\ space_or_tab c' = false).
  { destruct (unify_head d c rest' Hd Hsot) as (c' & u1 & E1 & Hc').
    fold u in E1. subst u'. destruct trim.
    - rewrite E1 in Hu |- *. destruct (rstrip_head c' u1 Hu) as [r' ->].
      now exists c', r'.
    - now exists c', u1. }
  destruct Hhead as (c' & r' & E' & Hc').
  split; [|split; [|split]].
  2:{ rewrite Indent.mem_app, Indent.mem_times by reflexivity. exact Hu'nl. }
  2:{ rewrite Indent.mem_app, Indent.mem_times by reflexivity. exact Hu'tab. }
  2:{ intros q Hq Hraw. rewrite Indent.mem_app, (Hulack q Hq Hraw).
      apply safe_parts in Hq as (_ & _ & Hsp & _).
      now rewrite (Indent.mem_times q SP _ Hsp). }
  unfold markdown_line.
  assert (Hcontent : Py.truthy
                       (Py.strip (Py.times SP (indent_size * level) ++ u'))
                     = true).
  { fold (content_bearing (Py.times SP (indent_size * level) ++ u')).
    rewrite Rows.content_nonspace, Rows.nonspace_app, Hu'.
    apply orb_true_r. }
  rewrite Hcontent. cbn [negb].
  rewrite E' in Hu'tab, Hu'nl |- *.
  rewrite (split_indent_indented indent_size level c' r' Hpos Hfit Hlevel Hc'
             Hu'tab Hu'nl).
  cbn [bind]. rewrite <- E', Hfix.
  destruct trim; [|reflexivity].
  rewrite (rstrip_app _ u' Hu'). subst u'. now rewrite rstrip_idem.
Qed.

Lemma for_each_fixed (body : str -> outcome (list str)) outs :
  Forall (fun out => body out = Ok [out]) outs -> for_each body outs = Ok outs.
Proof.
  induction 1 as [|out outs H _ IH]; [reflexivity|].
  cbn [for_each]. now rewrite H, IH.
Qed.

End Again.

(** X23.  The Markdown renderer is idempotent: for a positive indent size
    that fits a C [int] and lines without line feed, the lines that
    [lines_to_markdown] returns are returned as they are when they are
    rendered again with the same settings. *)
Theorem markdown_is_idempotent d (lines : list str) (indent_size : Z)
        (trim_trailing_ws : bool) :
  decimal_table d -> (0 < indent_size)%Z -> Py.fits_int indent_size = true ->
  (forall l, In l lines -> mem NL l = false) ->
  exists outs,
    lines_to_markdown d lines indent_size trim_trailing_ws = Ok outs
    /\ lines_to_markdown d outs indent_size trim_trailing_ws = Ok outs.
Proof.
  intros Hd Hpos Hfit Hl. rewrite Again.markdown_lines.
  destruct (Rows.for_each_rows
              (Again.markdown_line d indent_size trim_trailing_ws) lines
              (fun _ out =>
                 Again.markdown_line d indent_size trim_trailing_ws out
                 = Ok [out])) as (outs & E & R).
  { intros raw Hin.
    destruct (Again.markdown_line_fixed d indent_size trim_trailing_ws raw Hd
                Hpos Hfit (Hl raw Hin)) as (out & H1 & H2 & _).
    now exists out. }
  exists outs. split; [exact E|].
  rewrite Again.markdown_lines. apply Again.for_each_fixed.
  exact (Tabs.forall2_right _ _ _ R).
Qed.

Lemma markdown_is_idempotent_witness :
  exists outs,
    lines_to_markdown unicode_isdecimal
      [TAB :: lit "* a  "; [SP]; lit "   2) b"; lit " 3.5 "] 2 true = Ok outs
    /\ lines_to_markdown unicode_isdecimal outs 2 true = Ok outs.
Proof.
  apply (markdown_is_idempotent unicode_isdecimal
           [TAB :: lit "* a  "; [SP]; lit "   2) b"; lit " 3.5 "] 2 true
           unicode_decimal_table); [lia | reflexivity |].
  intros l [<- | [<- | [<- | [<- | []]]]]; reflexivity.
Defined.

(** * Converting what was converted *)

Module Twice.

(** [replace] brings in the characters of [new] only. *)
Lemma replace_lacks q old new s :
  old <> [] -> mem q new = false -> mem q s = false ->
  mem q (Py.replace old new s) = false.
Proof.
  intros Ho Hnew. remember (length s) as n eqn:Hn. revert s Hn.
  induction n as [n IH] using lt_wf_ind. intros s -> Hs.
  rewrite (replace_step old new s Ho).
  destruct (Py.strip_prefix old s) as [r|] eqn:E.
  - rewrite Indent.mem_app, Hnew.
    apply (IH (length r) (strip_prefix_shorter old s r Ho E) r eq_refl).
    apply strip_prefix_some in E. rewrite E, Indent.mem_app in Hs.
    now apply orb_false_iff in Hs.
  - destruct s as [|c t]; [reflexivity|].
    rewrite Indent.mem_cons in Hs |- *.
    apply orb_false_iff in Hs as [-> Ht].
    apply (IH (length t)); [simpl; lia | reflexivity | exact Ht].
Qed.

Lemma split_line l : mem NL l = false -> Py.split NL l = [l].
Proof.
  induction l as [|x l IH]; [reflexivity|].
  rewrite Indent.mem_cons. intros H. apply orb_false_iff in H as [Hx Hl].
  cbn [Py.split]. rewrite Indent.eqc_sym, Hx. now rewrite (IH Hl).
Qed.

Lemma split_app_nl l x :
  mem NL l = false -> Py.split NL (l ++ NL :: x) = l :: Py.split NL x.
Proof.
  induction l as [|c l IH]; [reflexivity|].
  rewrite Indent.mem_cons. intros H. apply orb_false_iff in H as [Hc Hl].
  cbn [app Py.split]. rewrite Indent.eqc_sym, Hc. now rewrite (IH Hl).
Qed.

Lemma split_join ls :
  ls <> [] -> Forall (fun l => mem NL l = false) ls ->
  Py.split NL (Py.join [NL] ls) = ls.
Proof.
  intros Hne H. induction H as [|l ls Hl Hls IH]; [contradiction|].
  destruct ls as [|l' ls]; [now apply split_line|].
  rewrite Lines.join_cons. cbn [app].
  rewrite (split_app_nl l _ Hl). f_equal. apply IH. discriminate.
Qed.

Lemma split_lacks q s l :
  mem q s = false -> In l (Py.split NL s) -> mem q l = false.
Proof.
  revert l. induction s as [|x s IH]; intros l Hs.
  - intros [<- | []]. reflexivity.
  - rewrite Indent.mem_cons in Hs. apply orb_false_iff in Hs as [Hx Hs].
    cbn [Py.split]. destruct (eqc x NL).
    + intros [<- | Hin]; [reflexivity | now apply IH].
    + destruct (Lines.split_cons NL s) as (l0 & ls & E). rewrite E in *.
      intros [<- | Hin].
      * rewrite Indent.mem_cons, Hx. apply IH; [exact Hs | now left].
      * apply IH; [exact Hs | now right].
Qed.

(** Line feeds at the start of a text are empty lines. *)
Lemma lines_behind_run (P : str -> Prop) run s :
  forallb is_nl run = true ->
  Forall P (Py.split NL (run ++ s)) -> Forall P (Py.split NL s).
Proof.
  induction run as [|c run IH]; intros Hrun H; [exact H|].
  cbn [forallb] in Hrun. apply andb_true_iff in Hrun as [Hc Hrun].
  apply is_nl_eq in Hc. subst c.
  change ((NL :: run) ++ s) with ([] ++ NL :: run ++ s) in H.
  rewrite (split_app_nl [] _ eq_refl) in H.
  apply IH; [exact Hrun | now inversion H].
Qed.

(** The lines of a collapsed text are lines of the text, or empty. *)
Lemma collapse_lines (P : str -> Prop) :
  P [] ->
  forall prev s pre,
    mem NL pre = false ->
    Forall P (Py.split NL (pre ++ s)) ->
    Forall P (Py.split NL
                (pre ++ Scan.render (fun _ => [NL; NL])
                          (scan (S (length s)) BLANK_RUN_RE prev s))).
Proof.
  intros Hnil.
  apply (Scan.scan_induction BLANK_RUN_RE
           (fun prev s ps =>
              forall pre, mem NL pre = false ->
                Forall P (Py.split NL (pre ++ s)) ->
                Forall P (Py.split NL
                            (pre ++ Scan.render (fun _ => [NL; NL]) ps)))
           sound_blank nonempty_blank).
  - intros prev pre _ H. exact H.
  - intros prev c t _ IH pre Hpre H. rewrite Visible.render_copied.
    destruct (eqc NL c) eqn:Hc.
    + apply N.eqb_eq in Hc. subst c.
      rewrite (split_app_nl pre t Hpre) in H.
      rewrite (split_app_nl pre _ Hpre).
      inversion H as [|? ? Hp Ht]; subst. constructor; [exact Hp|].
      apply (IH [] eq_refl). exact Ht.
    + change (pre ++ c :: t) with (pre ++ [c] ++ t) in H.
      change (pre ++ c :: Scan.render (fun _ => [NL; NL])
                            (scan (S (length t)) BLANK_RUN_RE (Some c) t))
        with (pre ++ [c] ++ Scan.render (fun _ => [NL; NL])
                              (scan (S (length t)) BLANK_RUN_RE (Some c) t)).
      rewrite app_assoc in H |- *. apply IH; [|exact H].
      rewrite Indent.mem_app, Hpre. cbn [mem existsb]. now rewrite Hc.
  - intros prev s m tl E IH pre Hpre H.
    destruct (blank_run_cases prev s) as [[_ En] | [Hge [tl' E']]];
      [congruence|].
    rewrite E' in E. injection E as <- _. cbn [after group0] in IH.
    rewrite Visible.render_matched. cbn [after group0].
    rewrite <- (take_drop is_nl s) in H.
    destruct (Py.take_while is_nl s) as [|c run] eqn:Erun.
    { unfold nl_run in Hge. rewrite Erun in Hge. simpl in Hge. lia. }
    pose proof (take_while_all is_nl s) as Hall. rewrite Erun in Hall.
    cbn [forallb] in Hall. apply andb_true_iff in Hall as [Hc Hrun].
    apply is_nl_eq in Hc. subst c.
    change (pre ++ (NL :: run) ++ Py.drop_while is_nl s)
      with (pre ++ NL :: run ++ Py.drop_while is_nl s) in H.
    rewrite (split_app_nl pre _ Hpre) in H.
    inversion H as [|? ? Hp Ht]; subst.
    change (pre ++ [NL; NL] ++ ?r) with (pre ++ NL :: [] ++ NL :: r).
    rewrite (split_app_nl pre _ Hpre), (split_app_nl [] _ eq_refl).
    constructor; [exact Hp|]. constructor; [exact Hnil|].
    apply (IH [] eq_refl). cbn [app].
    exact (lines_behind_run P run _ Hrun Ht).
Qed.

Lemma collapsed_lines (P : str -> Prop) collapse s :
  P [] -> Forall P (Py.split NL s) ->
  Forall P (Py.split NL (collapsed collapse s)).
Proof.
  intros Hnil H. unfold collapsed. destruct collapse; [|exact H].
  rewrite Scan.sub_render. unfold pieces.
  exact (collapse_lines P Hnil None s [] eq_refl H).
Qed.

Lemma collapsed_lacks q collapse s :
  eqc q NL = false -> mem q s = false -> mem q (collapsed collapse s) = false.
Proof.
  intros Hq H. unfold collapsed. destruct collapse; [|exact H].
  apply Tabs.mem_sub; auto using sound_blank, nonempty_blank.
  intros _. cbn [mem existsb]. now rewrite Hq.
Qed.

Lemma collapsed_again collapse s :
  collapsed collapse (collapsed collapse s) = collapsed collapse s.
Proof.
  unfold collapsed. destruct collapse; [|reflexivity].
  apply collapse_identity. rewrite Scan.sub_render. apply collapse_runs.
  now right.
Qed.

Lemma forall2_right_in {A B : Type} (R : A -> B -> Prop) (Q : B -> Prop)
      xs ys :
  Forall2 R xs ys ->
  (forall x y, In x xs -> R x y -> Q y) -> Forall Q ys.
Proof.
  induction 1 as [|x y xs ys Hxy _ IH]; intros H; constructor.
  - apply (H x y); [now left | exact Hxy].
  - apply IH. intros x' y' Hin. apply H. now right.
Qed.

(** The characters that [normalize_text] removes are none that the
    renderer brings in. *)
Lemma unwanted_safe convert_smart_quotes :
  forallb Again.safe (unwanted convert_smart_quotes) = true.
Proof. destruct convert_smart_quotes; reflexivity. Qed.

Lemma unwanted_no_hyphen convert_smart_quotes :
  forallb (fun c => negb (mem c (lit "- "))) (unwanted convert_smart_quotes)
  = true.
Proof. destruct convert_smart_quotes; reflexivity. Qed.

(** The prepared text lacks them, unless the source is Slack. *)
Lemma prepared_lacks text source convert_smart_quotes q :
  String.eqb source "Slack"%string = false ->
  In q (unwanted convert_smart_quotes) ->
  mem q (prepared text source convert_smart_quotes) = false.
Proof.
  intros Hs Hq. unfold prepared. rewrite Hs.
  pose proof (normalize_text_lacks text convert_smart_quotes) as Hn.
  rewrite forallb_forall in Hn. specialize (Hn q Hq).
  apply negb_true_iff in Hn.
  destruct (String.eqb source "Google Docs"%string); [|exact Hn].
  apply replace_lacks; [discriminate | | exact Hn].
  pose proof (unwanted_no_hyphen convert_smart_quotes) as Hh.
  rewrite forallb_forall in Hh. specialize (Hh q Hq).
  now apply negb_true_iff in Hh.
Qed.

(** A text without tab and without those characters is prepared as it
    is. *)
Lemma prepared_fixed out source convert_smart_quotes :
  String.eqb source "Slack"%string = false ->
  mem TAB out = false ->
  (forall q, In q (unwanted convert_smart_quotes) -> mem q out = false) ->
  prepared out source convert_smart_quotes = out.
Proof.
  intros Hs Htab Hq. unfold prepared. rewrite Hs.
  rewrite normalize_fixed.
  - destruct (String.eqb source "Google Docs"%string); [|reflexivity].
    apply replace_absent; [discriminate|].
    intros Ho. apply (Normal.occurs_mem _ _ TAB) in Ho; [congruence|].
    reflexivity.
  - apply forallb_forall. intros q Hin. apply negb_true_iff. now apply Hq.
Qed.

End Twice.

(** X24.  For the Markdown target without [keep_code_fences], a positive
    indent size that fits a C [int] and a source other than Slack,
    [convert] is idempotent:
    converting its output again with the same settings returns the same
    output. *)
Theorem convert_markdown_idempotent d (text : str) (source : String.string)
        (indent_size : Z)
        (collapse_blank_lines trim_trailing_ws slack_wrap_codeblock : bool)
        (gdocs_bullet_symbol : BulletSymbol) (convert_smart_quotes : bool) :
  decimal_table d -> (0 < indent_size)%Z -> Py.fits_int indent_size = true ->
  String.eqb source "Slack"%string = false ->
  exists out,
    convert d text source "Markdown / Obsidian"%string indent_size
            collapse_blank_lines trim_trailing_ws false slack_wrap_codeblock
            gdocs_bullet_symbol convert_smart_quotes = Ok out
    /\ convert d out source "Markdown / Obsidian"%string indent_size
               collapse_blank_lines trim_trailing_ws false
               slack_wrap_codeblock gdocs_bullet_symbol convert_smart_quotes
       = Ok out.
Proof.
  intros Hd Hpos Hfit Hs.
  set (pre := prepared text source convert_smart_quotes).
  set (body := Again.markdown_line d indent_size trim_trailing_ws).
  destruct (Rows.for_each_rows body (Py.split NL pre)
              (fun raw out =>
                 body out = Ok [out]
                 /\ mem NL out = false /\ mem TAB out = false
                 /\ (forall q, Again.safe q = true -> mem q raw = false ->
                               mem q out = false)))
    as (outs & E & HR).
  { intros raw Hin.
    destruct (Again.markdown_line_fixed d indent_size trim_trailing_ws raw
                Hd Hpos Hfit (Outline.split_no_sep pre raw Hin))
      as (out & H1 & H2). now exists out. }
  set (out := collapsed collapse_blank_lines (Py.join [NL] outs)).
  assert (Hsteps : forall t,
             convert d t source "Markdown / Obsidian"%string indent_size
                     collapse_blank_lines trim_trailing_ws false
                     slack_wrap_codeblock gdocs_bullet_symbol
                     convert_smart_quotes
             = (out_lines <-
                  for_each body
                    (Py.split NL (prepared t source convert_smart_quotes)) ;;
                Ok (collapsed collapse_blank_lines (Py.join [NL] out_lines)))).
  { intros t. rewrite convert_steps. cbv zeta. cbn [fst snd]. unfold rendered.
    simpl String.eqb. cbv iota. rewrite Again.markdown_lines. fold body.
    destruct (for_each body
                (Py.split NL (prepared t source convert_smart_quotes)));
      reflexivity. }
  exists out. split.
  { rewrite Hsteps. fold pre. now rewrite E. }
  assert (Hfix : Forall (fun o => body o = Ok [o]) outs).
  { apply (Twice.forall2_right_in _ _ _ _ HR). now intros x y _ [H _]. }
  assert (Hnl : Forall (fun o => mem NL o = false) outs).
  { apply (Twice.forall2_right_in _ _ _ _ HR). now intros x y _ (_ & H & _). }
  assert (Htab : Forall (fun o => mem TAB o = false) outs).
  { apply (Twice.forall2_right_in _ _ _ _ HR).
    now intros x y _ (_ & _ & H & _). }
  assert (Hlack : forall q, In q (unwanted convert_smart_quotes) ->
                            mem q out = false).
  { intros q Hq.
    pose proof (Twice.unwanted_safe convert_smart_quotes) as Hsafe.
    rewrite forallb_forall in Hsafe. specialize (Hsafe q Hq).
    pose proof (Twice.prepared_lacks text source convert_smart_quotes q Hs Hq)
      as Hpre. fold pre in Hpre.
    destruct (Again.safe_parts q Hsafe) as (_ & _ & _ & Hqnl).
    apply Twice.collapsed_lacks; [exact Hqnl|].
    apply Tabs.mem_join; [cbn [mem existsb]; now rewrite Hqnl|].
    apply (Twice.forall2_right_in _ _ _ _ HR).
    intros x y Hin (_ & _ & _ & H). apply (H q Hsafe).
    exact (Twice.split_lacks q pre x Hpre Hin). }
  assert (Houttab : mem TAB out = false).
  { apply Twice.collapsed_lacks; [reflexivity|].
    now apply Tabs.mem_join. }
  assert (Hne : outs <> []).
  { destruct (Lines.split_cons NL pre) as (l & ls & El). rewrite El in HR.
    inversion HR. discriminate. }
  assert (Hlines : Forall (fun o => body o = Ok [o]) (Py.split NL out)).
  { apply Twice.collapsed_lines; [reflexivity|].
    now rewrite (Twice.split_join outs Hne Hnl). }
  rewrite Hsteps.
  rewrite (Twice.prepared_fixed out source convert_smart_quotes Hs Houttab
             Hlack).
  rewrite (Again.for_each_fixed body _ Hlines). cbn [bind].
  rewrite Lines.join_split. subst out. now rewrite Twice.collapsed_again.
Qed.

Lemma convert_markdown_idempotent_witness :
  exists out,
    convert unicode_isdecimal
            (TAB :: lit "* a  " ++ [CR; NL; NL; NL; NL] ++ lit " 2) b")
            "Google Docs"%string "Markdown / Obsidian"%string 4 true true
            false true BulletDot true = Ok out
    /\ convert unicode_isdecimal out "Google Docs"%string
               "Markdown / Obsidian"%string 4 true true false true BulletDot
               true = Ok out.
Proof.
  apply (convert_markdown_idempotent unicode_isdecimal
           (TAB :: lit "* a  " ++ [CR; NL; NL; NL; NL] ++ lit " 2) b")
           "Google Docs"%string 4 true true true BulletDot true
           unicode_decimal_table); [lia | reflexivity | reflexivity].
Defined.

(** * The records of the outline *)

(** A record as the outline holds it: the level is not negative, and the
    text has content, no tab, no line feed, and no space or tab at its
    start. *)
Definition tidy (it : item) : Prop :=
  match it with
  | mkItem l t =>
      (0 <= l)%Z
      /\ has_nonspace t = true
      /\ mem TAB t = false /\ mem NL t = false
      /\ match t with c :: _ => space_or_tab c = false | [] => False end
  end.

Lemma record_tidy d indent_size raw :
  decimal_table d -> (0 < indent_size)%Z ->
  mem NL raw = false -> content_bearing raw = true ->
  tidy (record d indent_size raw).
Proof.
  intros Hd Hpos Hnl Hc. unfold record, tidy.
  set (rest := Py.drop_while space_or_tab (Py.expanded indent_size raw)).
  assert (Hink : has_nonspace rest = true).
  { subst rest. now rewrite Rows.rest_nonspace, <- Rows.content_nonspace. }
  assert (Htab : mem TAB rest = false)
    by (apply Tabs.mem_drop_while, Tabs.expandtabs_tab_free).
  assert (Hnl' : mem NL rest = false)
    by (apply Tabs.mem_drop_while, Again.expandtabs_no_nl, Hnl).
  split.
  { apply Z.div_pos; [unfold leading_columns, Py.len; lia | exact Hpos]. }
  split; [now apply Rows.nonspace_unify|].
  split; [now apply Tabs.mem_unify|].
  split; [now apply Again.unify_lacks|].
  destruct rest as [|c rest'] eqn:E; [discriminate Hink|].
  pose proof (drop_while_head space_or_tab _ c rest' E) as Hsot.
  destruct (Again.unify_head d c rest' Hd Hsot) as (c' & u1 & -> & Hc').
  exact Hc'.
Qed.

(** X25.  For a positive indent size that fits a C [int] and lines
    without line feed, the outline holds one record for every line that is
    not blank, and every record is tidy: its level is not negative, and its
    text has content, holds no tab and no line feed, and starts with
    neither space nor tab. *)
Theorem outline_records_tidy d (lines : list str) (indent_size : Z) :
  decimal_table d -> (0 < indent_size)%Z -> Py.fits_int indent_size = true ->
  (forall l, In l lines -> mem NL l = false) ->
  exists items,
    outline_items d lines indent_size = Ok items
    /\ length items = length (filter content_bearing lines)
    /\ Forall tidy items.
Proof.
  intros Hd Hpos Hfit Hl.
  rewrite (outline_items_records d lines indent_size Hpos Hfit Hl).
  eexists. split; [reflexivity|]. split; [apply length_map|].
  apply Forall_forall. intros it Hin.
  apply in_map_iff in Hin as (raw & <- & Hraw).
  apply filter_In in Hraw as [Hraw Hc].
  exact (record_tidy d indent_size raw Hd Hpos (Hl raw Hraw) Hc).
Qed.

Lemma outline_records_tidy_witness :
  exists items,
    outline_items unicode_isdecimal
      [TAB :: lit "* a  "; [SP]; lit "   2) b"] 2 = Ok items
    /\ length items
       = length (filter content_bearing [TAB :: lit "* a  "; [SP];
                                         lit "   2) b"])
    /\ Forall tidy items.
Proof.
  apply (outline_records_tidy unicode_isdecimal
           [TAB :: lit "* a  "; [SP]; lit "   2) b"] 2
           unicode_decimal_table); [lia | reflexivity |].
  intros l [<- | [<- | [<- | []]]]; reflexivity.
Defined.

(** * The Google Docs renderer, twice *)

Module Docs.

(** The statements of the loop of [lines_to_gdocs] for one line. *)
Definition gdocs_line d (indent_size : Z) (bullet_symbol : BulletSymbol)
           (trim_trailing_ws : bool) (raw : str) : outcome (list str) :=
  if negb (Py.truthy (Py.strip raw)) then Ok [[]]
  else
    lr <- split_indent raw indent_size ;;
    let (level, rest) := lr in
    let rest := unify_markers d rest in
    let rest :=
      sub HYPHEN_RE (fun _ => bullet_str bullet_symbol ++ [SP]) rest in
    let line := Py.times TAB level ++ rest in
    let line := if trim_trailing_ws then Py.rstrip line else line in
    Ok [line].

Lemma gdocs_lines d lines indent_size bullet trim :
  lines_to_gdocs d lines indent_size bullet trim
  = for_each (gdocs_line d indent_size bullet trim) lines.
Proof. reflexivity. Qed.

(** The symbol of a bullet item. *)
Definition symbol (bullet : BulletSymbol) : char :=
  match bullet with BulletDot => 8226%N | BulletHyphen => HYPHEN end.

Lemma symbol_str bullet t :
  bullet_str bullet ++ [SP] ++ t = symbol bullet :: SP :: t.
Proof. now destruct bullet. Qed.

Lemma symbol_bullet bullet : mem (symbol bullet) BULLET_CHARS = true.
Proof. now destruct bullet. Qed.

(** [re.sub(r"^\-\s+", ...)] on a hyphen item, and where no bullet rule
    applies. *)
Lemma hyphen_item bullet t :
  Py.lstrip t = t ->
  sub HYPHEN_RE (fun _ => bullet_str bullet ++ [SP]) (HYPHEN :: SP :: t)
  = symbol bullet :: SP :: t.
Proof.
  intros Ht. rewrite Kept.hyphen_step.
  change (eqc 45%N HYPHEN && Py.isspace SP)%bool with true. cbv iota.
  fold (Py.lstrip t). rewrite Ht, <- app_assoc. apply symbol_str.
Qed.

Lemma hyphen_none repl line :
  bullet_marker line = None -> sub HYPHEN_RE (fun _ => repl) line = line.
Proof.
  intros H. rewrite Kept.hyphen_step. destruct line as [|c [|s t]];
    try reflexivity.
  destruct (eqc 45%N c) eqn:Hc; [|reflexivity].
  apply N.eqb_eq in Hc. subst c. unfold bullet_marker in H.
  change (mem 45%N BULLET_CHARS) with true in H. cbn [andb] in H |- *.
  now destruct (Py.isspace s).
Qed.

Lemma hyphen_token d repl tok t :
  decimal_table d -> is_token d tok = true ->
  sub HYPHEN_RE (fun _ => repl) (tok ++ t) = tok ++ t.
Proof.
  intros Hd Htok.
  destruct (Items.token_not_space d tok Hd Htok) as (a & t0 & -> & _ & Ha).
  rewrite Kept.hyphen_step. cbn [app]. rewrite Ha. cbn [andb].
  now destruct (t0 ++ t).
Qed.

(** A line that was rendered: the symbol of a bullet item and the text,
    or a line on which [unify_markers] and the substitution change
    nothing.  Trimmed or not, it is rendered as itself. *)
Lemma rendered_again d bullet (trim : bool) line :
  decimal_table d ->
  let g := sub HYPHEN_RE (fun _ => bullet_str bullet ++ [SP])
             (unify_markers d line) in
  let g' := if trim then Py.rstrip g else g in
  sub HYPHEN_RE (fun _ => bullet_str bullet ++ [SP]) (unify_markers d g')
  = g'.
Proof.
  intros Hd g g'. subst g' g.
  destruct (Again.unify_cases d line Hd)
    as [(t & E & Ht) | [(tok & t & Htok & E & Ht) | (E & Hb & Hn)]].
  - rewrite E, (hyphen_item bullet t Ht).
    assert (Hitem : forall t2, Py.lstrip t2 = t2 ->
               sub HYPHEN_RE (fun _ => bullet_str bullet ++ [SP])
                 (unify_markers d (symbol bullet :: SP :: t2))
               = symbol bullet :: SP :: t2).
    { intros t2 Ht2. rewrite (unify_markers_spec d _ Hd).
      assert (Hne : [SP] <> []) by discriminate.
      pose proof (bullet_rule_line (symbol bullet) [SP] t2
                    (symbol_bullet bullet) Hne eq_refl Ht2) as B.
      cbn [app] in B. rewrite B.
      change (lit "- " ++ t2) with (45%N :: SP :: t2).
      rewrite (number_rule_hyphen d (SP :: t2) Hd).
      apply (hyphen_item bullet t2 Ht2). }
    destruct trim; [|now apply Hitem].
    destruct t as [|c t].
    + assert (R : Py.rstrip [symbol bullet; SP] = [symbol bullet])
        by now destruct bullet.
      rewrite R.
      rewrite (Again.fixed_none d [symbol bullet] Hd eq_refl).
      * now rewrite Kept.hyphen_step.
      * unfold num_marker, run_marker, letter_marker.
        cbn [Py.take_while Py.drop_while marker_tail].
        destruct (d (symbol bullet)), (ascii_letter (symbol bullet)),
          (roman_letter (symbol bullet)); reflexivity.
    + pose proof (Again.lstrip_head c t Ht) as Hc.
      pose proof (Lines.rstrip_keeps [symbol bullet; SP] c t Hc) as R.
      cbn [app] in R. rewrite R.
      apply Hitem. now apply Again.lstrip_fixed.
  - assert (Hg : sub HYPHEN_RE (fun _ => bullet_str bullet ++ [SP])
                   (unify_markers d line) = unify_markers d line)
      by (rewrite E; apply (hyphen_token d _ tok _ Hd Htok)).
    rewrite Hg. rewrite (Again.unify_trimmed d trim line Hd).
    rewrite E. destruct trim; [|apply (hyphen_token d _ tok _ Hd Htok)].
    destruct t as [|c t].
    + rewrite (Lines.rstrip_keeps tok STOP [SP] eq_refl).
      apply (hyphen_token d _ tok _ Hd Htok).
    + pose proof (Again.lstrip_head c t Ht) as Hc.
      pose proof (Lines.rstrip_keeps (tok ++ [STOP; SP]) c t Hc) as R.
      rewrite <- !app_assoc in R. cbn [app] in R. rewrite R.
      apply (hyphen_token d _ tok _ Hd Htok).
  - assert (Hg : sub HYPHEN_RE (fun _ => bullet_str bullet ++ [SP])
                   (unify_markers d line) = unify_markers d line)
      by (rewrite E; now apply hyphen_none).
    rewrite Hg. rewrite (Again.unify_trimmed d trim line Hd).
    rewrite E. destruct trim; [|now apply hyphen_none].
    destruct (Again.rstrip_split line) as (ws & Ews & _).
    apply hyphen_none. apply (Again.bullet_marker_prefix _ ws).
    now rewrite <- Ews.
Qed.

Lemma mem_hyphen q bullet line :
  eqc q SP = false -> eqc q (symbol bullet) = false ->
  mem q line = false ->
  mem q (sub HYPHEN_RE (fun _ => bullet_str bullet ++ [SP]) line) = false.
Proof.
  intros Hsp Hsym H. rewrite Kept.hyphen_step.
  destruct line as [|c [|s t]]; try exact H.
  destruct (eqc 45%N c && Py.isspace s)%bool; [|exact H].
  rewrite <- app_assoc, symbol_str, !Indent.mem_cons, Hsym, Hsp. cbn [orb].
  apply Tabs.mem_drop_while.
  rewrite !Indent.mem_cons in H.
  apply orb_false_iff in H as [_ H]. now apply orb_false_iff in H as [_ H].
Qed.

(** The first character of a rendered item is neither space nor tab. *)
Lemma hyphen_head bullet c u1 :
  space_or_tab c = false ->
  exists c' g1,
    sub HYPHEN_RE (fun _ => bullet_str bullet ++ [SP]) (c :: u1) = c' :: g1
    /\ space_or_tab c' = false.
Proof.
  intros Hc. rewrite Kept.hyphen_step. destruct u1 as [|s t].
  - now exists c, [].
  - destruct (eqc 45%N c && Py.isspace s)%bool.
    + rewrite <- app_assoc, symbol_str. eexists _, _.
      split; [reflexivity|]. now destruct bullet.
    + now exists c, (s :: t).
Qed.

(** [expandtabs] on the tabs that start a rendered line. *)
Lemma expandtabs_tabs indent_size (m : nat) (g : str) :
  (0 < indent_size)%Z -> mem TAB g = false ->
  forall k : Z,
    Py.expandtabs_from indent_size (indent_size * k) (repeat TAB m ++ g)
    = repeat SP (Z.to_nat indent_size * m) ++ g.
Proof.
  intros Hpos Hg. induction m as [|m IH]; intros k.
  - rewrite Nat.mul_0_r. cbn [repeat app]. now apply Lines.expandtabs_copy.
  - cbn [repeat app Py.expandtabs_from].
    change (eqc TAB TAB) with true. cbv iota.
    apply Z.ltb_lt in Hpos as Hlt. rewrite Hlt.
    rewrite (Z.mul_comm indent_size k), Z_mod_mult, Z.sub_0_r.
    replace (k * indent_size + indent_size)%Z
      with (indent_size * (k + 1))%Z by lia.
    rewrite IH. unfold Py.times. rewrite app_assoc, <- repeat_app.
    f_equal. f_equal. lia.
Qed.

(** The level and the rest of a line that starts with tabs and goes on
    with neither space nor tab. *)
Lemma split_indent_tabs indent_size level c body :
  (0 < indent_size)%Z -> Py.fits_int indent_size = true -> (0 <= level)%Z ->
  space_or_tab c = false ->
  mem TAB (c :: body) = false -> mem NL (c :: body) = false ->
  split_indent (Py.times TAB level ++ c :: body) indent_size
  = Ok (level, c :: body).
Proof.
  intros Hpos Hfit Hlevel Hc Htab Hnl.
  assert (Hexp : Py.expanded indent_size (Py.times TAB level ++ c :: body)
                 = Py.times SP (indent_size * level) ++ c :: body).
  { pose proof (expandtabs_tabs indent_size (Z.to_nat level) (c :: body)
                  Hpos Htab 0) as E.
    rewrite Z.mul_0_r in E. unfold Py.expanded, Py.times.
    rewrite E, Z2Nat.inj_mul by lia. reflexivity. }
  rewrite Indent.split_indent_line; [|exact Hfit|lia|].
  - rewrite Hexp.
    destruct (run_app space_or_tab (Py.times SP (indent_size * level)) c body
                (Items.indent_run _) Hc) as [-> ->].
    rewrite Items.len_times by nia.
    now rewrite Z.mul_comm, Z.div_mul by lia.
  - rewrite Indent.mem_app, Indent.mem_times by reflexivity. exact Hnl.
Qed.

(** One round of the loop: the line that it appends is appended as it is
    when it is the line of the round. *)
Lemma gdocs_line_fixed d indent_size bullet trim raw :
  decimal_table d -> (0 < indent_size)%Z -> Py.fits_int indent_size = true ->
  mem NL raw = false ->
  exists out,
    gdocs_line d indent_size bullet trim raw = Ok [out]
    /\ gdocs_line d indent_size bullet trim out = Ok [out].
Proof.
  intros Hd Hpos Hfit Hnl. unfold gdocs_line at 1.
  destruct (Py.truthy (Py.strip raw)) eqn:Hc; cbn [negb];
    [|exists []; split; reflexivity].
  rewrite (Indent.split_indent_line raw indent_size) by (lia || assumption).
  cbn [bind].
  set (e := Py.expanded indent_size raw).
  set (level := (Py.len (Py.take_while space_or_tab e) / indent_size)%Z).
  set (rest := Py.drop_while space_or_tab e).
  assert (Hlevel : (0 <= level)%Z).
  { subst level. apply Z.div_pos; [unfold Py.len; lia | exact Hpos]. }
  assert (Hink : has_nonspace rest = true).
  { subst rest e. rewrite Rows.rest_nonspace, <- Rows.content_nonspace.
    exact Hc. }
  assert (Htab : mem TAB rest = false)
    by (apply Tabs.mem_drop_while, Tabs.expandtabs_tab_free).
  assert (Hnl' : mem NL rest = false)
    by (apply Tabs.mem_drop_while, Again.expandtabs_no_nl, Hnl).
  destruct rest as [|c rest'] eqn:Erest; [discriminate Hink|].
  pose proof (drop_while_head space_or_tab e c rest' Erest) as Hsot.
  pose proof (rendered_again d bullet trim (c :: rest') Hd) as Hfix.
  cbv zeta in Hfix.
  set (u := unify_markers d (c :: rest')) in *.
  pose proof (Rows.nonspace_unify d _ Hd Hink) as Hu. fold u in Hu.
  pose proof (Tabs.mem_unify d _ Hd Htab) as Hutab. fold u in Hutab.
  pose proof (Again.unify_lacks d NL _ Hd eq_refl eq_refl eq_refl Hnl')
    as Hunl.
  fold u in Hunl.
  set (g := sub HYPHEN_RE (fun _ => bullet_str bullet ++ [SP]) u) in *.
  assert (Hg : has_nonspace g = true) by now apply Rows.nonspace_hyphen.
  assert (Hgtab : mem TAB g = false)
    by (apply mem_hyphen; [reflexivity | now destruct bullet | exact Hutab]).
  assert (Hgnl : mem NL g = false)
    by (apply mem_hyphen; [reflexivity | now destruct bullet | exact Hunl]).
  set (g' := if trim then Py.rstrip g else g) in *.
  assert (Eout : (if trim then Py.rstrip (Py.times TAB level ++ g)
                  else Py.times TAB level ++ g)
                 = Py.times TAB level ++ g').
  { subst g'. destruct trim; [now apply Again.rstrip_app | reflexivity]. }
  rewrite Eout. eexists. split; [reflexivity|].
  assert (Hg' : has_nonspace g' = true)
    by (subst g'; destruct trim; [now rewrite Rows.nonspace_rstrip | exact Hg]).
  assert (Hg'tab : mem TAB g' = false)
    by (subst g'; destruct trim; [now apply Tabs.mem_rstrip | exact Hgtab]).
  assert (Hg'nl : mem NL g' = false)
    by (subst g'; destruct trim; [now apply Tabs.mem_rstrip | exact Hgnl]).
  assert (Hhead : exists c' r', g' = c' :: r' /\ space_or_tab c' = false).
  { destruct (Again.unify_head d c rest' Hd Hsot) as (c1 & u1 & E1 & Hc1).
    fold u in E1.
    destruct (hyphen_head bullet c1 u1 Hc1) as (c' & g1 & E2 & Hc').
    rewrite <- E1 in E2. fold g in E2. subst g'. destruct trim.
    - rewrite E2 in Hg |- *. destruct (Again.rstrip_head c' g1 Hg) as [r' ->].
      now exists c', r'.
    - now exists c', g1. }
  destruct Hhead as (c' & r' & E' & Hc').
  unfold gdocs_line.
  assert (Hcontent : Py.truthy (Py.strip (Py.times TAB level ++ g')) = true).
  { fold (content_bearing (Py.times TAB level ++ g')).
    rewrite Rows.content_nonspace, Rows.nonspace_app, Hg'.
    apply orb_true_r. }
  rewrite Hcontent. cbn [negb].
  rewrite E' in Hg'tab, Hg'nl |- *.
  rewrite (split_indent_tabs indent_size level c' r' Hpos Hfit Hlevel Hc'
             Hg'tab Hg'nl).
  cbn [bind]. rewrite <- E', Hfix.
  destruct trim; [|reflexivity].
  rewrite (Again.rstrip_app _ g' Hg'). subst g'. now rewrite Again.rstrip_idem.
Qed.

End Docs.

(** X26.  The Google Docs renderer is idempotent: for a positive indent
    size that fits a C [int] and lines without line feed, the lines that
    [lines_to_gdocs] returns are returned as they are when they are
    rendered again with the same indent size, bullet symbol and
    trimming. *)
Theorem gdocs_is_idempotent d (lines : list str) (indent_size : Z)
        (bullet_symbol : BulletSymbol) (trim_trailing_ws : bool) :
  decimal_table d -> (0 < indent_size)%Z -> Py.fits_int indent_size = true ->
  (forall l, In l lines -> mem NL l = false) ->
  exists outs,
    lines_to_gdocs d lines indent_size bullet_symbol trim_trailing_ws
    = Ok outs
    /\ lines_to_gdocs d outs indent_size bullet_symbol trim_trailing_ws
       = Ok outs.
Proof.
  intros Hd Hpos Hfit Hl. rewrite Docs.gdocs_lines.
  destruct (Rows.for_each_rows
              (Docs.gdocs_line d indent_size bullet_symbol trim_trailing_ws)
              lines
              (fun _ out =>
                 Docs.gdocs_line d indent_size bullet_symbol trim_trailing_ws
                   out = Ok [out])) as (outs & E & R).
  { intros raw Hin.
    destruct (Docs.gdocs_line_fixed d indent_size bullet_symbol
                trim_trailing_ws raw Hd Hpos Hfit (Hl raw Hin))
      as (out & H1 & H2).
    now exists out. }
  exists outs. split; [exact E|].
  rewrite Docs.gdocs_lines. apply Again.for_each_fixed.
  exact (Tabs.forall2_right _ _ _ R).
Qed.

Lemma gdocs_is_idempotent_witness :
  exists outs,
    lines_to_gdocs unicode_isdecimal
      [TAB :: lit "* a  "; [SP]; lit "   2) b"; lit "    - "] 2 BulletDot true
    = Ok outs
    /\ lines_to_gdocs unicode_isdecimal outs 2 BulletDot true = Ok outs.
Proof.
  apply (gdocs_is_idempotent unicode_isdecimal
           [TAB :: lit "* a  "; [SP]; lit "   2) b"; lit "    - "] 2
           BulletDot true unicode_decimal_table); [lia | reflexivity |].
  intros l [<- | [<- | [<- | [<- | []]]]]; reflexivity.
Defined.
